(** * Review workflow of the meeting-transcript client

    A shallow embedding of the stateful logic of the React client:
    - [ExtractedItemsPanel.tsx]: [normalizeItem], [refreshItems],
      [refreshExtractions], the polling effect, [filteredItems], [setBusy],
      [approveItem], [rejectItem], [editItem];
    - [App.tsx]: [handleChangeWorkspace], [refreshTasks], [handleMarkDone],
      [handleUndo];
    - further on: the filter buttons of the panel, [parseEmails] and
      [handleCreate] of [InvitesModal.tsx], [request] of [lib/api.ts],
      [submit] of [LoginPage.tsx], the scroll listener and [handleLogout] of
      [Header.tsx], [handleFile] and the Rename button of [Sidebar.tsx], and
      the other handlers and effects of [App.tsx].

    Values received from the server are JavaScript values; every record the
    client holds is a JavaScript object, modelled as a finite map from
    property names to values. *)

From stdpp Require Import gmap strings list fin_maps pretty.

Local Open Scope string_scope.
Set Warnings "-register-all".

(** ** JavaScript values *)

(** The values of JSON, plus [undefined].  Numbers are the integers: the
    functions below only test numbers for equality and truthiness (they are
    identifiers), and copy every other number unchanged. *)
Inductive jsval : Type :=
  | JUndefined
  | JNull
  | JBool (b : bool)
  | JNum (n : Z)
  | JStr (s : string)
  | JArr (l : list jsval)
  | JObj (o : gmap string jsval).

(** A JavaScript object: own properties by name. *)
Abbreviation obj := (gmap string jsval).

(** [o.k]: reading a property that is not there gives [undefined]. *)
Definition prop (o : obj) (k : string) : jsval :=
  default JUndefined (o !! k).

Notation "o .[ k ]" := (prop o k) (at level 1, left associativity, format "o .[ k ]").

(** [a ?? b]: the right operand only when the left one is [null] or
    [undefined]. *)
Definition nullish (v : jsval) : bool :=
  match v with
  | JUndefined | JNull => true
  | _ => false
  end.

Definition coalesce (a b : jsval) : jsval := if nullish a then b else a.

Infix "??" := coalesce (at level 45, right associativity).

(** Truthiness, as tested by [!v], [!!v], [a && b], [c ? a : b] and [if]. *)
Definition truthy (v : jsval) : bool :=
  match v with
  | JUndefined | JNull => false
  | JBool b => b
  | JNum n => negb (n =? 0)%Z
  | JStr s => negb (String.eqb s "")
  | JArr _ | JObj _ => true
  end.

(** [a === b].  Primitives compare by value.  Arrays and objects compare by
    reference in JavaScript; values here carry no reference, and two
    separately received arrays or objects are never the same one. *)
Definition strict_eq (a b : jsval) : bool :=
  match a, b with
  | JUndefined, JUndefined => true
  | JNull, JNull => true
  | JBool x, JBool y => Bool.eqb x y
  | JNum x, JNum y => (x =? y)%Z
  | JStr x, JStr y => String.eqb x y
  | _, _ => false
  end.

Infix "===" := strict_eq (at level 70, no associativity).

(** [String(v)], which is also how a value becomes a property name in
    [{ [v]: ... }] and [o[v]]. *)
Fixpoint to_string (v : jsval) : string :=
  match v with
  | JUndefined => "undefined"
  | JNull => "null"
  | JBool true => "true"
  | JBool false => "false"
  | JNum n => pretty n
  | JStr s => s
  | JArr l =>
      (fix join (l : list jsval) : string :=
         match l with
         | [] => ""
         | [x] => if nullish x then "" else to_string x
         | x :: l' => (if nullish x then "" else to_string x) +:+ "," +:+ join l'
         end) l
  | JObj _ => "[object Object]"
  end.

(** ** [normalizeItem] (ExtractedItemsPanel.tsx, lines 8-22) *)

(** [{ ...raw, kind: ..., status: ..., ... }]: the properties of [raw], with
    the ten listed ones overwritten. *)
Definition normalizeItem (raw : obj) : obj :=
  <["review_reasons" := raw.["review_reasons"] ?? JNull]>
  (<["needs_review" := JBool (truthy raw.["needs_review"])]>
  (<["confidence" := raw.["confidence"] ?? JNull]>
  (<["timestamp_end" := raw.["timestamp_end"] ?? JNull]>
  (<["timestamp_start" := raw.["timestamp_start"] ?? JNull]>
  (<["speaker" := raw.["speaker"] ?? JNull]>
  (<["details" := raw.["details"] ?? JNull]>
  (<["contexts" := raw.["contexts"] ?? JArr []]>
  (<["status" := raw.["status"] ?? JStr "pending"]>
  (<["kind" := raw.["kind"] ?? raw.["item_type"] ?? JStr "note"]>
   raw))))))))).

(** ** Component state

    The [useState] cells of [App] and of [ExtractedItemsPanel] that the
    modelled handlers read or write, under the names they have in the
    source.  The panel is rendered by [App] with
    [meetingId={selectedMeetingId}] and [workspaceId={activeWorkspaceId}]. *)

Inductive ReviewFilter := pending | approved | rejected | all.

Record LastDone := { taskId : jsval; prevStatus : jsval }.

Record State := {
  (* App *)
  activeWorkspaceId : jsval;
  selectedMeetingId : jsval;
  tasks : list obj;
  lastDone : option LastDone;
  (* ExtractedItemsPanel *)
  extractions : list obj;
  selectedExtractionId : jsval;
  items : list obj;
  loadingExtractions : bool;
  loadingItems : bool;
  starting : bool;
  reviewFilter : ReviewFilter;
  busyIds : gmap string bool;
}.

Definition meetingId (r : State) : jsval := selectedMeetingId r.
Definition workspaceId (r : State) : jsval := activeWorkspaceId r.

(** [useState] in a fresh session. *)
Definition initial : State := {|
  activeWorkspaceId := JNull; selectedMeetingId := JNull;
  tasks := []; lastDone := None;
  extractions := []; selectedExtractionId := JNull; items := [];
  loadingExtractions := false; loadingItems := false; starting := false;
  reviewFilter := pending; busyIds := ∅ |}.

(** The state setters.  Each takes the updater form [prev => ...]; setting a
    value [v] is the constant updater. *)
Definition setActiveWorkspaceId (f : jsval → jsval) (s : State) : State :=
  {| activeWorkspaceId := f (activeWorkspaceId s);
     selectedMeetingId := selectedMeetingId s; tasks := tasks s;
     lastDone := lastDone s; extractions := extractions s;
     selectedExtractionId := selectedExtractionId s; items := items s;
     loadingExtractions := loadingExtractions s; loadingItems := loadingItems s;
     starting := starting s; reviewFilter := reviewFilter s;
     busyIds := busyIds s |}.

Definition setSelectedMeetingId (f : jsval → jsval) (s : State) : State :=
  {| activeWorkspaceId := activeWorkspaceId s;
     selectedMeetingId := f (selectedMeetingId s); tasks := tasks s;
     lastDone := lastDone s; extractions := extractions s;
     selectedExtractionId := selectedExtractionId s; items := items s;
     loadingExtractions := loadingExtractions s; loadingItems := loadingItems s;
     starting := starting s; reviewFilter := reviewFilter s;
     busyIds := busyIds s |}.

Definition setTasks (f : list obj → list obj) (s : State) : State :=
  {| activeWorkspaceId := activeWorkspaceId s;
     selectedMeetingId := selectedMeetingId s; tasks := f (tasks s);
     lastDone := lastDone s; extractions := extractions s;
     selectedExtractionId := selectedExtractionId s; items := items s;
     loadingExtractions := loadingExtractions s; loadingItems := loadingItems s;
     starting := starting s; reviewFilter := reviewFilter s;
     busyIds := busyIds s |}.

Definition setLastDone (f : option LastDone → option LastDone) (s : State) : State :=
  {| activeWorkspaceId := activeWorkspaceId s;
     selectedMeetingId := selectedMeetingId s; tasks := tasks s;
     lastDone := f (lastDone s); extractions := extractions s;
     selectedExtractionId := selectedExtractionId s; items := items s;
     loadingExtractions := loadingExtractions s; loadingItems := loadingItems s;
     starting := starting s; reviewFilter := reviewFilter s;
     busyIds := busyIds s |}.

Definition setExtractions (f : list obj → list obj) (s : State) : State :=
  {| activeWorkspaceId := activeWorkspaceId s;
     selectedMeetingId := selectedMeetingId s; tasks := tasks s;
     lastDone := lastDone s; extractions := f (extractions s);
     selectedExtractionId := selectedExtractionId s; items := items s;
     loadingExtractions := loadingExtractions s; loadingItems := loadingItems s;
     starting := starting s; reviewFilter := reviewFilter s;
     busyIds := busyIds s |}.

Definition setSelectedExtractionId (f : jsval → jsval) (s : State) : State :=
  {| activeWorkspaceId := activeWorkspaceId s;
     selectedMeetingId := selectedMeetingId s; tasks := tasks s;
     lastDone := lastDone s; extractions := extractions s;
     selectedExtractionId := f (selectedExtractionId s); items := items s;
     loadingExtractions := loadingExtractions s; loadingItems := loadingItems s;
     starting := starting s; reviewFilter := reviewFilter s;
     busyIds := busyIds s |}.

Definition setItems (f : list obj → list obj) (s : State) : State :=
  {| activeWorkspaceId := activeWorkspaceId s;
     selectedMeetingId := selectedMeetingId s; tasks := tasks s;
     lastDone := lastDone s; extractions := extractions s;
     selectedExtractionId := selectedExtractionId s; items := f (items s);
     loadingExtractions := loadingExtractions s; loadingItems := loadingItems s;
     starting := starting s; reviewFilter := reviewFilter s;
     busyIds := busyIds s |}.

Definition setLoadingExtractions (f : bool → bool) (s : State) : State :=
  {| activeWorkspaceId := activeWorkspaceId s;
     selectedMeetingId := selectedMeetingId s; tasks := tasks s;
     lastDone := lastDone s; extractions := extractions s;
     selectedExtractionId := selectedExtractionId s; items := items s;
     loadingExtractions := f (loadingExtractions s);
     loadingItems := loadingItems s;
     starting := starting s; reviewFilter := reviewFilter s;
     busyIds := busyIds s |}.

Definition setLoadingItems (f : bool → bool) (s : State) : State :=
  {| activeWorkspaceId := activeWorkspaceId s;
     selectedMeetingId := selectedMeetingId s; tasks := tasks s;
     lastDone := lastDone s; extractions := extractions s;
     selectedExtractionId := selectedExtractionId s; items := items s;
     loadingExtractions := loadingExtractions s;
     loadingItems := f (loadingItems s);
     starting := starting s; reviewFilter := reviewFilter s;
     busyIds := busyIds s |}.

Definition setStarting (f : bool → bool) (s : State) : State :=
  {| activeWorkspaceId := activeWorkspaceId s;
     selectedMeetingId := selectedMeetingId s; tasks := tasks s;
     lastDone := lastDone s; extractions := extractions s;
     selectedExtractionId := selectedExtractionId s; items := items s;
     loadingExtractions := loadingExtractions s; loadingItems := loadingItems s;
     starting := f (starting s); reviewFilter := reviewFilter s;
     busyIds := busyIds s |}.

Definition setReviewFilter (f : ReviewFilter → ReviewFilter) (s : State) : State :=
  {| activeWorkspaceId := activeWorkspaceId s;
     selectedMeetingId := selectedMeetingId s; tasks := tasks s;
     lastDone := lastDone s; extractions := extractions s;
     selectedExtractionId := selectedExtractionId s; items := items s;
     loadingExtractions := loadingExtractions s; loadingItems := loadingItems s;
     starting := starting s; reviewFilter := f (reviewFilter s);
     busyIds := busyIds s |}.

Definition setBusyIds (f : gmap string bool → gmap string bool) (s : State) : State :=
  {| activeWorkspaceId := activeWorkspaceId s;
     selectedMeetingId := selectedMeetingId s; tasks := tasks s;
     lastDone := lastDone s; extractions := extractions s;
     selectedExtractionId := selectedExtractionId s; items := items s;
     loadingExtractions := loadingExtractions s; loadingItems := loadingItems s;
     starting := starting s; reviewFilter := reviewFilter s;
     busyIds := f (busyIds s) |}.

(** [const canUndo = !!lastDone] (App.tsx): an object is truthy, [null] is
    not. *)
Definition canUndo (s : State) : bool :=
  match lastDone s with Some _ => true | None => false end.

(** ** Requests of the API client (lib/api.ts)

    [request<T>] either resolves with the parsed body or throws an [Error]
    carrying a message.  The body is taken to have the container shape of
    [T] (a record, or an array of records); the values of the properties are
    whatever the server sent. *)

Inductive outcome (A : Type) : Type :=
  | Returned (a : A)
  | Thrown (e : string).
Arguments Returned {A} a.
Arguments Thrown {A} e.

(** Requests answered with one record. *)
Inductive obj_request : Type :=
  | startExtractionReq (meetingId : jsval) (model : string)
  | patchExtractedItem (itemId : jsval) (patch : obj)
  | createTask (payload : obj)
  | patchTask (taskId : jsval) (patch : obj).

(** Requests answered with an array of records. *)
Inductive list_request : Type :=
  | listExtractions (meetingId : jsval)
  | listExtractionItems (extractionId : jsval)
  | listTasks (workspaceId : jsval).

(** ** Asynchronous handlers

    An [async] function of a component is a tree of the effects it performs
    in order: state updates ([setX(...)]), awaited requests, [window.prompt],
    [console.warn].  A handler reads component state only through the
    variables captured by the render that created it, so it is a function of
    that render's [State] and needs no read effect; [Render] stands for the
    re-render after which code runs with the variables of the current
    state. *)

Inductive async (A : Type) : Type :=
  | Done (x : outcome A)
  | SetState (f : State → State) (k : async A)
  | AwaitObj (q : obj_request) (k : outcome obj → async A)
  | AwaitList (q : list_request) (k : outcome (list obj) → async A)
  | Prompt (message : string) (k : option string → async A)
  | ConsoleWarn (message err : string) (k : async A)
  | Render (k : State → async A).
Arguments Done {A} x.
Arguments SetState {A} f k.
Arguments AwaitObj {A} q k.
Arguments AwaitList {A} q k.
Arguments Prompt {A} message k.
Arguments ConsoleWarn {A} message err k.
Arguments Render {A} k.

(** Sequencing: the rest of the function body runs when the first part
    returns, and is skipped when it throws. *)
Fixpoint async_bind {A B} (f : A → async B) (m : async A) : async B :=
  match m with
  | Done (Returned a) => f a
  | Done (Thrown e) => Done (Thrown e)
  | SetState g k => SetState g (async_bind f k)
  | AwaitObj q k => AwaitObj q (λ r, async_bind f (k r))
  | AwaitList q k => AwaitList q (λ r, async_bind f (k r))
  | Prompt msg k => Prompt msg (λ r, async_bind f (k r))
  | ConsoleWarn msg e k => ConsoleWarn msg e (async_bind f k)
  | Render k => Render (λ s, async_bind f (k s))
  end.

#[export] Instance async_ret : MRet async := λ A a, Done (Returned a).
#[export] Instance async_mbind : MBind async := λ A B f m, async_bind f m.

Definition throw {A} (e : string) : async A := Done (Thrown e).

(** [try { body } catch (err) { handler(err) }] *)
Fixpoint try_catch {A} (body : async A) (handler : string → async A) : async A :=
  match body with
  | Done (Returned a) => Done (Returned a)
  | Done (Thrown e) => handler e
  | SetState g k => SetState g (try_catch k handler)
  | AwaitObj q k => AwaitObj q (λ r, try_catch (k r) handler)
  | AwaitList q k => AwaitList q (λ r, try_catch (k r) handler)
  | Prompt msg k => Prompt msg (λ r, try_catch (k r) handler)
  | ConsoleWarn msg e k => ConsoleWarn msg e (try_catch k handler)
  | Render k => Render (λ s, try_catch (k s) handler)
  end.

(** [try { body } finally { cleanup }]: the cleanup runs whether the body
    returns (also by an early [return]) or throws, and the body's outcome is
    then the outcome of the statement. *)
Fixpoint try_finally {A} (body : async A) (cleanup : async unit) : async A :=
  match body with
  | Done x => cleanup ;; Done x
  | SetState g k => SetState g (try_finally k cleanup)
  | AwaitObj q k => AwaitObj q (λ r, try_finally (k r) cleanup)
  | AwaitList q k => AwaitList q (λ r, try_finally (k r) cleanup)
  | Prompt msg k => Prompt msg (λ r, try_finally (k r) cleanup)
  | ConsoleWarn msg e k => ConsoleWarn msg e (try_finally k cleanup)
  | Render k => Render (λ s, try_finally (k s) cleanup)
  end.

(** A call that is not awaited ([refreshExtractions();] in an effect): its
    rejection reaches nobody. *)
Definition detached (m : async unit) : async unit :=
  try_catch m (λ _, mret tt).

Definition set (f : State → State) : async unit := SetState f (mret tt).
Definition await_obj (q : obj_request) : async obj := AwaitObj q Done.
Definition await_list (q : list_request) : async (list obj) := AwaitList q Done.
Definition window_prompt (message : string) : async (option string) :=
  Prompt message (λ r, mret r).
Definition console_warn (message err : string) : async unit :=
  ConsoleWarn message err (mret tt).

(** ** Running a handler

    The world outside the client: the backend, which answers each request
    from its own state, and the user answering [window.prompt] (the text, or
    [None] for Cancel). *)
Record World (W : Type) : Type := {
  fetch_obj : W → obj_request → W * outcome obj;
  fetch_list : W → list_request → W * outcome (list obj);
  ask : W → string → W * option string;
}.
Arguments fetch_obj {W} _ _ _.
Arguments fetch_list {W} _ _ _.
Arguments ask {W} _ _ _.

(** What an observer sees while a handler runs: each suspension of the
    handler, with the component state on screen at that moment, and each
    console message. *)
Inductive event : Type :=
  | EvObj (s : State) (q : obj_request) (r : outcome obj)
  | EvList (s : State) (q : list_request) (r : outcome (list obj))
  | EvPrompt (s : State) (message : string) (r : option string)
  | EvWarn (message err : string).

Record run_result (W A : Type) : Type := {
  final : State;
  world : W;
  trace : list event;
  result : outcome A;
}.
Arguments final {W A} _.
Arguments world {W A} _.
Arguments trace {W A} _.
Arguments result {W A} _.

Definition logged {W A} (ev : event) (r : run_result W A) : run_result W A :=
  {| final := final r; world := world r; trace := ev :: trace r;
     result := result r |}.

(** A handler run to completion, with nothing else running in between (the
    session is sequential).  React applies the updates a handler makes when
    the handler next yields: at an [await] every update made so far is on
    screen; [window.prompt] is synchronous, so while the dialog is open the
    screen still shows [shown], the state of the last commit, and the
    updates made since ([s]) are only queued. *)
Fixpoint run_shown {W A} (E : World W) (m : async A) (shown s : State) (w : W)
  : run_result W A :=
  match m with
  | Done x => {| final := s; world := w; trace := []; result := x |}
  | SetState f k => run_shown E k shown (f s) w
  | AwaitObj q k =>
      let '(w', r) := fetch_obj E w q in
      logged (EvObj s q r) (run_shown E (k r) s s w')
  | AwaitList q k =>
      let '(w', r) := fetch_list E w q in
      logged (EvList s q r) (run_shown E (k r) s s w')
  | Prompt msg k =>
      let '(w', r) := ask E w msg in
      logged (EvPrompt shown msg r) (run_shown E (k r) shown s w')
  | ConsoleWarn msg e k => logged (EvWarn msg e) (run_shown E k shown s w)
  | Render k => run_shown E (k s) s s w
  end.

(** A handler started from the state [s] on screen. *)
Definition run {W A} (E : World W) (m : async A) (s : State) (w : W)
  : run_result W A :=
  run_shown E m s s w.
Arguments run {W A} E m s w /.

(** ** ExtractedItemsPanel.tsx *)

(** [activeExtraction] (lines 46-49). *)
Definition activeExtraction (r : State) : option obj :=
  if negb (truthy (selectedExtractionId r)) then None
  else List.find (λ e, e.["id"] === selectedExtractionId r) (extractions r).

(** [refreshItems] (lines 51-63). *)
Definition refreshItems (extractionId : jsval) : async unit :=
  if negb (truthy extractionId) then
    set (setItems (const []))
  else
    set (setLoadingItems (const true)) ;;
    try_finally
      (its ← await_list (listExtractionItems extractionId);
       set (setItems (const (map normalizeItem its))))
      (set (setLoadingItems (const false))).

(** [refreshExtractions] (lines 65-94).  [exts.length > 0] with [exts[0]] is
    the match on the list. *)
Definition refreshExtractions (r : State) : async unit :=
  if negb (truthy (meetingId r)) then
    set (setExtractions (const [])) ;;
    set (setSelectedExtractionId (const JNull))
  else
    set (setLoadingExtractions (const true)) ;;
    try_finally
      (exts ← await_list (listExtractions (meetingId r));
       set (setExtractions (const exts)) ;;
       match negb (truthy (selectedExtractionId r)), exts with
       | true, e0 :: _ =>
           let id := e0.["id"] in
           set (setSelectedExtractionId (const id)) ;;
           refreshItems id
       | _, _ =>
           if truthy (selectedExtractionId r)
              && negb (existsb (λ e, e.["id"] === selectedExtractionId r) exts)
           then
             let id := match exts with e0 :: _ => e0.["id"] | [] => JNull end in
             set (setSelectedExtractionId (const id)) ;;
             (if truthy id then refreshItems id else mret tt)
           else mret tt
       end)
      (set (setLoadingExtractions (const false))).

(** [startExtraction] (lines 96-107). *)
Definition startExtraction (r : State) : async unit :=
  if negb (truthy (meetingId r)) then mret tt
  else
    set (setStarting (const true)) ;;
    try_finally
      (ext ← await_obj (startExtractionReq (meetingId r) "hf_structured");
       set (setSelectedExtractionId (const ext.["id"])) ;;
       refreshExtractions r ;;
       refreshItems ext.["id"])
      (set (setStarting (const false))).

(** [filteredItems] (lines 138-141). *)
Definition filter_name (f : ReviewFilter) : string :=
  match f with
  | pending => "pending"
  | approved => "approved"
  | rejected => "rejected"
  | all => "all"
  end.

Definition filteredItems (items : list obj) (reviewFilter : ReviewFilter)
  : list obj :=
  match reviewFilter with
  | all => items
  | _ =>
      List.filter
        (λ it, (it.["status"] ?? JStr "pending") === JStr (filter_name reviewFilter))
        items
  end.

(** [setBusy] (lines 143-144): [{ ...prev, [id]: v }]. *)
Definition setBusy (id : jsval) (v : bool) : async unit :=
  set (setBusyIds (λ prev, <[to_string id := v]> prev)).

(** [busy={!!busyIds[it.id]}] (line 330). *)
Definition busy (s : State) (id : jsval) : bool :=
  default false (busyIds s !! to_string id).

(** [refreshTasks] (App.tsx, lines 563-566). *)
Definition refreshTasks (workspaceId : jsval) : async unit :=
  ts ← await_list (listTasks workspaceId);
  set (setTasks (const ts)).

(** Object literals [{ k1: v1, k2: v2 }] are written [{[ k1 := v1; k2 := v2 ]}]
    below. *)

(** The [onTasksChanged] prop given to the panel (App.tsx):
    [activeWorkspaceId ? () => refreshTasks(activeWorkspaceId) : undefined],
    called as [await onTasksChanged?.()]. *)
Definition onTasksChanged (r : State) : async unit :=
  if truthy (activeWorkspaceId r) then refreshTasks (activeWorkspaceId r)
  else mret tt.

(** [items.map((p) => (p.id === id ? patched : p))] *)
Definition replace_by_id (id : jsval) (patched : obj) (prev : list obj)
  : list obj :=
  map (λ p, if p.["id"] === id then patched else p) prev.

Definition task_payload (r : State) (item : obj) : obj :=
  {[ "workspace_id" := workspaceId r; "title" := item.["title"];
     "details" := item.["details"] ?? JNull; "due_at" := JNull ]}.

Definition approve_patch : obj :=
  {[ "status" := JStr "approved"; "needs_review" := JBool false;
     "review_reasons" := JNull; "edit_reason" := JStr "human_approved" ]}.

(** [approveItem] (lines 146-178). *)
Definition approveItem (r : State) (item : obj) : async unit :=
  setBusy item.["id"] true ;;
  try_finally
    (let kind := item.["kind"] ?? item.["item_type"] in
     (if (kind === JStr "action_item") && truthy (workspaceId r) then
        try_catch
          (await_obj (createTask (task_payload r item)) ;;
           onTasksChanged r)
          (λ err, console_warn "createTask failed" err)
      else mret tt) ;;
     patchedRaw ← await_obj (patchExtractedItem item.["id"] approve_patch);
     let patched := normalizeItem patchedRaw in
     set (setItems (replace_by_id item.["id"] patched)))
    (setBusy item.["id"] false).

(** The value of [window.prompt(...) ?? null] as a JavaScript value. *)
Definition prompt_value (answer : option string) : jsval :=
  match answer with Some text => JStr text | None => JNull end.

Definition reject_patch (reason : jsval) : obj :=
  {[ "status" := JStr "rejected"; "needs_review" := JBool true;
     "review_reasons" :=
       if truthy reason then JArr [reason] else JArr [JStr "human_rejected"];
     "edit_reason" := reason ?? JStr "human_rejected" ]}.

(** [rejectItem] (lines 180-198). *)
Definition rejectItem (item : obj) : async unit :=
  setBusy item.["id"] true ;;
  try_finally
    (answer ← window_prompt "Optional: why are you rejecting this item?";
     let reason := prompt_value answer in
     patchedRaw ← await_obj (patchExtractedItem item.["id"] (reject_patch reason));
     let patched := normalizeItem patchedRaw in
     set (setItems (replace_by_id item.["id"] patched)))
    (setBusy item.["id"] false).

(** [editItem] (lines 200-216). *)
Definition editItem (itemId : jsval) (payload : obj) : async unit :=
  setBusy itemId true ;;
  try_finally
    (patchedRaw ← await_obj
       (patchExtractedItem itemId
          (<["edit_reason" := payload.["edit_reason"] ?? JStr "human_edit"]> payload));
     let patched := normalizeItem patchedRaw in
     set (setItems (replace_by_id itemId patched)))
    (setBusy itemId false).

(** ** App.tsx *)


(** [handleMarkDone] (lines 568-576). *)
Definition handleMarkDone (r : State) (taskId : jsval) : async unit :=
  match List.find (λ t, t.["id"] === taskId) (tasks r) with
  | None => mret tt
  | Some current =>
      set (setLastDone
             (const (Some {| taskId := taskId; prevStatus := current.["status"] |}))) ;;
      updated ← await_obj (patchTask taskId {[ "status" := JStr "done" ]});
      set (setTasks (replace_by_id taskId updated))
  end.

(** [handleUndo] (lines 578-585). *)
Definition handleUndo (r : State) : async unit :=
  match lastDone r with
  | None => mret tt
  | Some ld =>
      updated ← await_obj
        (patchTask (taskId ld) {[ "status" := prevStatus ld ]});
      set (setTasks (replace_by_id (taskId ld) updated)) ;;
      set (setLastDone (const None))
  end.

(** ** Effects

    [Object.is], by which React compares the dependencies of an effect from
    one render to the next.  On the values of this model it agrees with
    [===]. *)
Definition object_is (a b : jsval) : bool := a === b.

(** The two data effects of the panel (lines 109-115), as run by the commit
    of render [cur] that follows render [prev]: an effect runs when one of
    its dependencies changed, with the variables of [cur].  The calls are not
    awaited. *)
Definition effects (prev cur : State) : async unit :=
  (if object_is (meetingId prev) (meetingId cur) then mret tt
   else detached (refreshExtractions cur)) ;;
  (if object_is (selectedExtractionId prev) (selectedExtractionId cur) then mret tt
   else detached (refreshItems (selectedExtractionId cur))).

(** The commits that follow a state update made in render [prev], each
    running the effects that the one before it triggered. *)
Fixpoint settle (commits : nat) (prev : State) : async unit :=
  match commits with
  | O => mret tt
  | S n => Render (λ cur, effects prev cur ;; settle n cur)
  end.

(** Choosing a meeting in the sidebar (App.tsx):
    [onSelectMeeting={(id) => setSelectedMeetingId(id)}], then the commits it
    causes, followed for [commits] renders.  The first commit runs the effects
    of the new [meetingId], the second those of the selection the first one
    made; no effect is left to run after that. *)
Definition selectMeeting (commits : nat) (id : jsval) : async unit :=
  Render (λ r, set (setSelectedMeetingId (const id)) ;; settle commits r).

(** ** The polling effect (ExtractedItemsPanel.tsx, lines 117-136) *)

(** An interval timer of the window: its period in milliseconds and the
    render whose variables its callback captured. *)
Record Timer := { period : Z; captured : State }.

(** The callback of the polling timer (lines 125-128). *)
Definition poll_tick (r : State) : async unit :=
  refreshExtractions r ;;
  refreshItems (selectedExtractionId r).

(** What a timer does each time it fires. *)
Definition callback (t : Timer) : async unit := poll_tick (captured t).

(** What the polling effect owns: [pollRef.current], the live interval
    timers of the window by handle, the next handle ([setInterval] returns a
    positive integer never returned before), the dependencies of the last
    run of the effect, and whether that run returned a cleanup function. *)
Record Poll := {
  pollRef : option positive;
  timers : gmap positive Timer;
  next_handle : positive;
  last_deps : option (jsval * jsval);
  has_cleanup : bool;
}.

Definition unmounted : Poll :=
  {| pollRef := None; timers := ∅; next_handle := 1%positive;
     last_deps := None; has_cleanup := false |}.

(** [if (pollRef.current) { window.clearInterval(pollRef.current);
    pollRef.current = null; }], at the head of the effect and as its
    cleanup. *)
Definition clear_poll (p : Poll) : Poll :=
  match pollRef p with
  | Some h =>
      {| pollRef := None; timers := delete h (timers p);
         next_handle := next_handle p; last_deps := last_deps p;
         has_cleanup := has_cleanup p |}
  | None => p
  end.

(** The body of the effect in render [r]. *)
Definition poll_effect (r : State) (p : Poll) : Poll :=
  let p := clear_poll p in
  let idle :=
    {| pollRef := pollRef p; timers := timers p; next_handle := next_handle p;
       last_deps := last_deps p; has_cleanup := false |} in
  match activeExtraction r with
  | None => idle
  | Some e =>
      if negb (e.["status"] === JStr "processing") then idle
      else
        let h := next_handle p in
        {| pollRef := Some h;
           timers := <[h := {| period := 1500; captured := r |}]> (timers p);
           next_handle := (h + 1)%positive;
           last_deps := last_deps p; has_cleanup := true |}
  end.

(** [[activeExtraction?.status, selectedExtractionId]] *)
Definition poll_deps (r : State) : jsval * jsval :=
  (match activeExtraction r with Some e => e.["status"] | None => JUndefined end,
   selectedExtractionId r).

Definition same_deps (a b : jsval * jsval) : bool :=
  object_is a.1 b.1 && object_is a.2 b.2.

Definition with_deps (d : jsval * jsval) (p : Poll) : Poll :=
  {| pollRef := pollRef p; timers := timers p; next_handle := next_handle p;
     last_deps := Some d; has_cleanup := has_cleanup p |}.

(** The commit of render [r]: on mount, and whenever a dependency changed,
    the cleanup of the previous run (if it returned one) and then the
    effect. *)
Definition poll_commit (r : State) (p : Poll) : Poll :=
  let rerun :=
    match last_deps p with
    | None => true
    | Some d => negb (same_deps d (poll_deps r))
    end in
  if rerun then
    with_deps (poll_deps r)
      (poll_effect r (if has_cleanup p then clear_poll p else p))
  else p.

(** Unmounting the panel runs the cleanup. *)
Definition poll_unmount (p : Poll) : Poll :=
  if has_cleanup p then clear_poll p else p.

(** The states of the effect of a mounted panel: the first commit, then any
    number of further commits. *)
Inductive mounted : Poll → Prop :=
  | mounted_first r : mounted (poll_commit r unmounted)
  | mounted_next r p : mounted p → mounted (poll_commit r p).

(** A timer can fire only while the window holds it. *)
Definition can_tick (p : Poll) (h : positive) : Prop := is_Some (timers p !! h).

(** The selected run is being processed: what the effect tests. *)
Definition processing (r : State) : Prop :=
  ∃ e, activeExtraction r = Some e ∧ e.["status"] = JStr "processing".

(** ** A scripted world

    A world that answers from three queues, in order; a request with no
    answer left fails the way [request] does on a 500 response. *)
Record Script := {
  obj_answers : list (outcome obj);
  list_answers : list (outcome (list obj));
  prompt_answers : list (option string);
}.

Definition scripted : World Script := {|
  fetch_obj w _ :=
    match obj_answers w with
    | a :: rest =>
        ({| obj_answers := rest; list_answers := list_answers w;
            prompt_answers := prompt_answers w |}, a)
    | [] => (w, Thrown "Request failed: 500")
    end;
  fetch_list w _ :=
    match list_answers w with
    | a :: rest =>
        ({| obj_answers := obj_answers w; list_answers := rest;
            prompt_answers := prompt_answers w |}, a)
    | [] => (w, Thrown "Request failed: 500")
    end;
  ask w _ :=
    match prompt_answers w with
    | a :: rest =>
        ({| obj_answers := obj_answers w; list_answers := list_answers w;
            prompt_answers := rest |}, a)
    | [] => (w, None)
    end;
|}.

(** ** Review statuses *)

(** The three values of [ExtractedItemStatus] (lib/types.ts). *)
Definition review_status (v : jsval) : Prop :=
  v = JStr "pending" ∨ v = JStr "approved" ∨ v = JStr "rejected".

(** An item as the panel holds it: [items] only ever receives results of
    [normalizeItem]. *)
Definition normalized (it : obj) : Prop := ∃ raw, it = normalizeItem raw.

(** ** User actions

    The mutating actions the views offer: the three buttons of an item card
    ([onApprove={() => approveItem(it)}], [onReject={() => rejectItem(it)}],
    [onEdit={(payload) => editItem(it.id, payload)}], lines 331-333) and the
    two of the task list ([onMarkDone={handleMarkDone}],
    [onUndo={handleUndo}]). *)
Inductive mutation : Type :=
  | Approve (item : obj)
  | Reject (item : obj)
  | Edit (itemId : jsval) (payload : obj)
  | MarkDone (taskId : jsval)
  | Undo.

(** The handler an action calls, created by render [r]. *)
Definition perform (r : State) (m : mutation) : async unit :=
  match m with
  | Approve item => approveItem r item
  | Reject item => rejectItem item
  | Edit itemId payload => editItem itemId payload
  | MarkDone taskId => handleMarkDone r taskId
  | Undo => handleUndo r
  end.

(** The item an action works on, for the three item actions. *)
Definition target (m : mutation) : option jsval :=
  match m with
  | Approve item | Reject item => Some item.["id"]
  | Edit itemId _ => Some itemId
  | MarkDone _ | Undo => None
  end.

(** The component states on screen while a handler was suspended. *)
Definition event_state (ev : event) : option State :=
  match ev with
  | EvObj s _ _ | EvList s _ _ | EvPrompt s _ _ => Some s
  | EvWarn _ _ => None
  end.

Definition suspended (tr : list event) : list State := omap event_state tr.

(** A handler that opens no prompt: what it shows does not depend on what
    was on screen when it started. *)
Fixpoint silent {A} (m : async A) : Prop :=
  match m with
  | Done _ => True
  | SetState _ k => silent k
  | AwaitObj _ k => ∀ r, silent (k r)
  | AwaitList _ k => ∀ r, silent (k r)
  | Prompt _ _ => False
  | ConsoleWarn _ _ k => silent k
  | Render k => ∀ s, silent (k s)
  end.

(** The states on screen during the network round trips of a handler, and
    those on screen while one of its prompts was open. *)
Definition request_state (ev : event) : option State :=
  match ev with
  | EvObj s _ _ | EvList s _ _ => Some s
  | EvPrompt _ _ _ | EvWarn _ _ => None
  end.

Definition awaited (tr : list event) : list State := omap request_state tr.

Definition prompt_state (ev : event) : option State :=
  match ev with
  | EvPrompt s _ _ => Some s
  | EvObj _ _ _ | EvList _ _ _ | EvWarn _ _ => None
  end.

Definition prompted (tr : list event) : list State := omap prompt_state tr.

(** The events of an approval between the task creation and the item patch:
    the refresh of the task list, or the warning. *)
Definition refresh_or_warning (ev : event) : Prop :=
  match ev with
  | EvList _ (listTasks _) _ | EvWarn _ _ => True
  | _ => False
  end.

(** ** A sample session *)

Definition sample_item : obj :=
  normalizeItem
    {[ "id" := JNum 11; "extraction_id" := JNum 3;
       "kind" := JStr "action_item"; "title" := JStr "Send the minutes";
       "details" := JStr "To all attendees" ]}.

Definition sample_note : obj :=
  normalizeItem
    {[ "id" := JNum 12; "extraction_id" := JNum 3;
       "item_type" := JStr "decision"; "title" := JStr "Ship on Friday";
       "status" := JStr "approved" ]}.

Definition sample_task : obj :=
  {[ "id" := JNum 7; "workspace_id" := JNum 1; "title" := JStr "Book a room";
     "status" := JStr "in_progress" ]}.

Definition sample_run (id : Z) (status : string) : obj :=
  {[ "id" := JNum id; "meeting_id" := JNum 5; "status" := JStr status;
     "model" := JStr "hf_structured" ]}.

Definition sample_state : State := {|
  activeWorkspaceId := JNum 1; selectedMeetingId := JNum 5;
  tasks := [sample_task]; lastDone := None;
  extractions := [sample_run 3 "complete"]; selectedExtractionId := JNum 3;
  items := [sample_item; sample_note];
  loadingExtractions := false; loadingItems := false; starting := false;
  reviewFilter := pending; busyIds := ∅ |}.

Definition answers (objs : list (outcome obj)) (lists : list (outcome (list obj)))
    (prompts : list (option string)) : Script :=
  {| obj_answers := objs; list_answers := lists; prompt_answers := prompts |}.

(** A value of type [number | null], the type of the identifier cells
    ([selectedMeetingId], [selectedExtractionId], [activeWorkspaceId]). *)
Definition is_id (v : jsval) : Prop := v = JNull ∨ ∃ n, v = JNum n.

(** Further commits of a mounted panel. *)
Inductive later : Poll → Poll → Prop :=
  | later_now p : later p p
  | later_commit r p p' : later p p' → later p (poll_commit r p').

(** What every state of the effect of a mounted panel satisfies: the window
    holds at most the timer that [pollRef] names, which the effect created
    with a period of 1500 ms in a render whose selected run was being
    processed; it holds one exactly when the status among the dependencies
    of the last run is ['processing']; handles are handed out in
    increasing order. *)
Record poll_inv (p : Poll) : Prop := {
  inv_timers :
    match pollRef p with
    | None => timers p = ∅
    | Some h =>
        ∃ r0, timers p = {[ h := {| period := 1500; captured := r0 |} ]}
              ∧ processing r0
              ∧ last_deps p = Some (poll_deps r0)
    end;
  inv_deps :
    ∃ d, last_deps p = Some d
         ∧ (d.1 = JStr "processing" ↔ is_Some (pollRef p));
  inv_cleanup : has_cleanup p = true ↔ is_Some (pollRef p);
  inv_handles : ∀ h, can_tick p h → (h < next_handle p)%positive;
}.

(** The sample session before any run is listed, and while run 4 is being
    processed. *)
Definition sample_fresh : State :=
  setItems (const [])
    (setSelectedExtractionId (const JNull)
       (setExtractions (const []) sample_state)).

Definition sample_polling : State :=
  setSelectedExtractionId (const (JNum 4))
    (setExtractions (const [sample_run 4 "processing"; sample_run 3 "complete"])
       sample_state).

(** ** Invariants of handlers

    [keeps P m]: every state update that the handler [m] can make, whatever
    the world answers, takes a state satisfying [P] to one satisfying [P]. *)
Inductive keeps (P : State → Prop) {A : Type} : async A → Prop :=
  | keeps_Done x : keeps P (Done x)
  | keeps_SetState f k :
      (∀ s, P s → P (f s)) → keeps P k → keeps P (SetState f k)
  | keeps_AwaitObj q k : (∀ r, keeps P (k r)) → keeps P (AwaitObj q k)
  | keeps_AwaitList q k : (∀ r, keeps P (k r)) → keeps P (AwaitList q k)
  | keeps_Prompt msg k : (∀ r, keeps P (k r)) → keeps P (Prompt msg k)
  | keeps_ConsoleWarn msg e k : keeps P k → keeps P (ConsoleWarn msg e k)
  | keeps_Render k : (∀ s, keeps P (k s)) → keeps P (Render k).

(** The items on screen are all results of [normalizeItem]. *)
Definition items_normalized (s : State) : Prop := Forall normalized (items s).

(** ** The filter buttons (ExtractedItemsPanel.tsx, lines 278-313)

    The number each button shows: [Pending (n)], [Approved (n)],
    [Rejected (n)], [All (n)]. *)
Definition button_count (f : ReviewFilter) (items : list obj) : nat :=
  match f with
  | pending =>
      length (List.filter
                (λ i, (i.["status"] ?? JStr "pending") === JStr "pending") items)
  | approved =>
      length (List.filter (λ i, i.["status"] === JStr "approved") items)
  | rejected =>
      length (List.filter (λ i, i.["status"] === JStr "rejected") items)
  | all => length items
  end.

(** The status a card shows: [{item.status ?? "pending"}] (ItemCard.tsx). *)
Definition shown_status (it : obj) : jsval := it.["status"] ?? JStr "pending".

(** [l] is [l0] with, at most, records of identifier [id] replaced: the same
    length, and every record of another identifier in its place. *)
Definition only_replaces (id : jsval) (l0 l : list obj) : Prop :=
  length l = length l0
  ∧ ∀ i p, l0 !! i = Some p → (p.["id"] === id) = false → l !! i = Some p.

(** ** Text

    A JavaScript string is taken as the sequence of its code units, here
    the characters of a [string].  The functions below are those of ASCII
    text ([ascii_text]), which is what they are given (e-mail addresses,
    file extensions): on other text [trim] and [toLowerCase] know more
    characters than these do. *)

Fixpoint ascii_text (s : string) : Prop :=
  match s with
  | String c s' => (Ascii.N_of_ascii c < 128)%N ∧ ascii_text s'
  | EmptyString => True
  end.

(** White space and line terminators, as [trim] removes them: tab, line
    feed, vertical tab, form feed, carriage return, space. *)
Definition is_space (c : Ascii.ascii) : bool :=
  let n := Ascii.N_of_ascii c in
  ((9 <=? n) && (n <=? 13))%N || (n =? 32)%N.

(** [s.trimStart()], [s.trimEnd()], [s.trim()] *)
Fixpoint trim_start (s : string) : string :=
  match s with
  | String c s' => if is_space c then trim_start s' else s
  | EmptyString => EmptyString
  end.

Fixpoint trim_end (s : string) : string :=
  match s with
  | String c s' =>
      match trim_end s' with
      | EmptyString => if is_space c then EmptyString else String c EmptyString
      | t => String c t
      end
  | EmptyString => EmptyString
  end.

Definition trim (s : string) : string := trim_end (trim_start s).

(** [s.toLowerCase()]: the letters [A] to [Z] become [a] to [z]. *)
Definition lower_char (c : Ascii.ascii) : Ascii.ascii :=
  let n := Ascii.N_of_ascii c in
  if ((65 <=? n) && (n <=? 90))%N then Ascii.ascii_of_N (n + 32) else c.

Fixpoint toLowerCase (s : string) : string :=
  match s with
  | String c s' => String (lower_char c) (toLowerCase s')
  | EmptyString => EmptyString
  end.

(** ** [parseEmails] (InvitesModal.tsx, lines 212-222) *)

(** The characters of the class [[\n, ]]. *)
Definition is_separator (c : Ascii.ascii) : bool :=
  let n := Ascii.N_of_ascii c in
  (n =? 10)%N || (n =? 44)%N || (n =? 32)%N.

(** [raw.split(/[\n, ]+/g)]: the pieces between the runs of separators.  A
    run at the start gives an empty first piece, one at the end an empty last
    piece, and the empty string gives one empty piece.  [piece] is the piece
    being read and [in_run] tells that the last character was a separator. *)
Fixpoint split_go (s : string) (piece : string) (in_run : bool) : list string :=
  match s with
  | EmptyString => [piece]
  | String c s' =>
      if is_separator c then
        if in_run then split_go s' EmptyString true
        else piece :: split_go s' EmptyString true
      else split_go s' (piece +:+ String c EmptyString) false
  end.

Definition split_separators (raw : string) : list string :=
  split_go raw EmptyString false.

(** [Array.from(new Set(l))]: the first occurrence of each value, in
    order. *)
Fixpoint set_order (seen l : list string) : list string :=
  match l with
  | [] => []
  | x :: l' =>
      if bool_decide (x ∈ seen) then set_order seen l'
      else x :: set_order (x :: seen) l'
  end.

Definition parseEmails (raw : string) : list string :=
  set_order []
    (map toLowerCase
       (List.filter (λ s, negb (String.eqb s ""))
          (map trim (split_separators raw)))).

(** ** The title of an uploaded meeting (App.tsx, lines 590-591) *)

(** The four characters [.txt], in any case: what [/\.txt$/i] matches at the
    end of a name. *)
Definition is_dot_txt (s : string) : bool :=
  String.eqb (toLowerCase s) ".txt".

(** [name.replace(/\.txt$/i, "")] *)
Fixpoint strip_txt (name : string) : string :=
  match name with
  | EmptyString => EmptyString
  | String c rest =>
      if is_dot_txt name then EmptyString else String c (strip_txt rest)
  end.

(** [const title = base.length > 0 ? base : "New Meeting"] *)
Definition meeting_title (name : string) : string :=
  let base := strip_txt name in
  if (0 <? String.length base)%nat then base else "New Meeting".

(** Every character of [s] satisfies [P]. *)
Fixpoint string_all (P : Ascii.ascii → bool) (s : string) : bool :=
  match s with
  | String c s' => P c && string_all P s'
  | EmptyString => true
  end.

(** What an entry of a parsed list looks like: not empty, free of
    separators, trimmed, in lower case. *)
Definition address_like (e : string) : Prop :=
  e ≠ ""
  ∧ string_all (λ c, negb (is_separator c)) e = true
  ∧ trim e = e
  ∧ toLowerCase e = e.

(** ** [request] (lib/api.ts, lines 15-37)

    What [fetch] resolved with: [res.ok], [res.status] and the text of the
    body. *)
Record Response := { ok : bool; status : Z; body : string }.

(** [data?.detail]: the property of an object; [undefined] for [null] and
    for a value without that property. *)
Definition optional_detail (data : jsval) : jsval :=
  match data with
  | JObj o => o.["detail"]
  | _ => JUndefined
  end.

(** The message of the error thrown for a response that is not [ok], after
    the prefix of the caller: the [detail] of the body when the body is JSON
    with a truthy [detail], the status otherwise.  [new Error(msg)] turns
    the message into a string. *)
Definition failure_message (parse : string → outcome jsval) (prefix : string)
    (res : Response) : string :=
  let msg := JStr (prefix +:+ to_string (JNum (status res))) in
  let msg :=
    match parse (body res) with
    | Returned data =>
        if truthy (optional_detail data) then optional_detail data else msg
    | Thrown _ => msg
    end in
  to_string msg.

(** [request<T>(path, options)], given what [fetch] did; [parse] is
    [JSON.parse], which returns the value or throws a [SyntaxError]. *)
Definition request (parse : string → outcome jsval)
    (fetched : outcome Response) : outcome jsval :=
  match fetched with
  | Thrown e => Thrown e
  | Returned res =>
      if negb (ok res) then Thrown (failure_message parse "Request failed: " res)
      else
        let text := body res in
        if negb (String.eqb text "") then parse text else Returned (JObj ∅)
  end.

(** The same for [api.uploadTranscript] (lines 127-149), which reads the
    body of an [ok] response with [res.json()]. *)
Definition upload_response (parse : string → outcome jsval)
    (fetched : outcome Response) : outcome jsval :=
  match fetched with
  | Thrown e => Thrown e
  | Returned res =>
      if negb (ok res) then Thrown (failure_message parse "Upload failed: " res)
      else parse (body res)
  end.

(** ** Handlers of the pages and of the shell

    The handlers of [LoginPage], [App], [Header] and [Sidebar] that call
    the API client, over the state of their own component. *)

(** An error object, by its [name] and [message]. *)
Record JsError := { err_name : string; err_message : string }.

(** [String(err)]: ['Error: message'], or the name alone when the message is
    empty. *)
Definition error_string (e : JsError) : string :=
  if String.eqb (err_name e) "" then err_message e
  else if String.eqb (err_message e) "" then err_name e
  else err_name e +:+ ": " +:+ err_message e.

(** How a promise settles. *)
Inductive settled (A : Type) : Type :=
  | Resolved (a : A)
  | Rejected (e : JsError).
Arguments Resolved {A} a.
Arguments Rejected {A} e.

(** The calls of [api] (lib/api.ts) that these handlers make: answered with
    a record, with an array of records, or with nothing. *)
Inductive call_obj : Type :=
  | call_me
  | call_signup (email password : string)
  | call_login (email password : string)
  | call_createWorkspace (name : string)
  | call_updateWorkspaceMember (workspaceId memberId display_name : jsval)
  | call_createMeeting (payload : obj)
  | call_uploadTranscript (meetingId : jsval) (file_name : string)
  | call_createInvite (workspace_id : jsval) (email : string).

Inductive call_list : Type :=
  | call_listWorkspaces
  | call_listWorkspaceMembers (workspaceId : jsval)
  | call_listMeetings (workspaceId : jsval)
  | call_listTasks (workspaceId : jsval)
  | call_listPendingInvites.

Inductive call_void : Type :=
  | call_logout
  | call_acceptInvite (inviteId : jsval)
  | call_declineInvite (inviteId : jsval).

(** An argument of [console.warn]. *)
Inductive warn_arg : Type :=
  | WText (s : string)
  | WError (e : JsError).

(** An [async] function over the state [S] of its component: state updates,
    awaited calls, [window.prompt] with its default text, [console.warn]
    with its arguments. *)
Inductive task (S A : Type) : Type :=
  | TDone (x : settled A)
  | TSet (f : S → S) (k : task S A)
  | TObj (q : call_obj) (k : settled obj → task S A)
  | TList (q : call_list) (k : settled (list obj) → task S A)
  | TVoid (q : call_void) (k : settled unit → task S A)
  | TPrompt (message default : string) (k : option string → task S A)
  | TWarn (args : list warn_arg) (k : task S A).
Arguments TDone {S A} x.
Arguments TSet {S A} f k.
Arguments TObj {S A} q k.
Arguments TList {S A} q k.
Arguments TVoid {S A} q k.
Arguments TPrompt {S A} message default k.
Arguments TWarn {S A} args k.

Fixpoint task_bind {S A B} (f : A → task S B) (m : task S A) : task S B :=
  match m with
  | TDone (Resolved a) => f a
  | TDone (Rejected e) => TDone (Rejected e)
  | TSet g k => TSet g (task_bind f k)
  | TObj q k => TObj q (λ r, task_bind f (k r))
  | TList q k => TList q (λ r, task_bind f (k r))
  | TVoid q k => TVoid q (λ r, task_bind f (k r))
  | TPrompt msg d k => TPrompt msg d (λ r, task_bind f (k r))
  | TWarn args k => TWarn args (task_bind f k)
  end.

#[export] Instance task_ret {S} : MRet (task S) := λ A a, TDone (Resolved a).
#[export] Instance task_mbind {S} : MBind (task S) :=
  λ A B f m, task_bind f m.

(** [try { body } catch (err) { handler(err) }] *)
Fixpoint task_catch {S A} (body : task S A) (handler : JsError → task S A)
  : task S A :=
  match body with
  | TDone (Resolved a) => TDone (Resolved a)
  | TDone (Rejected e) => handler e
  | TSet g k => TSet g (task_catch k handler)
  | TObj q k => TObj q (λ r, task_catch (k r) handler)
  | TList q k => TList q (λ r, task_catch (k r) handler)
  | TVoid q k => TVoid q (λ r, task_catch (k r) handler)
  | TPrompt msg d k => TPrompt msg d (λ r, task_catch (k r) handler)
  | TWarn args k => TWarn args (task_catch k handler)
  end.

(** [try { body } finally { cleanup }] *)
Fixpoint task_finally {S A} (body : task S A) (cleanup : task S unit)
  : task S A :=
  match body with
  | TDone x => cleanup ;; TDone x
  | TSet g k => TSet g (task_finally k cleanup)
  | TObj q k => TObj q (λ r, task_finally (k r) cleanup)
  | TList q k => TList q (λ r, task_finally (k r) cleanup)
  | TVoid q k => TVoid q (λ r, task_finally (k r) cleanup)
  | TPrompt msg d k => TPrompt msg d (λ r, task_finally (k r) cleanup)
  | TWarn args k => TWarn args (task_finally k cleanup)
  end.

Definition update {S} (f : S → S) : task S unit := TSet f (mret tt).
Definition await_call_obj {S} (q : call_obj) : task S obj := TObj q TDone.
Definition await_call_list {S} (q : call_list) : task S (list obj) :=
  TList q TDone.
Definition await_call_void {S} (q : call_void) : task S unit := TVoid q TDone.
Definition prompt_with {S} (message default : string) : task S (option string) :=
  TPrompt message default (λ r, mret r).
Definition warn {S} (args : list warn_arg) : task S unit := TWarn args (mret tt).

(** A call that is not awaited: its rejection reaches nobody. *)
Definition floating {S} (m : task S unit) : task S unit :=
  task_catch m (λ _, mret tt).

(** The backend and the user, for these calls. *)
Record Backend (W : Type) : Type := {
  answer_obj : W → call_obj → W * settled obj;
  answer_list : W → call_list → W * settled (list obj);
  answer_void : W → call_void → W * settled unit;
  answer_prompt : W → string → string → W * option string;
}.
Arguments answer_obj {W} _ _ _.
Arguments answer_list {W} _ _ _.
Arguments answer_void {W} _ _ _.
Arguments answer_prompt {W} _ _ _ _.

(** What is seen while a task runs: each suspension with the state of the
    component at that moment, and each console message. *)
Inductive step_seen (S : Type) : Type :=
  | SeenObj (s : S) (q : call_obj) (r : settled obj)
  | SeenList (s : S) (q : call_list) (r : settled (list obj))
  | SeenVoid (s : S) (q : call_void) (r : settled unit)
  | SeenPrompt (s : S) (message default : string) (r : option string)
  | SeenWarn (args : list warn_arg).
Arguments SeenObj {S} s q r.
Arguments SeenList {S} s q r.
Arguments SeenVoid {S} s q r.
Arguments SeenPrompt {S} s message default r.
Arguments SeenWarn {S} args.

Record performed (S W A : Type) : Type := {
  state_after : S;
  world_after : W;
  seen : list (step_seen S);
  settlement : settled A;
}.
Arguments state_after {S W A} _.
Arguments world_after {S W A} _.
Arguments seen {S W A} _.
Arguments settlement {S W A} _.

Definition also_seen {S W A} (ev : step_seen S) (r : performed S W A)
  : performed S W A :=
  {| state_after := state_after r; world_after := world_after r;
     seen := ev :: seen r; settlement := settlement r |}.

(** A task run to its end, with nothing else running in between. *)
Fixpoint perform_task {S W A} (B : Backend W) (m : task S A) (s : S) (w : W)
  : performed S W A :=
  match m with
  | TDone x =>
      {| state_after := s; world_after := w; seen := []; settlement := x |}
  | TSet f k => perform_task B k (f s) w
  | TObj q k =>
      let '(w', r) := answer_obj B w q in
      also_seen (SeenObj s q r) (perform_task B (k r) s w')
  | TList q k =>
      let '(w', r) := answer_list B w q in
      also_seen (SeenList s q r) (perform_task B (k r) s w')
  | TVoid q k =>
      let '(w', r) := answer_void B w q in
      also_seen (SeenVoid s q r) (perform_task B (k r) s w')
  | TPrompt msg d k =>
      let '(w', r) := answer_prompt B w msg d in
      also_seen (SeenPrompt s msg d r) (perform_task B (k r) s w')
  | TWarn args k => also_seen (SeenWarn args) (perform_task B k s w)
  end.

(** The states of the suspensions, and the calls made, in order. *)
Definition seen_state {S} (ev : step_seen S) : option S :=
  match ev with
  | SeenObj s _ _ | SeenList s _ _ | SeenVoid s _ _ | SeenPrompt s _ _ _ => Some s
  | SeenWarn _ => None
  end.

Definition is_call {S} (ev : step_seen S) : bool :=
  match ev with
  | SeenObj _ _ _ | SeenList _ _ _ | SeenVoid _ _ _ => true
  | _ => false
  end.

(** *** The login page (pages/LoginPage.tsx) *)
Module LoginPage.

Inductive Mode := login | signup.

Record State := {
  open : bool;
  mode : Mode;
  email : string;
  password : string;
  confirm : string;
  loading : bool;
  error : option string;
  (* the router *)
  location : string;
}.

Definition initial : State := {|
  open := false; mode := login; email := ""; password := ""; confirm := "";
  loading := false; error := None; location := "/login" |}.

Definition setLoading (v : bool) (s : State) : State :=
  {| open := open s; mode := mode s; email := email s;
     password := password s; confirm := confirm s;
     loading := v; error := error s; location := location s |}.

Definition setError (v : option string) (s : State) : State :=
  {| open := open s; mode := mode s; email := email s;
     password := password s; confirm := confirm s;
     loading := loading s; error := v; location := location s |}.

Definition navigate (to : string) (s : State) : State :=
  {| open := open s; mode := mode s; email := email s;
     password := password s; confirm := confirm s;
     loading := loading s; error := error s; location := to |}.

(** [submit] (lines 50-75), as rendered with the state [r]. *)
Definition submit (r : State) : task State unit :=
  update (setError None) ;;
  let e := toLowerCase (trim (email r)) in
  if String.eqb e "" then update (setError (Some "Email is required."))
  else if String.eqb (password r) "" then
    update (setError (Some "Password is required."))
  else if match mode r with
          | signup => negb (String.eqb (password r) (confirm r))
          | login => false
          end
  then update (setError (Some "Passwords do not match."))
  else
    update (setLoading true) ;;
    task_finally
      (task_catch
         (match mode r with
          | login => await_call_obj (call_login e (password r)) ;; mret tt
          | signup => await_call_obj (call_signup e (password r)) ;; mret tt
          end ;;
          update (navigate "/app"))
         (λ err, update (setError (Some (error_string err)))))
      (update (setLoading false)).

End LoginPage.

(** *** The shell (App.tsx) with its sidebar and dialog

    The state of [App] that the panel does not read, and that of the
    sidebar and of the invitations dialog, added to [State]. *)
Record Shell := {
  core : State;
  (* App *)
  user : jsval;
  workspaces : list obj;
  members : list obj;
  meetings : list obj;
  invites : list obj;
  (* the router, and localStorage's ts_active_workspace_id *)
  location : string;
  stored_workspace : option string;
  (* Sidebar *)
  uploading : bool;
  (* InvitesModal *)
  showCreate : bool;
  name : string;
  emailsRaw : string;
  creating : bool;
  err : option string;
}.

Definition in_core (f : State → State) (s : Shell) : Shell :=
  {| core := f (core s); user := user s; workspaces := workspaces s;
     members := members s; meetings := meetings s; invites := invites s;
     location := location s; stored_workspace := stored_workspace s;
     uploading := uploading s; showCreate := showCreate s; name := name s;
     emailsRaw := emailsRaw s; creating := creating s; err := err s |}.

Definition setUser (v : jsval) (s : Shell) : Shell :=
  {| core := core s; user := v; workspaces := workspaces s;
     members := members s; meetings := meetings s; invites := invites s;
     location := location s; stored_workspace := stored_workspace s;
     uploading := uploading s; showCreate := showCreate s; name := name s;
     emailsRaw := emailsRaw s; creating := creating s; err := err s |}.

Definition setWorkspaces (v : list obj) (s : Shell) : Shell :=
  {| core := core s; user := user s; workspaces := v; members := members s;
     meetings := meetings s; invites := invites s; location := location s;
     stored_workspace := stored_workspace s; uploading := uploading s;
     showCreate := showCreate s; name := name s; emailsRaw := emailsRaw s;
     creating := creating s; err := err s |}.

Definition setMembers (v : list obj) (s : Shell) : Shell :=
  {| core := core s; user := user s; workspaces := workspaces s;
     members := v; meetings := meetings s; invites := invites s;
     location := location s; stored_workspace := stored_workspace s;
     uploading := uploading s; showCreate := showCreate s; name := name s;
     emailsRaw := emailsRaw s; creating := creating s; err := err s |}.

Definition setMeetings (v : list obj) (s : Shell) : Shell :=
  {| core := core s; user := user s; workspaces := workspaces s;
     members := members s; meetings := v; invites := invites s;
     location := location s; stored_workspace := stored_workspace s;
     uploading := uploading s; showCreate := showCreate s; name := name s;
     emailsRaw := emailsRaw s; creating := creating s; err := err s |}.

Definition setInvites (v : list obj) (s : Shell) : Shell :=
  {| core := core s; user := user s; workspaces := workspaces s;
     members := members s; meetings := meetings s; invites := v;
     location := location s; stored_workspace := stored_workspace s;
     uploading := uploading s; showCreate := showCreate s; name := name s;
     emailsRaw := emailsRaw s; creating := creating s; err := err s |}.

Definition navigate (to : string) (s : Shell) : Shell :=
  {| core := core s; user := user s; workspaces := workspaces s;
     members := members s; meetings := meetings s; invites := invites s;
     location := to; stored_workspace := stored_workspace s;
     uploading := uploading s; showCreate := showCreate s; name := name s;
     emailsRaw := emailsRaw s; creating := creating s; err := err s |}.

Definition localStorage_setItem (v : string) (s : Shell) : Shell :=
  {| core := core s; user := user s; workspaces := workspaces s;
     members := members s; meetings := meetings s; invites := invites s;
     location := location s; stored_workspace := Some v;
     uploading := uploading s; showCreate := showCreate s; name := name s;
     emailsRaw := emailsRaw s; creating := creating s; err := err s |}.

Definition setUploading (v : bool) (s : Shell) : Shell :=
  {| core := core s; user := user s; workspaces := workspaces s;
     members := members s; meetings := meetings s; invites := invites s;
     location := location s; stored_workspace := stored_workspace s;
     uploading := v; showCreate := showCreate s; name := name s;
     emailsRaw := emailsRaw s; creating := creating s; err := err s |}.

Definition setShowCreate (v : bool) (s : Shell) : Shell :=
  {| core := core s; user := user s; workspaces := workspaces s;
     members := members s; meetings := meetings s; invites := invites s;
     location := location s; stored_workspace := stored_workspace s;
     uploading := uploading s; showCreate := v; name := name s;
     emailsRaw := emailsRaw s; creating := creating s; err := err s |}.

Definition setName (v : string) (s : Shell) : Shell :=
  {| core := core s; user := user s; workspaces := workspaces s;
     members := members s; meetings := meetings s; invites := invites s;
     location := location s; stored_workspace := stored_workspace s;
     uploading := uploading s; showCreate := showCreate s; name := v;
     emailsRaw := emailsRaw s; creating := creating s; err := err s |}.

Definition setEmailsRaw (v : string) (s : Shell) : Shell :=
  {| core := core s; user := user s; workspaces := workspaces s;
     members := members s; meetings := meetings s; invites := invites s;
     location := location s; stored_workspace := stored_workspace s;
     uploading := uploading s; showCreate := showCreate s; name := name s;
     emailsRaw := v; creating := creating s; err := err s |}.

Definition setCreating (v : bool) (s : Shell) : Shell :=
  {| core := core s; user := user s; workspaces := workspaces s;
     members := members s; meetings := meetings s; invites := invites s;
     location := location s; stored_workspace := stored_workspace s;
     uploading := uploading s; showCreate := showCreate s; name := name s;
     emailsRaw := emailsRaw s; creating := v; err := err s |}.

Definition setErr (v : option string) (s : Shell) : Shell :=
  {| core := core s; user := user s; workspaces := workspaces s;
     members := members s; meetings := meetings s; invites := invites s;
     location := location s; stored_workspace := stored_workspace s;
     uploading := uploading s; showCreate := showCreate s; name := name s;
     emailsRaw := emailsRaw s; creating := creating s; err := v |}.

(** [refreshInvites] (App.tsx, lines 440-447) *)
Definition refreshInvites : task Shell unit :=
  task_catch
    (pending_invites ← await_call_list call_listPendingInvites;
     update (setInvites pending_invites))
    (λ _, update (setInvites [])).

(** [refreshWorkspaceMembers] (lines 449-456) *)
Definition refreshWorkspaceMembers (workspaceId : jsval) : task Shell unit :=
  task_catch
    (ms ← await_call_list (call_listWorkspaceMembers workspaceId);
     update (setMembers ms))
    (λ _, update (setMembers [])).

(** [handleAcceptInvite] (lines 458-466), as rendered with [r]. *)
Definition handleAcceptInvite (r : Shell) (id : jsval) : task Shell unit :=
  await_call_void (call_acceptInvite id) ;;
  refreshInvites ;;
  ws ← await_call_list call_listWorkspaces;
  update (setWorkspaces ws) ;;
  match ws with
  | w0 :: _ =>
      if negb (truthy (activeWorkspaceId (core r)))
      then update (in_core (setActiveWorkspaceId (const w0.["id"])))
      else mret tt
  | [] => mret tt
  end.

(** [handleDeclineInvite] (lines 468-471) *)
Definition handleDeclineInvite (id : jsval) : task Shell unit :=
  await_call_void (call_declineInvite id) ;;
  refreshInvites.

(** The loop of [handleCreateGroup] (lines 476-482). *)
Fixpoint invite_each (workspace_id : jsval) (emails : list string)
  : task Shell unit :=
  match emails with
  | [] => mret tt
  | email :: rest =>
      task_catch
        (await_call_obj (call_createInvite workspace_id email) ;; mret tt)
        (λ e, warn [WText "Invite failed for"; WText email; WError e]) ;;
      invite_each workspace_id rest
  end.

(** [handleCreateGroup] (lines 473-489) *)
Definition handleCreateGroup (groupName : string) (emails : list string)
  : task Shell unit :=
  ws ← await_call_obj (call_createWorkspace groupName);
  invite_each ws.["id"] emails ;;
  all_workspaces ← await_call_list call_listWorkspaces;
  update (setWorkspaces all_workspaces) ;;
  update (in_core (setActiveWorkspaceId (const ws.["id"]))) ;;
  refreshInvites.

(** [handleRenameMember] (lines 491-498), as rendered with [r]. *)
Definition handleRenameMember (r : Shell) (memberId displayName : jsval)
  : task Shell unit :=
  let activeWorkspaceId := activeWorkspaceId (core r) in
  if negb (truthy activeWorkspaceId) then mret tt
  else
    await_call_obj
      (call_updateWorkspaceMember activeWorkspaceId memberId displayName) ;;
    refreshWorkspaceMembers activeWorkspaceId.

(** The workspace chosen on the first load (lines 510-515), from
    [savedId], a number or [null], and the workspaces listed. *)
Definition initial_workspace (savedId : jsval) (ws : list obj) : jsval :=
  if truthy savedId && existsb (λ w, w.["id"] === savedId) ws then savedId
  else match ws with
       | w0 :: _ => w0.["id"]
       | [] => JNull
       end.

(** The effect on mount (lines 500-519); [Number] is the conversion of the
    stored text. *)
Definition mount_effect (Number : string → jsval) : task Shell unit :=
  me ← await_call_obj call_me;
  update (setUser (JObj me)) ;;
  refreshInvites ;;
  ws ← await_call_list call_listWorkspaces;
  update (setWorkspaces ws) ;;
  update (λ s,
    let savedId :=
      match stored_workspace s with
      | Some saved => if String.eqb saved "" then JNull else Number saved
      | None => JNull
      end in
    in_core (setActiveWorkspaceId (const (initial_workspace savedId ws))) s).

(** [Promise.all] of two listings: both are requested; when both fail the
    error kept here is the first one's. *)
Definition await_both {S} (q1 q2 : call_list)
  : task S (list obj * list obj) :=
  TList q1 (λ r1, TList q2 (λ r2,
    match r1, r2 with
    | Resolved a, Resolved b => TDone (Resolved (a, b))
    | Rejected e, _ => TDone (Rejected e)
    | _, Rejected e => TDone (Rejected e)
    end)).

(** The effect on [activeWorkspaceId] (lines 521-546), as rendered with
    [r]. *)
Definition workspace_effect (r : Shell) : task Shell unit :=
  let activeWorkspaceId := activeWorkspaceId (core r) in
  if negb (truthy activeWorkspaceId) then
    update (setMeetings []) ;;
    update (in_core (setTasks (const []))) ;;
    update (setMembers []) ;;
    update (in_core (setSelectedMeetingId (const JNull)))
  else
    update (localStorage_setItem (to_string activeWorkspaceId)) ;;
    floating
      ('(ms, ts) ← await_both (call_listMeetings activeWorkspaceId)
                              (call_listTasks activeWorkspaceId);
       update (setMeetings ms) ;;
       update (in_core (setTasks (const ts))) ;;
       refreshWorkspaceMembers activeWorkspaceId ;;
       match ms with
       | m0 :: _ => update (in_core (setSelectedMeetingId (const m0.["id"])))
       | [] => update (in_core (setSelectedMeetingId (const JNull)))
       end).

(** [handleLogout] (lines 553-561) *)
Definition handleLogout : task Shell unit :=
  task_catch (await_call_void call_logout) (λ _, mret tt) ;;
  update (setUser JNull) ;;
  update (navigate "/login").

(** [handleNewMeetingUpload] (lines 587-604), as rendered with [r], for a
    file of the given name. *)
Definition handleNewMeetingUpload (r : Shell) (file_name : string)
  : task Shell unit :=
  let activeWorkspaceId := activeWorkspaceId (core r) in
  if negb (truthy activeWorkspaceId) then mret tt
  else
    let title := meeting_title file_name in
    m ← await_call_obj
          (call_createMeeting
             {[ "workspace_id" := activeWorkspaceId;
                "title" := JStr title;
                "meeting_date" := JNull ]});
    await_call_obj (call_uploadTranscript m.["id"] file_name) ;;
    ms ← await_call_list (call_listMeetings activeWorkspaceId);
    update (setMeetings ms) ;;
    update (in_core (setSelectedMeetingId (const m.["id"]))).

(** *** The sidebar (Sidebar.tsx) *)
Module Sidebar.

(** [handleFile] (lines 118-129), for the file picked, if any. *)
Definition handleFile (onNewMeetingUpload : string → task Shell unit)
    (file : option string) : task Shell unit :=
  match file with
  | None => mret tt
  | Some f =>
      update (setUploading true) ;;
      task_finally (onNewMeetingUpload f) (update (setUploading false))
  end.

(** The Rename button of the member [m] (lines 286-297). *)
Definition rename_click (onRenameMember : jsval → jsval → task Shell unit)
    (m : obj) : task Shell unit :=
  next ← prompt_with
           ("Set a display name for " +:+ to_string m.["email"]
              +:+ " (leave blank to clear):")
           (to_string (m.["display_name"] ?? JStr ""));
  match next with
  | None => mret tt
  | Some next =>
      let cleaned := trim next in
      onRenameMember m.["id"]
        (if String.eqb cleaned "" then JNull else JStr cleaned)
  end.

End Sidebar.

(** *** The invitations dialog (InvitesModal.tsx) *)
Module InvitesModal.

(** [handleCreate] (lines 249-269), as rendered with [r]. *)
Definition handleCreate
    (onCreateGroup : string → list string → task Shell unit) (r : Shell)
  : task Shell unit :=
  update (setErr None) ;;
  let groupName := trim (name r) in
  if String.eqb groupName "" then
    update (setErr (Some "Group name is required."))
  else
    update (setCreating true) ;;
    task_finally
      (task_catch
         (onCreateGroup groupName (parseEmails (emailsRaw r)) ;;
          update (setName "") ;;
          update (setEmailsRaw "") ;;
          update (setShowCreate false))
         (λ e, update (setErr (Some (error_string e)))))
      (update (setCreating false)).

End InvitesModal.

(** *** What a run shows: the calls made, the messages logged, and the
    invitations that failed, in order. *)
Definition calls_obj {S} (tr : list (step_seen S)) : list call_obj :=
  omap (λ ev, match ev with SeenObj _ q _ => Some q | _ => None end) tr.

Definition calls_list {S} (tr : list (step_seen S)) : list call_list :=
  omap (λ ev, match ev with SeenList _ q _ => Some q | _ => None end) tr.

Definition calls_void {S} (tr : list (step_seen S)) : list call_void :=
  omap (λ ev, match ev with SeenVoid _ q _ => Some q | _ => None end) tr.

Definition warnings {S} (tr : list (step_seen S)) : list (list warn_arg) :=
  omap (λ ev, match ev with SeenWarn args => Some args | _ => None end) tr.

Definition failed_invites {S} (tr : list (step_seen S))
  : list (string * JsError) :=
  omap (λ ev, match ev with
              | SeenObj _ (call_createInvite _ email) (Rejected e) =>
                  Some (email, e)
              | _ => None
              end) tr.

Module Header.


(** *** The header (Header.tsx)

    Whether the header is hidden, and [lastYRef.current].  A scroll offset
    is a number of pixels, not always whole. *)
Record State := { hidden : bool; lastY : Qcanon.Qc }.

Definition initial : State := {| hidden := false; lastY := Qc_of_Z 0 |}.

(** [onScroll] (lines 729-738), for [window.scrollY || 0] being [y]. *)
Definition onScroll (y : Qcanon.Qc) (h : State) : State :=
  let last := lastY h in
  let goingDown := bool_decide (Qcanon.Qclt last y) in
  {| hidden :=
       if goingDown && bool_decide (Qcanon.Qclt (Qc_of_Z 96) y) then true
       else if negb goingDown then false
       else hidden h;
     lastY := y |}.

(** The header after the scroll events at the offsets [ys], in order. *)
Definition scrolled (ys : list Qcanon.Qc) : State :=
  foldl (λ h y, onScroll y h) initial ys.

(** [handleLogout] (lines 744-747); [onLogout] is called and not awaited. *)
Definition handleLogout {S} (onLogout : task S unit) : task S unit :=
  await_call_void call_logout ;;
  floating onLogout.

End Header.

(** *** A scripted backend, and sample states of the pages *)

Record Replies := {
  obj_replies : list (settled obj);
  list_replies : list (settled (list obj));
  void_replies : list (settled unit);
  prompt_replies : list (option string);
}.

Definition server_error : JsError :=
  {| err_name := "Error"; err_message := "Request failed: 500" |}.

Definition replying : Backend Replies := {|
  answer_obj w _ :=
    match obj_replies w with
    | a :: rest =>
        ({| obj_replies := rest; list_replies := list_replies w;
            void_replies := void_replies w;
            prompt_replies := prompt_replies w |}, a)
    | [] => (w, Rejected server_error)
    end;
  answer_list w _ :=
    match list_replies w with
    | a :: rest =>
        ({| obj_replies := obj_replies w; list_replies := rest;
            void_replies := void_replies w;
            prompt_replies := prompt_replies w |}, a)
    | [] => (w, Rejected server_error)
    end;
  answer_void w _ :=
    match void_replies w with
    | a :: rest =>
        ({| obj_replies := obj_replies w; list_replies := list_replies w;
            void_replies := rest;
            prompt_replies := prompt_replies w |}, a)
    | [] => (w, Rejected server_error)
    end;
  answer_prompt w _ _ :=
    match prompt_replies w with
    | a :: rest =>
        ({| obj_replies := obj_replies w; list_replies := list_replies w;
            void_replies := void_replies w; prompt_replies := rest |}, a)
    | [] => (w, None)
    end;
|}.

Definition replies (objs : list (settled obj))
    (lists : list (settled (list obj))) (voids : list (settled unit))
    (prompts : list (option string)) : Replies :=
  {| obj_replies := objs; list_replies := lists; void_replies := voids;
     prompt_replies := prompts |}.

Definition sample_form (mode : LoginPage.Mode) (email password confirm : string)
  : LoginPage.State :=
  {| LoginPage.open := true; LoginPage.mode := mode;
     LoginPage.email := email; LoginPage.password := password;
     LoginPage.confirm := confirm; LoginPage.loading := false;
     LoginPage.error := Some "Error: Invalid credentials";
     LoginPage.location := "/login" |}.

Definition sample_workspace (id : Z) (name : string) : obj :=
  {[ "id" := JNum id; "name" := JStr name ]}.

Definition sample_shell : Shell := {|
  core := sample_state;
  user := JObj {[ "id" := JNum 2; "email" := JStr "ann@example.org" ]};
  workspaces := [sample_workspace 1 "Team"];
  members := []; meetings := []; invites := [];
  location := "/app"; stored_workspace := Some "1";
  uploading := false;
  showCreate := true; name := " Planning "; 
  emailsRaw := "Bob@example.org, bob@example.org cy@example.org";
  creating := false; err := None |}.

(** * Properties *)

(** ** JavaScript values *)

Example to_string_id : to_string (JNum 42) = "42".
Proof. reflexivity. Qed.

Example to_string_arr : to_string (JArr [JNum 1; JNull; JStr "a"]) = "1,,a".
Proof. reflexivity. Qed.

Lemma strict_eq_str v s : (v === JStr s) = true ↔ v = JStr s.
Proof.
  destruct v; simpl; try (split; [discriminate | discriminate]).
  rewrite String.eqb_eq. split; congruence.
Qed.

Lemma strict_eq_str_l s v : (JStr s === v) = true ↔ v = JStr s.
Proof.
  destruct v; unfold strict_eq; try (split; [discriminate | discriminate]).
  rewrite String.eqb_eq. split; congruence.
Qed.

Lemma strict_eq_num_refl n : (JNum n === JNum n) = true.
Proof. simpl. apply Z.eqb_refl. Qed.

Lemma to_string_num_inj n m : to_string (JNum n) = to_string (JNum m) → n = m.
Proof. simpl. apply (inj pretty). Qed.

(** ** [normalizeItem] *)

Lemma normalizeItem_status raw :
  (normalizeItem raw).["status"] = raw.["status"] ?? JStr "pending".
Proof. unfold normalizeItem, prop. by simplify_map_eq. Qed.

Lemma normalizeItem_id raw : (normalizeItem raw).["id"] = raw.["id"].
Proof. unfold normalizeItem, prop. by simplify_map_eq. Qed.

Lemma normalizeItem_kind raw :
  (normalizeItem raw).["kind"] = raw.["kind"] ?? raw.["item_type"] ?? JStr "note".
Proof. unfold normalizeItem, prop. by simplify_map_eq. Qed.

Lemma normalized_status_present it : normalized it → nullish it.["status"] = false.
Proof.
  intros [raw ->]. rewrite normalizeItem_status. unfold coalesce.
  by destruct (nullish raw.["status"]) eqn:Hn.
Qed.

Example normalize_empty_status :
  (normalizeItem ∅).["status"] = JStr "pending".
Proof. reflexivity. Qed.

(** C7, as stated, fails: a status the server sends is kept as it is, also
    when it is none of the three review statuses. *)
Lemma normalizeItem_status_unchecked :
  ¬ (∀ raw : obj, review_status (normalizeItem raw).["status"]).
Proof.
  intros H. specialize (H {["status" := JStr "archived"]}).
  rewrite normalizeItem_status in H.
  destruct H as [H | [H | H]]; discriminate H.
Qed.

(** C7 (amended): the normalized status is the raw status when that
    property is present and ['pending'] when it is [null] or [undefined];
    hence, when every raw record has a status that is absent or one of the
    three review statuses, every item of the list built from them carries one
    of the three. *)
Theorem normalizeItem_status_enumerated (raws : list obj) :
  Forall (λ raw, nullish raw.["status"] = true ∨ review_status raw.["status"]) raws →
  Forall (λ it, review_status it.["status"]) (map normalizeItem raws)
  ∧ (∀ raw : obj,
       (nullish raw.["status"] = true → (normalizeItem raw).["status"] = JStr "pending")
       ∧ (nullish raw.["status"] = false → (normalizeItem raw).["status"] = raw.["status"])).
Proof.
  intros Hraws. split.
  - induction Hraws as [| raw raws Hraw _ IH]; simpl; constructor; [| exact IH].
    rewrite normalizeItem_status. unfold coalesce.
    destruct Hraw as [Hn | Hs].
    + rewrite Hn. by left.
    + destruct Hs as [-> | [-> | ->]]; simpl; unfold review_status; auto.
  - intros raw. rewrite normalizeItem_status. unfold coalesce.
    split; intros ->; reflexivity.
Qed.

Lemma normalizeItem_status_enumerated_witness :
  Forall (λ raw : obj, nullish raw.["status"] = true ∨ review_status raw.["status"])
    [∅; {["status" := JStr "approved"]}]
  ∧ Forall (λ it : obj, review_status it.["status"])
      (map normalizeItem [∅; {["status" := JStr "approved"]}]).
Proof.
  assert (H : Forall (λ raw : obj,
                nullish raw.["status"] = true ∨ review_status raw.["status"])
              [∅; {["status" := JStr "approved"]}]).
  { constructor; [left; reflexivity |].
    constructor; [| constructor].
    right. right. left. reflexivity. }
  split; [exact H |].
  exact (proj1 (normalizeItem_status_enumerated _ H)).
Defined.

(** ** [filteredItems] *)

Lemma filter_ext_Forall {A} (f g : A → bool) (l : list A) :
  Forall (λ x, f x = g x) l → List.filter f l = List.filter g l.
Proof.
  induction 1 as [| x l Hx _ IH]; simpl; [done |]. by rewrite Hx, IH.
Qed.

(** C8: on a list of normalized items, the view ['all'] is the list itself,
    and each other view is the sub-list, in order, of the items whose status
    is the name of the view. *)
Theorem filteredItems_spec (items : list obj) (f : ReviewFilter) :
  Forall normalized items →
  filteredItems items all = items
  ∧ (f ≠ all →
     filteredItems items f
       = List.filter (λ it, it.["status"] === JStr (filter_name f)) items
     ∧ sublist (filteredItems items f) items
     ∧ ∀ it, it ∈ filteredItems items f
             ↔ it ∈ items ∧ it.["status"] = JStr (filter_name f)).
Proof.
  intros Hnorm. split; [reflexivity |]. intros Hf.
  assert (Heq : filteredItems items f
      = List.filter (λ it, it.["status"] === JStr (filter_name f)) items).
  { destruct f; try done; simpl; apply filter_ext_Forall;
      (eapply Forall_impl; [exact Hnorm |]); intros it Hit; simpl;
      unfold coalesce; by rewrite (normalized_status_present it Hit). }
  split; [exact Heq |]. rewrite Heq. split.
  - clear. induction items as [| it items IH]; simpl; [constructor |].
    destruct (it.["status"] === JStr (filter_name f));
      [by apply sublist_skip | by apply sublist_cons].
  - intros it. rewrite !list_elem_of_In, filter_In, strict_eq_str. tauto.
Qed.

Lemma filteredItems_spec_witness :
  let items :=
    [normalizeItem {["id" := JNum 1]};
     normalizeItem {["id" := JNum 2; "status" := JStr "approved"]}] in
  Forall normalized items
  ∧ filteredItems items all = items
  ∧ filteredItems items pending
    = List.filter (λ it, it.["status"] === JStr "pending") items.
Proof.
  intros items.
  assert (H : Forall normalized items).
  { repeat constructor; eexists; reflexivity. }
  split; [exact H |].
  destruct (filteredItems_spec items pending H) as [Hall Hview].
  split; [exact Hall |].
  exact (proj1 (Hview ltac:(discriminate))).
Defined.

(** ** Invariants of handlers *)

Create HintDb keeps.
#[export] Hint Constructors keeps : keeps.

Lemma keeps_bind P {A B} (m : async A) (f : A → async B) :
  keeps P m → (∀ a, keeps P (f a)) → keeps P (m ≫= f).
Proof.
  intros Hm Hf. unfold mbind, async_mbind.
  induction Hm as [[a | e] | | | | | |]; simpl; auto with keeps.
Qed.

Lemma keeps_try_catch P {A} (body : async A) (handler : string → async A) :
  keeps P body → (∀ e, keeps P (handler e)) → keeps P (try_catch body handler).
Proof.
  intros Hm Hh. induction Hm as [[a | e] | | | | | |]; simpl; auto with keeps.
Qed.

Lemma keeps_try_finally P {A} (body : async A) (cleanup : async unit) :
  keeps P body → keeps P cleanup → keeps P (try_finally body cleanup).
Proof.
  intros Hm Hc. induction Hm as [x | | | | | |]; simpl; auto with keeps.
  apply keeps_bind; auto with keeps.
Qed.

#[export] Hint Resolve keeps_bind keeps_try_catch keeps_try_finally : keeps.

(** A handler that keeps [P], started in a state satisfying [P], shows and
    leaves only states satisfying [P]. *)
Lemma run_shown_keeps {W A} (E : World W) P (m : async A) (shown s : State)
    (w : W) :
  keeps P m → P shown → P s →
  P (final (run_shown E m shown s w))
  ∧ Forall P (suspended (trace (run_shown E m shown s w))).
Proof.
  intros Hm. revert shown s w.
  induction Hm as [x | f k Hf _ IH | q k _ IH | q k _ IH | msg k _ IH
                  | msg e k _ IH | k _ IH]; intros shown s w Hshown Hs; simpl.
  - split; [done | constructor].
  - by apply IH, Hf.
  - destruct (fetch_obj E w q) as [w' r]. destruct (IH r s s w' Hs Hs).
    split; [done |]. by constructor.
  - destruct (fetch_list E w q) as [w' r]. destruct (IH r s s w' Hs Hs).
    split; [done |]. by constructor.
  - destruct (ask E w msg) as [w' r]. destruct (IH r shown s w' Hshown Hs).
    split; [done |]. by constructor.
  - by apply IH.
  - by apply IH.
Qed.

Lemma run_keeps {W A} (E : World W) P (m : async A) (s : State) (w : W) :
  keeps P m → P s →
  P (final (run E m s w)) ∧ Forall P (suspended (trace (run E m s w))).
Proof. intros Hm Hs. by apply run_shown_keeps. Qed.

Lemma replace_by_id_normalized id raw (l : list obj) :
  Forall normalized l → Forall normalized (replace_by_id id (normalizeItem raw) l).
Proof.
  intros Hl. unfold replace_by_id. apply Forall_fmap.
  eapply Forall_impl; [exact Hl |]. intros p Hp. simpl.
  destruct (p.["id"] === id); [by exists raw | done].
Qed.

Lemma map_normalizeItem_normalized (raws : list obj) :
  Forall normalized (map normalizeItem raws).
Proof. apply Forall_fmap, Forall_true. intros raw. by exists raw. Qed.

(** Every handler of the panel and of the task list keeps the items
    normalized. *)
Ltac keeps_items :=
  repeat first
    [ progress intros
    | apply keeps_bind
    | apply keeps_try_finally
    | apply keeps_try_catch
    | apply keeps_Done
    | apply keeps_SetState
    | apply keeps_AwaitObj
    | apply keeps_AwaitList
    | apply keeps_Prompt
    | apply keeps_ConsoleWarn
    | apply keeps_Render
    | match goal with
      | |- keeps _ (match ?x with _ => _ end) => destruct x
      | |- keeps _ (if ?c then _ else _) => destruct c
      end
    | by apply replace_by_id_normalized
    | by apply map_normalizeItem_normalized
    | done
    | by constructor ].

Lemma refreshItems_keeps id : keeps items_normalized (refreshItems id).
Proof.
  unfold refreshItems, set, await_list, items_normalized. keeps_items.
Qed.

Lemma refreshExtractions_keeps r : keeps items_normalized (refreshExtractions r).
Proof.
  pose proof refreshItems_keeps as Hitems.
  unfold refreshExtractions, set, await_list, items_normalized in *.
  keeps_items.
Qed.

Lemma poll_tick_keeps r : keeps items_normalized (poll_tick r).
Proof.
  unfold poll_tick. apply keeps_bind; intros;
    [apply refreshExtractions_keeps | apply refreshItems_keeps].
Qed.

Lemma startExtraction_keeps r : keeps items_normalized (startExtraction r).
Proof.
  pose proof refreshItems_keeps as Hitems.
  pose proof refreshExtractions_keeps as Hruns.
  unfold startExtraction, set, await_obj, items_normalized in *.
  keeps_items.
Qed.

Lemma settle_keeps n prev : keeps items_normalized (settle n prev).
Proof.
  revert prev. induction n as [| n IH]; intros prev; simpl;
    [apply keeps_Done |].
  apply keeps_Render. intros cur. apply keeps_bind; [| intros; apply IH].
  unfold effects, detached. apply keeps_bind; intros.
  - destruct (object_is _ _); [apply keeps_Done |].
    apply keeps_try_catch; [apply refreshExtractions_keeps | intros; apply keeps_Done].
  - destruct (object_is _ _); [apply keeps_Done |].
    apply keeps_try_catch; [apply refreshItems_keeps | intros; apply keeps_Done].
Qed.

Lemma selectMeeting_keeps n id : keeps items_normalized (selectMeeting n id).
Proof.
  unfold selectMeeting, set. apply keeps_Render. intros r.
  apply keeps_bind; [| intros; apply settle_keeps].
  apply keeps_SetState; [done | apply keeps_Done].
Qed.

Lemma perform_keeps r op : keeps items_normalized (perform r op).
Proof.
  destruct op; simpl;
    unfold approveItem, rejectItem, editItem, handleMarkDone, handleUndo,
      onTasksChanged, refreshTasks, setBusy, set, await_obj, await_list,
      window_prompt, console_warn, items_normalized;
    keeps_items.
Qed.

(** The item list holds normalized items only: it starts empty, and every
    handler run from a state with normalized items shows and leaves states
    with normalized items. *)
Lemma items_stay_normalized {W} (E : World W) (m : async unit) (s : State) (w : W) :
  (∃ r op, m = perform r op) ∨ (∃ id, m = refreshItems id)
  ∨ (∃ r, m = refreshExtractions r) ∨ (∃ r, m = startExtraction r)
  ∨ (∃ r, m = poll_tick r) ∨ (∃ n id, m = selectMeeting n id) →
  items_normalized s →
  items_normalized (final (run E m s w))
  ∧ Forall items_normalized (suspended (trace (run E m s w))).
Proof.
  intros Hm. apply run_keeps.
  destruct Hm as [(r & op & ->) | [(id & ->) | [(r & ->) | [(r & ->)
                 | [(r & ->) | (n & id & ->)]]]]];
    auto using perform_keeps, refreshItems_keeps, refreshExtractions_keeps,
      startExtraction_keeps, poll_tick_keeps, selectMeeting_keeps.
Qed.

Lemma initial_items_normalized : items_normalized initial.
Proof. constructor. Qed.

(** ** Running handlers *)

Lemma replace_by_id_lookup id patched (l : list obj) i p :
  l !! i = Some p →
  replace_by_id id patched l !! i
  = Some (if p.["id"] === id then patched else p).
Proof.
  intros H. unfold replace_by_id. by rewrite list_lookup_fmap, H.
Qed.

Lemma replace_by_id_length id patched (l : list obj) :
  length (replace_by_id id patched l) = length l.
Proof. unfold replace_by_id. apply length_map. Qed.

Section Handlers.
Context {W : Type} (E : World W).

Local Arguments to_string : simpl never.

(** Case analysis on the answer of the world to the next suspension. *)
Ltac answer :=
  match goal with
  | |- context [fetch_obj E ?w ?q] =>
      let w' := fresh "w" in let a := fresh "a" in let e := fresh "e" in
      let H := fresh "Hfetch" in
      destruct (fetch_obj E w q) as [w' [a | e]] eqn:H; simpl
  | |- context [fetch_list E ?w ?q] =>
      let w' := fresh "w" in let a := fresh "a" in let e := fresh "e" in
      let H := fresh "Hfetch" in
      destruct (fetch_list E w q) as [w' [a | e]] eqn:H; simpl
  | |- context [ask E ?w ?q] =>
      let w' := fresh "w" in let a := fresh "a" in
      let H := fresh "Hask" in
      destruct (ask E w q) as [w' a] eqn:H; simpl
  end.

(** The next branch of a handler: a test it makes, or an answer. *)
Ltac progress_run :=
  first
    [ answer
    | match goal with
      | |- context [run E (if ?c then _ else _)] => destruct c eqn:?
      | |- context [run_shown E (if ?c then _ else _)] => destruct c eqn:?
      | |- context [try_catch (if ?c then _ else _)] => destruct c eqn:?
      end ].

Ltac exec :=
  repeat (progress (unfold mbind, mret, async_mbind, async_ret, set, setBusy,
                      await_obj, await_list, window_prompt, console_warn,
                      onTasksChanged, refreshTasks, task_payload,
                      approve_patch, logged; simpl)).

(** C1: approving an [action_item] while a workspace is active first
    requests the creation of one task carrying the workspace, the title
    and the details of the item; whatever becomes of that request (a
    failure is only logged), the last request is the patch of the item to
    ['approved'], [needs_review: false], [review_reasons: null] with edit
    reason ['human_approved'], and when the patch is answered the
    normalized answer replaces the item in the list. *)
Theorem approveItem_action_item (r : State) (w : W) (item : obj) :
  item.["kind"] = JStr "action_item" →
  truthy (workspaceId r) = true →
  let res := run E (approveItem r item) r w in
  ∃ (s1 s2 : State) (created patched : outcome obj) (mid : list event),
    trace res
    = EvObj s1
        (createTask
           {[ "workspace_id" := workspaceId r; "title" := item.["title"];
              "details" := item.["details"] ?? JNull; "due_at" := JNull ]})
        created
      :: mid
      ++ [EvObj s2
            (patchExtractedItem item.["id"]
               {[ "status" := JStr "approved"; "needs_review" := JBool false;
                  "review_reasons" := JNull;
                  "edit_reason" := JStr "human_approved" ]})
            patched]
    ∧ Forall refresh_or_warning mid
    ∧ (∀ e, created = Thrown e → mid = [EvWarn "createTask failed" e])
    ∧ match patched with
      | Returned raw =>
          result res = Returned tt
          ∧ items (final res)
            = replace_by_id item.["id"] (normalizeItem raw) (items r)
          ∧ ∀ n i, item.["id"] = JNum n → items r !! i = Some item →
                   items (final res) !! i = Some (normalizeItem raw)
      | Thrown e => result res = Thrown e
      end.
Proof.
  intros Hkind Hws res. subst res. unfold approveItem, workspaceId in *.
  rewrite Hkind. simpl. rewrite Hws. exec. rewrite ?Hws.
  repeat (answer; exec);
    (first [ eexists _, _, _, _, [_]; split; [reflexivity |]
           | eexists _, _, _, _, [_; _]; split; [reflexivity |] ]);
    (split; [repeat constructor |]);
    (split; [intros ? [=]; subst; reflexivity |]);
    try reflexivity.
  all: split; [reflexivity |]; split; [reflexivity |].
  all: intros n i Hid Hi; rewrite (replace_by_id_lookup _ _ _ _ _ Hi);
    by rewrite Hid, strict_eq_num_refl.
Qed.

(** An item of another kind, or one approved while no workspace is active,
    is patched without any task request. *)
Lemma approveItem_without_task (r : State) (w : W) (item : obj) :
  ((item.["kind"] ?? item.["item_type"]) === JStr "action_item")
    && truthy (workspaceId r) = false →
  let res := run E (approveItem r item) r w in
  ∃ (s : State) (patched : outcome obj),
    trace res = [EvObj s (patchExtractedItem item.["id"] approve_patch) patched]
    ∧ match patched with
      | Returned raw =>
          result res = Returned tt
          ∧ items (final res)
            = replace_by_id item.["id"] (normalizeItem raw) (items r)
      | Thrown e => result res = Thrown e ∧ items (final res) = items r
      end.
Proof.
  intros Hplain res. subst res. unfold approveItem. simpl.
  rewrite Hplain. exec.
  answer; exec; eexists _, _; (split; [reflexivity |]); done.
Qed.

(** C5: rejecting an item asks for a reason and then sends one patch of
    the item: status ['rejected'], [needs_review: true], and, with the
    text [t] typed at the prompt, [review_reasons: [t]] and
    [edit_reason: t]; when the prompt is cancelled both are
    ['human_rejected']; when it is confirmed empty, [review_reasons] is
    [['human_rejected']] and [edit_reason] is the empty text provided.
    When the patch is answered, the normalized answer replaces the item in
    the list. *)
Theorem rejectItem_spec (r : State) (w : W) (item : obj) :
  let res := run E (rejectItem item) r w in
  ∃ (s1 s2 : State) (patched : outcome obj),
    let answer := (ask E w "Optional: why are you rejecting this item?").2 in
    trace res
    = [EvPrompt s1 "Optional: why are you rejecting this item?" answer;
       EvObj s2
         (patchExtractedItem item.["id"]
            {[ "status" := JStr "rejected"; "needs_review" := JBool true;
               "review_reasons" :=
                 match answer with
                 | None | Some "" => JArr [JStr "human_rejected"]
                 | Some t => JArr [JStr t]
                 end;
               "edit_reason" :=
                 match answer with
                 | None => JStr "human_rejected"
                 | Some t => JStr t
                 end ]})
         patched]
    ∧ match patched with
      | Returned raw =>
          result res = Returned tt
          ∧ items (final res)
            = replace_by_id item.["id"] (normalizeItem raw) (items r)
          ∧ ∀ n i, item.["id"] = JNum n → items r !! i = Some item →
                   items (final res) !! i = Some (normalizeItem raw)
      | Thrown e => result res = Thrown e
      end.
Proof.
  intros res. subst res. unfold rejectItem. exec.
  destruct (ask E w _) as [w1 answer] eqn:Hask. exec.
  assert (Hpatch : reject_patch (prompt_value answer)
    = {[ "status" := JStr "rejected"; "needs_review" := JBool true;
         "review_reasons" :=
           match answer with
           | None | Some "" => JArr [JStr "human_rejected"]
           | Some t => JArr [JStr t]
           end;
         "edit_reason" :=
           match answer with
           | None => JStr "human_rejected"
           | Some t => JStr t
           end ]}).
  { unfold reject_patch. by destruct answer as [[| c t] |]. }
  rewrite Hpatch. answer; exec; eexists _, _, _; (split; [reflexivity |]).
  - split; [reflexivity |]. split; [reflexivity |].
    intros n i Hid Hi. rewrite (replace_by_id_lookup _ _ _ _ _ Hi).
    by rewrite Hid, strict_eq_num_refl.
  - reflexivity.
Qed.

Lemma busy_insert_eq (s : State) (id : jsval) (v : bool) :
  busy (setBusyIds (λ prev, <[to_string id := v]> prev) s) id = v.
Proof. unfold busy. simpl. by rewrite lookup_insert_eq. Qed.

Lemma busy_insert_ne (s : State) (id j : jsval) (v : bool) :
  to_string j ≠ to_string id →
  busy (setBusyIds (λ prev, <[to_string id := v]> prev) s) j = busy s j.
Proof. intros Hne. unfold busy. simpl. by rewrite lookup_insert_ne. Qed.

Ltac busy_flags :=
  unfold awaited, prompted, suspended; simpl; unfold busy;
  (split; [done |]);
  (split; [repeat constructor; simpl; by rewrite ?lookup_insert_eq |]);
  (split; [try done; by intros ? [=] |]);
  (split; [simpl; by rewrite lookup_insert_eq |]);
  intros j Hj; apply not_eq_sym in Hj;
  (split; [repeat constructor; simpl |]); simpl;
  by rewrite ?lookup_insert_ne.

(** C9 (amended): while an approve, reject or edit of the item [id] runs,
    the busy flag of [id] is set on screen during every network round trip
    of the handler, and it is cleared when the handler finishes, whether it
    returned or threw.  Only a reject opens a prompt, and while it is open
    the screen still shows the state from before the call, the update of
    the flag being queued behind the synchronous dialog.  The flag of every
    item whose identifier is another property key, so of every other
    numeric identifier, is the one it had before, throughout and at the
    end. *)
Theorem busy_during_mutation (r : State) (w : W) (op : mutation) (id : jsval) :
  target op = Some id →
  let res := run E (perform r op) r w in
  awaited (trace res) ≠ []
  ∧ Forall (λ s, busy s id = true) (awaited (trace res))
  ∧ prompted (trace res)
    = match op with Reject _ => [r] | _ => [] end
  ∧ busy (final res) id = false
  ∧ (∀ j, to_string j ≠ to_string id →
       Forall (λ s, busy s j = busy r j) (suspended (trace res))
       ∧ busy (final res) j = busy r j)
  ∧ (∀ n m, id = JNum n → m ≠ n →
       Forall (λ s, busy s (JNum m) = busy r (JNum m)) (suspended (trace res))
       ∧ busy (final res) (JNum m) = busy r (JNum m)).
Proof.
  intros Htarget res.
  assert (Hmain :
    awaited (trace res) ≠ []
    ∧ Forall (λ s, busy s id = true) (awaited (trace res))
    ∧ prompted (trace res)
      = match op with Reject _ => [r] | _ => [] end
    ∧ busy (final res) id = false
    ∧ (∀ j, to_string j ≠ to_string id →
         Forall (λ s, busy s j = busy r j) (suspended (trace res))
         ∧ busy (final res) j = busy r j)).
  { subst res.
    destruct op as [item | item | itemId payload | |]; simpl in Htarget;
      try discriminate; injection Htarget as <-; unfold perform.
    - unfold approveItem. exec.
      destruct ((_ === _) && _); exec; repeat (progress_run; exec);
        busy_flags.
    - unfold rejectItem. exec. repeat (answer; exec);
        busy_flags.
    - unfold editItem. exec. repeat (answer; exec);
        busy_flags. }
  destruct Hmain as (Hsome & Hduring & Hprompt & Hafter & Hframe).
  split; [exact Hsome |]. split; [exact Hduring |]. split; [exact Hprompt |].
  split; [exact Hafter |]. split; [exact Hframe |].
  intros n m -> Hne. apply (Hframe (JNum m)).
  intros Heq. by apply to_string_num_inj in Heq.
Qed.

(** C4 (amended): when the request of a mutation, the last thing the
    handler waits for, fails, the handler throws that error and the item
    list is as before the call.  For undo, reject and edit the task list
    and the undo record are as before as well.  For approve the undo record
    is as before, and the task list is as before or is the list that the
    refresh following the task creation loaded.  For markDone the task list
    is as before, and the undo record is the one markDone wrote before it
    sent the request: the task and the status it had. *)
Theorem failed_mutation (r : State) (w : W) (op : mutation)
    (s : State) (q : obj_request) (e : string) :
  let res := run E (perform r op) r w in
  last (trace res) = Some (EvObj s q (Thrown e)) →
  result res = Thrown e
  ∧ items (final res) = items r
  ∧ match op with
    | MarkDone id =>
        tasks (final res) = tasks r
        ∧ ∃ current,
            List.find (λ t, t.["id"] === id) (tasks r) = Some current
            ∧ lastDone (final res)
              = Some {| taskId := id; prevStatus := current.["status"] |}
    | Approve item =>
        lastDone (final res) = lastDone r
        ∧ (tasks (final res) = tasks r
           ∨ ∃ s' ts,
               EvList s' (listTasks (workspaceId r)) (Returned ts)
                 ∈ trace res
               ∧ tasks (final res) = ts)
    | _ =>
        lastDone (final res) = lastDone r
        ∧ tasks (final res) = tasks r
    end.
Proof.
  intros res. subst res. destruct op as [item | item | itemId payload | id |];
    unfold perform.
  - unfold approveItem. exec.
    destruct ((_ === _) && _); exec; repeat (progress_run; exec);
      intros [=]; subst; repeat split; auto.
    right. eexists _, _. split; [| reflexivity].
    unfold workspaceId. apply list_elem_of_further, list_elem_of_here.
  - unfold rejectItem. exec. repeat (answer; exec);
      intros [=]; subst; repeat split; auto.
  - unfold editItem. exec. repeat (answer; exec);
      intros [=]; subst; repeat split; auto.
  - unfold handleMarkDone.
    destruct (List.find _ _) as [current |] eqn:Hfind; exec;
      [| intros [=]].
    repeat (answer; exec); intros [=]; subst; repeat split; auto.
    by exists current.
  - unfold handleUndo. destruct (lastDone r) as [ld |] eqn:Hld; exec;
      [| intros [=]].
    repeat (answer; exec); intros [=]; subst; repeat split; auto.
Qed.

(** ** The undo buffer *)

Lemma handleUndo_nothing (r : State) (w : W) :
  lastDone r = None →
  run E (handleUndo r) r w
  = {| final := r; world := w; trace := []; result := Returned tt |}.
Proof. intros H. unfold handleUndo. by rewrite H. Qed.

(** C3: [markDone] of a task records its identifier and the status it
    had; an [undo] right after it sends that status back for that task,
    puts the answer in the place of the task, and clears the record, so
    that [canUndo] is false and a further [undo] does nothing.  With a
    backend that answers a task patch by the patched task, the task is
    back at the status it had.  A second [markDone] replaces the record of
    the first, and any [undo] that returns leaves no record. *)
Theorem markDone_then_undo (r : State) (w w1 w2 : W) (id : jsval)
    (t u1 u2 : obj) :
  List.find (λ x, x.["id"] === id) (tasks r) = Some t →
  fetch_obj E w (patchTask id {[ "status" := JStr "done" ]})
    = (w1, Returned u1) →
  (u1.["id"] === id) = true →
  fetch_obj E w1 (patchTask id {[ "status" := t.["status"] ]})
    = (w2, Returned u2) →
  u2.["status"] = t.["status"] →
  let marked := run E (handleMarkDone r id) r w in
  let undone := run E (handleUndo (final marked)) (final marked) (world marked) in
  lastDone (final marked)
    = Some {| taskId := id; prevStatus := t.["status"] |}
  ∧ canUndo (final marked) = true
  ∧ trace undone
    = [EvObj (final marked) (patchTask id {[ "status" := t.["status"] ]})
         (Returned u2)]
  ∧ result undone = Returned tt
  ∧ (∀ i x, tasks r !! i = Some x →
       ∃ x', tasks (final undone) !! i = Some x'
             ∧ if x.["id"] === id
               then x' = u2 ∧ x'.["status"] = t.["status"]
               else x' = x)
  ∧ (∃ i, tasks r !! i = Some t ∧ tasks (final undone) !! i = Some u2)
  ∧ lastDone (final undone) = None
  ∧ canUndo (final undone) = false
  ∧ (∀ w', run E (handleUndo (final undone)) (final undone) w'
           = {| final := final undone; world := w'; trace := [];
                result := Returned tt |})
  ∧ (∀ id' t' w',
       List.find (λ x, x.["id"] === id') (tasks (final marked)) = Some t' →
       lastDone (final (run E (handleMarkDone (final marked) id')
                          (final marked) w'))
       = Some {| taskId := id'; prevStatus := t'.["status"] |})
  ∧ (∀ r' w',
       result (run E (handleUndo r') r' w') = Returned tt →
       lastDone (final (run E (handleUndo r') r' w')) = None).
Proof.
  intros Hfind Hdone Hid1 Hback Hstatus marked undone.
  assert (Hmarked : marked
    = {| final := setTasks (replace_by_id id u1)
           (setLastDone
              (const (Some {| taskId := id; prevStatus := t.["status"] |})) r);
         world := w1;
         trace := [EvObj
           (setLastDone
              (const (Some {| taskId := id; prevStatus := t.["status"] |})) r)
           (patchTask id {[ "status" := JStr "done" ]}) (Returned u1)];
         result := Returned tt |}).
  { subst marked. unfold handleMarkDone. rewrite Hfind. exec.
    by rewrite Hdone. }
  assert (Hundone : undone
    = {| final := setLastDone (const None)
           (setTasks (replace_by_id id u2) (final marked));
         world := w2;
         trace := [EvObj (final marked)
           (patchTask id {[ "status" := t.["status"] ]}) (Returned u2)];
         result := Returned tt |}).
  { subst undone. rewrite Hmarked. unfold handleUndo. exec.
    by rewrite Hback. }
  assert (Hat : ∀ i x, tasks r !! i = Some x →
    tasks (final undone) !! i
    = Some (if x.["id"] === id then u2 else x)).
  { intros i x Hi. rewrite Hundone, Hmarked. simpl.
    erewrite replace_by_id_lookup
      by (by apply replace_by_id_lookup).
    destruct (x.["id"] === id) eqn:Hx; [by rewrite Hid1 | by rewrite Hx]. }
  split; [by rewrite Hmarked |]. split; [by rewrite Hmarked |].
  split; [by rewrite Hundone |]. split; [by rewrite Hundone |].
  split.
  { intros i x Hi. eexists. split; [by apply Hat |].
    by destruct (x.["id"] === id). }
  split.
  { apply find_some in Hfind as [Hin Hid].
    apply list_elem_of_In, list_elem_of_lookup in Hin as [i Hi].
    exists i. split; [exact Hi |]. by rewrite (Hat i t Hi), Hid. }
  split; [by rewrite Hundone |]. split; [by rewrite Hundone |].
  split; [intros w'; apply handleUndo_nothing; by rewrite Hundone |].
  split.
  - intros id' t' w' Hfind'. unfold handleMarkDone. rewrite Hfind'. exec.
    by answer.
  - intros r' w'. unfold handleUndo.
    destruct (lastDone r') as [ld |] eqn:Hld; exec; [| done].
    by answer.
Qed.


(** ** Selection of the run *)

Lemma object_is_id v : is_id v → object_is v v = true.
Proof. intros [-> | [n ->]]; [done | apply strict_eq_num_refl]. Qed.

(** Once no dependency changes from one render to the next, no effect
    runs, however many commits follow. *)
Lemma settle_quiet_shown (n : nat) (prev shown s : State) (w : W) :
  is_id (meetingId s) → is_id (selectedExtractionId s) →
  object_is (meetingId prev) (meetingId s) = true →
  object_is (selectedExtractionId prev) (selectedExtractionId s) = true →
  run_shown E (settle n prev) shown s w
  = {| final := s; world := w; trace := []; result := Returned tt |}.
Proof.
  intros Hm Hs. revert prev shown.
  induction n as [| n IH]; intros prev shown Hpm Hps.
  - reflexivity.
  - simpl. unfold effects. rewrite Hpm, Hps. exec.
    apply IH; by apply object_is_id.
Qed.

Lemma settle_quiet (n : nat) (prev s : State) (w : W) :
  is_id (meetingId s) → is_id (selectedExtractionId s) →
  object_is (meetingId prev) (meetingId s) = true →
  object_is (selectedExtractionId prev) (selectedExtractionId s) = true →
  run E (settle n prev) s w
  = {| final := s; world := w; trace := []; result := Returned tt |}.
Proof. apply settle_quiet_shown. Qed.

(** C6 (amended): a refresh of the run list that finds no run selected
    and a non-empty list selects the first run of the list and loads its
    items; one that finds the selected identifier missing from the list
    selects the first run, or nothing when the list is empty; and choosing
    a meeting that has no runs ends with no run selected, and with no items
    when a run was selected before, while with none selected before the
    items are left as they were. *)
Theorem refreshExtractions_selection :
  (∀ (r : State) (w w1 : W) (e0 : obj) (rest : list obj),
     truthy (meetingId r) = true →
     truthy (selectedExtractionId r) = false →
     truthy e0.["id"] = true →
     fetch_list E w (listExtractions (meetingId r))
       = (w1, Returned (e0 :: rest)) →
     let res := run E (refreshExtractions r) r w in
     extractions (final res) = e0 :: rest
     ∧ selectedExtractionId (final res) = e0.["id"]
     ∧ ∃ s1 s2 loaded,
         trace res
         = [EvList s1 (listExtractions (meetingId r)) (Returned (e0 :: rest));
            EvList s2 (listExtractionItems e0.["id"]) loaded]
         ∧ match loaded with
           | Returned its =>
               result res = Returned tt
               ∧ items (final res) = map normalizeItem its
           | Thrown e => result res = Thrown e
           end)
  ∧ (∀ (r : State) (w w1 : W) (exts : list obj),
       truthy (meetingId r) = true →
       truthy (selectedExtractionId r) = true →
       existsb (λ e, e.["id"] === selectedExtractionId r) exts = false →
       fetch_list E w (listExtractions (meetingId r)) = (w1, Returned exts) →
       let res := run E (refreshExtractions r) r w in
       extractions (final res) = exts
       ∧ selectedExtractionId (final res)
         = match exts with e0 :: _ => e0.["id"] | [] => JNull end)
  ∧ (∀ (r : State) (w w1 : W) (m : jsval) (commits : nat),
       is_id (selectedExtractionId r) →
       is_id m →
       truthy m = true →
       object_is (selectedMeetingId r) m = false →
       fetch_list E w (listExtractions m) = (w1, Returned []) →
       (2 ≤ commits)%nat →
       let res := run E (selectMeeting commits m) r w in
       selectedMeetingId (final res) = m
       ∧ extractions (final res) = []
       ∧ truthy (selectedExtractionId (final res)) = false
       ∧ activeExtraction (final res) = None
       ∧ items (final res)
         = if truthy (selectedExtractionId r) then [] else items r).
Proof.
  split; [| split].
  - intros r w w1 e0 rest Hm Hsel Hid Hfetch res. subst res.
    unfold refreshExtractions. rewrite Hm. exec. rewrite Hfetch. exec.
    rewrite Hsel. exec. unfold refreshItems. rewrite Hid. exec.
    answer; exec; (split; [reflexivity |]); (split; [reflexivity |]);
      eexists _, _, _; (split; [reflexivity |]); done.
  - intros r w w1 exts Hm Hsel Hex Hfetch res. subst res.
    unfold refreshExtractions. rewrite Hm. exec. rewrite Hfetch. exec.
    rewrite Hsel, Hex. exec.
    destruct exts as [| e0 exts']; exec; [done |].
    destruct (truthy e0.["id"]) eqn:Hid; exec; [| done].
    unfold refreshItems. rewrite Hid. exec. by answer.
  - intros r w w1 m commits Hsel Hm Htruthy Hswitch Hfetch Hcommits res.
    subst res. destruct commits as [| [| n]]; [lia | lia |].
    pose proof (object_is_id _ Hsel) as Hsame.
    pose proof (object_is_id _ Hm) as Hsame_m.
    unfold selectMeeting, effects, meetingId. exec.
    unfold effects, meetingId. exec.
    rewrite Hswitch, Hsame. unfold detached, refreshExtractions, meetingId.
    exec. rewrite Htruthy. exec. rewrite Hfetch. exec.
    destruct (truthy (selectedExtractionId r)) eqn:Hsome; exec.
    + rewrite Hsame_m. exec.
      destruct Hsel as [Hnull | [k Hk]].
      * rewrite Hnull in Hsome. discriminate Hsome.
      * rewrite Hk. exec.
        rewrite settle_quiet_shown;
          [done | exact Hm | by left | exact Hsame_m | done].
    + rewrite Hsame_m, Hsame. exec.
      rewrite settle_quiet_shown;
        [| exact Hm | exact Hsel | exact Hsame_m | exact Hsame].
      simpl. unfold activeExtraction. simpl.
      by rewrite Hsome.
Qed.

(** ** A tick of the polling timer *)

(** What the callback created in render [rc] does each time it fires: it
    requests the run list of the meeting and shows the answer; when that
    request fails, nothing else is requested; and whenever the tick
    returns, its last request was the item list of the run that [rc] had
    selected, whose normalized answer is shown.  Without a meeting it
    forgets the runs and requests the items only. *)
Lemma poll_tick_requests (rc s : State) (w : W) :
  truthy (selectedExtractionId rc) = true →
  let tick := run E (poll_tick rc) s w in
  (truthy (meetingId rc) = true →
     ∃ s1 listed rest,
       trace tick = EvList s1 (listExtractions (meetingId rc)) listed :: rest
       ∧ match listed with
         | Thrown e => rest = [] ∧ result tick = Thrown e
         | Returned exts => rest ≠ [] ∧ extractions (final tick) = exts
         end)
  ∧ (truthy (meetingId rc) = false →
       ∃ s1 loaded,
         trace tick
         = [EvList s1 (listExtractionItems (selectedExtractionId rc)) loaded]
         ∧ extractions (final tick) = [])
  ∧ (result tick = Returned tt →
       ∃ s2 raws,
         last (trace tick)
         = Some (EvList s2 (listExtractionItems (selectedExtractionId rc))
                   (Returned raws))
         ∧ items (final tick) = map normalizeItem raws).
Proof.
  intros Hsel tick. subst tick.
  unfold poll_tick, refreshExtractions, refreshItems.
  rewrite Hsel. cbn [negb].
  destruct (truthy (meetingId rc)) eqn:Hm; cbn [negb]; exec.
  - destruct (fetch_list E w (listExtractions (meetingId rc)))
      as [w1 [exts | e]]; exec.
    + destruct (existsb (λ e, e.["id"] === selectedExtractionId rc) exts);
        exec.
      * destruct exts as [| e0 exts']; exec;
          (answer; exec;
           (split; [intros _; by eexists _, _, _ |]);
           (split; [done |]); [intros _; by eexists _, _ | done]).
      * destruct exts as [| e0 exts']; exec.
        -- answer; exec;
             (split; [intros _; by eexists _, _, _ |]);
             (split; [done |]); [intros _; by eexists _, _ | done].
        -- destruct (truthy e0.["id"]); exec;
             repeat (answer; exec);
             (split; [intros _; by eexists _, _, _ |]);
             (split; [done |]); first [intros _; by eexists _, _ | done].
    + split; [intros _; by eexists _, _, _ |]. split; done.
  - answer; exec; (split; [done |]);
      (split; [intros _; by eexists _, _ |]);
      [intros _; by eexists _, _ | done].
Qed.

End Handlers.

(** ** The polling effect *)

Lemma processing_deps r : processing r ↔ (poll_deps r).1 = JStr "processing".
Proof.
  unfold processing, poll_deps. simpl. split.
  - by intros (e & -> & ->).
  - destruct (activeExtraction r) as [e |]; [| discriminate]. eauto.
Qed.

Lemma same_deps_processing d d' :
  same_deps d d' = true → d.1 = JStr "processing" ↔ d'.1 = JStr "processing".
Proof.
  unfold same_deps, object_is. intros [H _]%andb_true_iff. split; intros Hp.
  - rewrite Hp in H. by apply strict_eq_str_l in H.
  - rewrite Hp in H. by apply strict_eq_str in H.
Qed.

Lemma clear_poll_timers p :
  poll_inv p → timers (clear_poll p) = ∅ ∧ pollRef (clear_poll p) = None.
Proof.
  intros [Ht _ _ _]. unfold clear_poll.
  destruct (pollRef p) as [h |] eqn:Href; simpl.
  - destruct Ht as (r0 & -> & _). split; [| done]. apply delete_singleton_eq.
  - by rewrite Href.
Qed.

Lemma clear_poll_next p : next_handle (clear_poll p) = next_handle p.
Proof. unfold clear_poll. by destruct (pollRef p). Qed.

Lemma clear_poll_again (b : bool) p :
  clear_poll (if b then clear_poll p else p) = clear_poll p.
Proof.
  destruct b; [| done]. unfold clear_poll at 1.
  destruct (pollRef (clear_poll p)) as [h |] eqn:Href; [| done].
  unfold clear_poll in Href.
  destruct (pollRef p) eqn:Hp; simpl in Href; congruence.
Qed.

(** The effect, when it runs: it leaves the one timer it creates in a render
    whose run is being processed, and no timer otherwise. *)
Lemma poll_rerun p r :
  poll_inv p →
  let p' := with_deps (poll_deps r)
              (poll_effect r (if has_cleanup p then clear_poll p else p)) in
  (processing r
   ∧ p' = {| pollRef := Some (next_handle p);
             timers := {[ next_handle p := {| period := 1500; captured := r |} ]};
             next_handle := (next_handle p + 1)%positive;
             last_deps := Some (poll_deps r); has_cleanup := true |})
  ∨ (¬ processing r
     ∧ p' = {| pollRef := None; timers := ∅; next_handle := next_handle p;
               last_deps := Some (poll_deps r); has_cleanup := false |}).
Proof.
  intros Hinv p'. subst p'. unfold poll_effect. rewrite clear_poll_again.
  destruct (clear_poll_timers p Hinv) as [Hnone Href].
  rewrite clear_poll_next, Hnone, Href.
  destruct (activeExtraction r) as [e |] eqn:Hactive.
  - destruct (e.["status"] === JStr "processing") eqn:Hstatus; simpl.
    + left. split; [| done]. exists e. by apply strict_eq_str in Hstatus.
    + right. split; [| done]. intros (e' & He' & Hs). rewrite Hactive in He'.
      injection He' as <-. apply strict_eq_str in Hs. congruence.
  - right. split; [| done]. intros (e' & He' & _). congruence.
Qed.

Lemma rerun_inv (n : positive) r p' :
  (processing r
   ∧ p' = {| pollRef := Some n;
             timers := {[ n := {| period := 1500; captured := r |} ]};
             next_handle := (n + 1)%positive;
             last_deps := Some (poll_deps r); has_cleanup := true |})
  ∨ (¬ processing r
     ∧ p' = {| pollRef := None; timers := ∅; next_handle := n;
               last_deps := Some (poll_deps r); has_cleanup := false |}) →
  poll_inv p'.
Proof.
  intros [[Hproc ->] | [Hidle ->]]; split; unfold can_tick; simpl.
  - by exists r.
  - eexists. split; [reflexivity |]. simpl. split; [eauto |].
    intros _. by apply processing_deps.
  - split; eauto.
  - intros h [t Ht]. apply lookup_singleton_Some in Ht as [<- _]. lia.
  - done.
  - eexists. split; [reflexivity |]. simpl. split.
    + intros Hp. by apply processing_deps in Hp.
    + by intros [? [=]].
  - split; [done | by intros [? [=]]].
  - intros h [t Ht]. by rewrite lookup_empty in Ht.
Qed.

Lemma poll_commit_inv r p : poll_inv p → poll_inv (poll_commit r p).
Proof.
  intros Hinv. unfold poll_commit.
  destruct (match last_deps p with
            | Some d => negb (same_deps d (poll_deps r))
            | None => true
            end); [| exact Hinv].
  by apply (rerun_inv (next_handle p) r), poll_rerun.
Qed.

Lemma unmounted_rerun r :
  let p' := poll_commit r unmounted in
  (processing r
   ∧ p' = {| pollRef := Some 1%positive;
             timers := {[ 1%positive := {| period := 1500; captured := r |} ]};
             next_handle := 2%positive;
             last_deps := Some (poll_deps r); has_cleanup := true |})
  ∨ (¬ processing r
     ∧ p' = {| pollRef := None; timers := ∅; next_handle := 1%positive;
               last_deps := Some (poll_deps r); has_cleanup := false |}).
Proof.
  simpl. unfold poll_commit, poll_effect. simpl.
  destruct (activeExtraction r) as [e |] eqn:Hactive.
  - destruct (e.["status"] === JStr "processing") eqn:Hstatus; simpl.
    + left. split; [| done]. exists e. by apply strict_eq_str in Hstatus.
    + right. split; [| done]. intros (e' & He' & Hs). rewrite Hactive in He'.
      injection He' as <-. apply strict_eq_str in Hs. congruence.
  - right. split; [| done]. intros (e' & He' & _). congruence.
Qed.

Lemma mounted_inv p : mounted p → poll_inv p.
Proof.
  induction 1 as [r | r p _ IH]; [| by apply poll_commit_inv].
  apply (rerun_inv 1%positive r), unmounted_rerun.
Qed.

Lemma strict_eq_true_refl a b : (a === b) = true → (b === b) = true.
Proof.
  destruct a, b; simpl; try discriminate; intros _;
    auto using Bool.eqb_reflx, Z.eqb_refl, String.eqb_refl.
Qed.

Lemma processing_same_deps r :
  processing r → same_deps (poll_deps r) (poll_deps r) = true.
Proof.
  intros (e & Hactive & Hstatus). unfold same_deps, poll_deps, object_is.
  rewrite Hactive, Hstatus. simpl.
  unfold activeExtraction in Hactive.
  destruct (negb (truthy (selectedExtractionId r))); [discriminate |].
  apply find_some in Hactive as [_ Hid]. by apply strict_eq_true_refl in Hid.
Qed.

Lemma poll_commit_cases r p :
  poll_inv p →
  poll_commit r p = p
  ∧ (∃ d, last_deps p = Some d ∧ same_deps d (poll_deps r) = true)
  ∨ (∀ d, last_deps p = Some d → same_deps d (poll_deps r) = false)
    ∧ ((processing r
        ∧ poll_commit r p
          = {| pollRef := Some (next_handle p);
               timers := {[ next_handle p := {| period := 1500; captured := r |} ]};
               next_handle := (next_handle p + 1)%positive;
               last_deps := Some (poll_deps r); has_cleanup := true |})
       ∨ (¬ processing r
          ∧ poll_commit r p
            = {| pollRef := None; timers := ∅; next_handle := next_handle p;
                 last_deps := Some (poll_deps r); has_cleanup := false |})).
Proof.
  intros Hinv. unfold poll_commit.
  destruct (last_deps p) as [d |] eqn:Hd.
  - destruct (same_deps d (poll_deps r)) eqn:Hsame; simpl.
    + left. eauto.
    + right. split; [by intros ? [= <-] |]. by apply poll_rerun.
  - destruct (inv_deps p Hinv) as (d & Hd' & _). congruence.
Qed.

Lemma later_inv p p' : poll_inv p → later p p' → poll_inv p'.
Proof. induction 2; auto using poll_commit_inv. Qed.

(** A handle that is behind the counter and not live is never live again. *)
Lemma later_no_reuse p p' h :
  poll_inv p → later p p' →
  (h < next_handle p)%positive → ¬ can_tick p h →
  ¬ can_tick p' h ∧ (h < next_handle p')%positive.
Proof.
  intros Hinv Hlater Hlt Hdead.
  induction Hlater as [p | r p p' Hlater IH]; [done |].
  destruct (IH Hinv Hlt Hdead) as [Hdead' Hlt'].
  pose proof (later_inv _ _ Hinv Hlater) as Hinv'.
  destruct (poll_commit_cases r p' Hinv')
    as [[-> _] | [_ [[_ ->] | [_ ->]]]]; unfold can_tick; simpl.
  - done.
  - split; [| lia]. intros [t Ht].
    apply lookup_singleton_Some in Ht as [<- _]. lia.
  - split; [| done]. intros [t Ht]. by rewrite lookup_empty in Ht.
Qed.

(** The two ways a commit goes, on mount and later: the effect is skipped
    because no dependency changed, or it runs. *)
Lemma poll_commit_outcome r p :
  p = unmounted ∨ mounted p →
  mounted p ∧ poll_commit r p = p
  ∧ (∃ d, last_deps p = Some d ∧ same_deps d (poll_deps r) = true)
  ∨ (∀ d, last_deps p = Some d → same_deps d (poll_deps r) = false)
    ∧ (∀ h, can_tick p h → (h < next_handle p)%positive)
    ∧ ((processing r
        ∧ poll_commit r p
          = {| pollRef := Some (next_handle p);
               timers := {[ next_handle p := {| period := 1500; captured := r |} ]};
               next_handle := (next_handle p + 1)%positive;
               last_deps := Some (poll_deps r); has_cleanup := true |})
       ∨ (¬ processing r
          ∧ poll_commit r p
            = {| pollRef := None; timers := ∅; next_handle := next_handle p;
                 last_deps := Some (poll_deps r); has_cleanup := false |})).
Proof.
  intros [-> | Hmounted].
  - right. split; [discriminate |]. split.
    + intros h [t Ht]. simpl in Ht. by rewrite lookup_empty in Ht.
    + apply unmounted_rerun.
  - pose proof (mounted_inv p Hmounted) as Hinv.
    destruct (poll_commit_cases r p Hinv) as [[Heq Hsame] | [Hdiff Hrun]].
    + left. eauto.
    + right. split; [exact Hdiff |]. split; [apply (inv_handles p Hinv) | exact Hrun].
Qed.

(** A timer created in a render whose run is being processed refreshes, each
    time it fires, the run list and then the items of that run. *)
Lemma processing_tick (r0 : State) :
  processing r0 →
  ∀ (W : Type) (E : World W) (s : State) (w : W),
    let tick := run E (callback {| period := 1500; captured := r0 |}) s w in
    (truthy (meetingId r0) = true →
       ∃ s1 listed rest,
         trace tick = EvList s1 (listExtractions (meetingId r0)) listed :: rest
         ∧ match listed with
           | Thrown e => rest = [] ∧ result tick = Thrown e
           | Returned exts => rest ≠ [] ∧ extractions (final tick) = exts
           end)
    ∧ (truthy (meetingId r0) = false →
         ∃ s1 loaded,
           trace tick
           = [EvList s1 (listExtractionItems (selectedExtractionId r0)) loaded]
           ∧ extractions (final tick) = [])
    ∧ (result tick = Returned tt →
         ∃ s2 raws,
           last (trace tick)
           = Some (EvList s2 (listExtractionItems (selectedExtractionId r0))
                     (Returned raws))
           ∧ items (final tick) = map normalizeItem raws).
Proof.
  intros (e & Hactive & _) W E s w. unfold callback. cbn [captured].
  apply poll_tick_requests.
  unfold activeExtraction in Hactive.
  by destruct (truthy (selectedExtractionId r0)).
Qed.

(** C2: after the commit of a render, on mount or later, the window holds a
    polling timer if and only if a run is selected and its status is
    ['processing']; the timer has a period of 1500 ms and was created in a
    render with the same selection and status, and each time it fires it
    requests the run list of the meeting and shows the answer, and then
    requests the items of the selected run and shows them (a failed
    request ends that tick).  When the observed status or the selection
    has changed since the effect last ran, the timer that was pending is
    cancelled, and a cancelled timer never fires again.  A render whose
    selected run is ['complete'] or ['failed'] leaves no timer. *)
Theorem polling_schedule (p : Poll) (r : State) :
  p = unmounted ∨ mounted p →
  let p' := poll_commit r p in
  (processing r →
     ∃ h r0, pollRef p' = Some h
       ∧ timers p' = {[ h := {| period := 1500; captured := r0 |} ]}
       ∧ processing r0
       ∧ same_deps (poll_deps r0) (poll_deps r) = true
       ∧ ∀ (W : Type) (E : World W) (s : State) (w : W),
           let tick :=
             run E (callback {| period := 1500; captured := r0 |}) s w in
           (truthy (meetingId r0) = true →
              ∃ s1 listed rest,
                trace tick
                = EvList s1 (listExtractions (meetingId r0)) listed :: rest
                ∧ match listed with
                  | Thrown e => rest = [] ∧ result tick = Thrown e
                  | Returned exts =>
                      rest ≠ [] ∧ extractions (final tick) = exts
                  end)
           ∧ (truthy (meetingId r0) = false →
                ∃ s1 loaded,
                  trace tick
                  = [EvList s1
                       (listExtractionItems (selectedExtractionId r0)) loaded]
                  ∧ extractions (final tick) = [])
           ∧ (result tick = Returned tt →
                ∃ s2 raws,
                  last (trace tick)
                  = Some (EvList s2
                            (listExtractionItems (selectedExtractionId r0))
                            (Returned raws))
                  ∧ items (final tick) = map normalizeItem raws))
  ∧ (¬ processing r →
       pollRef p' = None ∧ timers p' = ∅ ∧ ∀ h, ¬ can_tick p' h)
  ∧ (∀ e, activeExtraction r = Some e →
       e.["status"] = JStr "complete" ∨ e.["status"] = JStr "failed" →
       timers p' = ∅ ∧ ∀ h, ¬ can_tick p' h)
  ∧ (∀ d h, last_deps p = Some d → same_deps d (poll_deps r) = false →
       can_tick p h → ¬ can_tick p' h)
  ∧ (∀ h p'', later p' p'' → (h < next_handle p')%positive →
       ¬ can_tick p' h → ¬ can_tick p'' h).
Proof.
  intros Hp p'.
  assert (Hinv' : poll_inv p').
  { apply mounted_inv. destruct Hp as [-> | Hp]; by constructor. }
  assert (Hidle : ¬ processing r →
    pollRef p' = None ∧ timers p' = ∅ ∧ ∀ h, ¬ can_tick p' h).
  { intros Hnot. subst p'.
    destruct (poll_commit_outcome r p Hp)
      as [(Hmounted & Heq & d & Hd & Hsame) | (_ & _ & [[Hproc _] | [_ Heq]])];
      [| done |].
    - pose proof (mounted_inv p Hmounted) as Hinv.
      rewrite Heq. destruct (inv_deps p Hinv) as (d' & Hd' & Hiff).
      assert (d' = d) as -> by congruence.
      pose proof (inv_timers p Hinv) as Ht.
      destruct (pollRef p) as [h |] eqn:Href.
      + destruct Hnot. apply processing_deps.
        apply (same_deps_processing _ _ Hsame), Hiff. eauto.
      + split; [done |]. split; [done |]. intros h [t Hl].
        by rewrite Ht, lookup_empty in Hl.
    - rewrite Heq. simpl. split; [done |]. split; [done |].
      intros h [t Hl]. simpl in Hl. by rewrite lookup_empty in Hl. }
  split; [| split; [exact Hidle | split; [| split]]].
  - intros Hproc. subst p'.
    destruct (poll_commit_outcome r p Hp)
      as [(Hmounted & Heq & d & Hd & Hsame) | (_ & _ & [[_ Heq] | [Hnot _]])];
      [| | done].
    + pose proof (mounted_inv p Hmounted) as Hinv.
      rewrite Heq. destruct (inv_deps p Hinv) as (d' & Hd' & Hiff).
      assert (d' = d) as -> by congruence.
      pose proof (inv_timers p Hinv) as Ht.
      destruct (pollRef p) as [h |] eqn:Href.
      * destruct Ht as (r0 & Ht & Hproc0 & Hdeps). exists h, r0.
        split; [done |]. split; [done |]. split; [done |].
        split; [congruence |]. by apply processing_tick.
      * apply processing_deps in Hproc.
        apply (same_deps_processing _ _ Hsame), Hiff in Hproc.
        by destruct Hproc.
    + rewrite Heq. simpl. eexists _, r.
      split; [done |]. split; [done |]. split; [done |].
      split; [by apply processing_same_deps |]. by apply processing_tick.
  - intros e Hactive Hstatus. apply Hidle.
    intros (e' & He' & Hs). rewrite Hactive in He'. injection He' as <-.
    destruct Hstatus as [Hc | Hf]; congruence.
  - intros d h Hd Hchanged Hlive. subst p'.
    destruct (poll_commit_outcome r p Hp)
      as [(_ & _ & d' & Hd' & Hsame) | (_ & Hbelow & [[_ ->] | [_ ->]])];
      unfold can_tick; simpl.
    + congruence.
    + apply Hbelow in Hlive. intros [t Ht].
      apply lookup_singleton_Some in Ht as [<- _]. lia.
    + intros [t Ht]. by rewrite lookup_empty in Ht.
  - intros h p'' Hlater Hlt Hdead.
    by apply (later_no_reuse p' p'' h Hinv' Hlater Hlt Hdead).
Qed.

(** Unmounting the panel leaves no timer behind. *)
Lemma poll_unmount_clears (p : Poll) :
  mounted p → timers (poll_unmount p) = ∅ ∧ ∀ h, ¬ can_tick (poll_unmount p) h.
Proof.
  intros Hinv%mounted_inv. unfold poll_unmount.
  assert (Hnone : timers (if has_cleanup p then clear_poll p else p) = ∅).
  { destruct (has_cleanup p) eqn:Hc; [by apply clear_poll_timers |].
    pose proof (inv_timers p Hinv) as Ht.
    destruct (pollRef p) as [h |] eqn:Href; [| done].
    assert (has_cleanup p = true) by (apply (inv_cleanup p Hinv); eauto).
    congruence. }
  split; [exact Hnone |]. intros h [t Ht]. by rewrite Hnone, lookup_empty in Ht.
Qed.

(** ** The sample session *)

Lemma approveItem_action_item_witness :
  let w := answers [Thrown "Request failed: 500";
                    Returned (<["status" := JStr "approved"]> sample_item)] [] [] in
  let res := run scripted (approveItem sample_state sample_item) sample_state w in
  sample_item.["kind"] = JStr "action_item"
  ∧ truthy (workspaceId sample_state) = true
  ∧ ∃ (s1 s2 : State) (created patched : outcome obj) (mid : list event),
      trace res
      = EvObj s1
          (createTask
             {[ "workspace_id" := workspaceId sample_state;
                "title" := sample_item.["title"];
                "details" := sample_item.["details"] ?? JNull;
                "due_at" := JNull ]})
          created
        :: mid
        ++ [EvObj s2
              (patchExtractedItem sample_item.["id"]
                 {[ "status" := JStr "approved"; "needs_review" := JBool false;
                    "review_reasons" := JNull;
                    "edit_reason" := JStr "human_approved" ]})
              patched]
      ∧ Forall refresh_or_warning mid
      ∧ (∀ e, created = Thrown e → mid = [EvWarn "createTask failed" e])
      ∧ match patched with
        | Returned raw =>
            result res = Returned tt
            ∧ items (final res)
              = replace_by_id sample_item.["id"] (normalizeItem raw)
                  (items sample_state)
            ∧ ∀ n i, sample_item.["id"] = JNum n →
                     items sample_state !! i = Some sample_item →
                     items (final res) !! i = Some (normalizeItem raw)
        | Thrown e => result res = Thrown e
        end.
Proof.
  intros w res.
  assert (Hkind : sample_item.["kind"] = JStr "action_item")
    by (vm_compute; reflexivity).
  assert (Hws : truthy (workspaceId sample_state) = true) by reflexivity.
  split; [exact Hkind |]. split; [exact Hws |].
  exact (approveItem_action_item scripted sample_state w sample_item Hkind Hws).
Defined.

Example sample_approval_survives_task_failure :
  let w := answers [Thrown "Request failed: 500";
                    Returned (<["status" := JStr "approved"]> sample_item)] [] [] in
  let res := run scripted (approveItem sample_state sample_item) sample_state w in
  result res = Returned tt
  ∧ (items (final res) !! 0%nat)
    = Some (normalizeItem (<["status" := JStr "approved"]> sample_item))
  ∧ tasks (final res) = tasks sample_state.
Proof. intros w res. repeat split; vm_compute; reflexivity. Qed.

Lemma busy_during_mutation_witness :
  let w := answers [Returned (<["status" := JStr "rejected"]> sample_item)] []
             [Some "duplicate"] in
  let res := run scripted (perform sample_state (Reject sample_item))
               sample_state w in
  target (Reject sample_item) = Some (JNum 11)
  ∧ awaited (trace res) ≠ []
  ∧ Forall (λ s, busy s (JNum 11) = true) (awaited (trace res))
  ∧ prompted (trace res) = [sample_state]
  ∧ busy (final res) (JNum 11) = false.
Proof.
  intros w res.
  assert (Htarget : target (Reject sample_item) = Some (JNum 11))
    by (vm_compute; reflexivity).
  split; [exact Htarget |].
  destruct (busy_during_mutation scripted sample_state w (Reject sample_item)
              (JNum 11) Htarget) as (Hsome & Hduring & Hprompt & Hafter & _).
  split; [exact Hsome |]. split; [exact Hduring |].
  split; [exact Hprompt | exact Hafter].
Defined.

(** C9, as stated, fails: while the prompt of a reject is open, the busy
    flag of the item is not set on screen yet. *)
Lemma reject_prompt_not_busy :
  let w := answers [Returned (<["status" := JStr "rejected"]> sample_item)] []
             [Some "duplicate"] in
  let res := run scripted (perform sample_state (Reject sample_item))
               sample_state w in
  ¬ Forall (λ s, busy s (JNum 11) = true) (suspended (trace res)).
Proof.
  intros w res Hall.
  assert (Hfirst : head (suspended (trace res)) = Some sample_state)
    by (vm_compute; reflexivity).
  destruct (suspended (trace res)) as [| s0 rest]; [discriminate Hfirst |].
  injection Hfirst as ->. apply Forall_inv in Hall.
  vm_compute in Hall. discriminate Hall.
Qed.

(** C4, as stated, fails: a [markDone] whose request fails has already
    replaced the undo record. *)
Lemma failed_markDone_changes_undo_record :
  let w := answers [Thrown "Request failed: 500"] [] [] in
  let res := run scripted (perform sample_state (MarkDone (JNum 7)))
               sample_state w in
  ¬ (result res = Thrown "Request failed: 500" →
     tasks (final res) = tasks sample_state
     ∧ items (final res) = items sample_state
     ∧ lastDone (final res) = lastDone sample_state).
Proof.
  intros w res Hatomic.
  destruct Hatomic as (_ & _ & Hundo); [vm_compute; reflexivity |].
  vm_compute in Hundo. discriminate Hundo.
Qed.

Lemma failed_mutation_witness :
  let w := answers [Thrown "Request failed: 500"] [] [Some "duplicate"] in
  let res := run scripted (perform sample_state (Reject sample_item))
               sample_state w in
  last (trace res)
  = Some (EvObj (setBusyIds (const {[ "11" := true ]}) sample_state)
            (patchExtractedItem (JNum 11) (reject_patch (JStr "duplicate")))
            (Thrown "Request failed: 500"))
  ∧ result res = Thrown "Request failed: 500"
  ∧ items (final res) = items sample_state
  ∧ lastDone (final res) = lastDone sample_state
  ∧ tasks (final res) = tasks sample_state.
Proof.
  intros w res.
  assert (Hlast : last (trace res)
    = Some (EvObj (setBusyIds (const {[ "11" := true ]}) sample_state)
              (patchExtractedItem (JNum 11) (reject_patch (JStr "duplicate")))
              (Thrown "Request failed: 500")))
    by (vm_compute; reflexivity).
  split; [exact Hlast |].
  exact (failed_mutation scripted sample_state w (Reject sample_item) _ _ _ Hlast).
Defined.

Lemma markDone_then_undo_witness :
  let done := <["status" := JStr "done"]> sample_task in
  let w := answers [Returned done; Returned sample_task] [] [] in
  let w1 := answers [Returned sample_task] [] [] in
  let w2 := answers [] [] [] in
  let marked := run scripted (handleMarkDone sample_state (JNum 7)) sample_state w in
  let undone := run scripted (handleUndo (final marked)) (final marked)
                  (world marked) in
  List.find (λ x, x.["id"] === JNum 7) (tasks sample_state) = Some sample_task
  ∧ fetch_obj scripted w (patchTask (JNum 7) {[ "status" := JStr "done" ]})
    = (w1, Returned done)
  ∧ (done.["id"] === JNum 7) = true
  ∧ fetch_obj scripted w1
      (patchTask (JNum 7) {[ "status" := sample_task.["status"] ]})
    = (w2, Returned sample_task)
  ∧ canUndo (final marked) = true
  ∧ (∃ i, tasks sample_state !! i = Some sample_task
          ∧ tasks (final undone) !! i = Some sample_task)
  ∧ canUndo (final undone) = false.
Proof.
  intros done w w1 w2 marked undone.
  assert (H1 : List.find (λ x, x.["id"] === JNum 7) (tasks sample_state)
               = Some sample_task) by (vm_compute; reflexivity).
  assert (H2 : fetch_obj scripted w (patchTask (JNum 7) {[ "status" := JStr "done" ]})
               = (w1, Returned done)) by reflexivity.
  assert (H3 : (done.["id"] === JNum 7) = true) by (vm_compute; reflexivity).
  assert (H4 : fetch_obj scripted w1
                 (patchTask (JNum 7) {[ "status" := sample_task.["status"] ]})
               = (w2, Returned sample_task)) by reflexivity.
  destruct (markDone_then_undo scripted sample_state w w1 w2 (JNum 7)
              sample_task done sample_task H1 H2 H3 H4 eq_refl)
    as (_ & Hcan & _ & _ & _ & Hback & _ & Hcannot & _).
  repeat (split; [assumption |]). exact Hcannot.
Defined.

Example sample_markDone_then_undo :
  let done := <["status" := JStr "done"]> sample_task in
  let w := answers [Returned done; Returned sample_task] [] [] in
  let marked := run scripted (handleMarkDone sample_state (JNum 7)) sample_state w in
  let undone := run scripted (handleUndo (final marked)) (final marked)
                  (world marked) in
  tasks (final marked) = [done]
  ∧ lastDone (final marked)
    = Some {| taskId := JNum 7; prevStatus := JStr "in_progress" |}
  ∧ tasks (final undone) = [sample_task]
  ∧ lastDone (final undone) = None.
Proof. intros done w marked undone. repeat split; vm_compute; reflexivity. Qed.

Lemma refreshExtractions_selection_witness :
  let runs := [sample_run 4 "processing"; sample_run 3 "complete"] in
  let raw := {[ "id" := JNum 21; "title" := JStr "Agree on the date" ]} : obj in
  let wa := answers [] [Returned runs; Returned [raw]] [] in
  let wb := answers [] [Returned [sample_run 4 "processing"]; Returned [raw]] [] in
  let wc := answers [] [Returned []] [] in
  (truthy (meetingId sample_fresh) = true
   ∧ truthy (selectedExtractionId sample_fresh) = false
   ∧ selectedExtractionId
       (final (run scripted (refreshExtractions sample_fresh) sample_fresh wa))
     = JNum 4)
  ∧ (truthy (selectedExtractionId sample_state) = true
     ∧ selectedExtractionId
         (final (run scripted (refreshExtractions sample_state) sample_state wb))
       = JNum 4)
  ∧ (object_is (selectedMeetingId sample_state) (JNum 6) = false
     ∧ items (final (run scripted (selectMeeting 2 (JNum 6)) sample_state wc))
       = []
     ∧ activeExtraction
         (final (run scripted (selectMeeting 2 (JNum 6)) sample_state wc))
       = None).
Proof.
  intros runs raw wa wb wc.
  destruct (refreshExtractions_selection scripted) as (Ha & Hb & Hc).
  split; [| split].
  - split; [reflexivity |]. split; [reflexivity |].
    refine (proj1 (proj2 (Ha sample_fresh wa
      (answers [] [Returned [raw]] []) (sample_run 4 "processing")
      [sample_run 3 "complete"] _ _ _ _))); reflexivity.
  - split; [reflexivity |].
    refine (proj2 (Hb sample_state wb (answers [] [Returned [raw]] [])
      [sample_run 4 "processing"] _ _ _ _)); reflexivity.
  - split; [reflexivity |].
    assert (Hid : is_id (selectedExtractionId sample_state))
      by (right; by exists 3%Z).
    assert (Hm : is_id (JNum 6)) by (right; by exists 6%Z).
    destruct (Hc sample_state wc (answers [] [] []) (JNum 6) 2%nat Hid Hm
                eq_refl eq_refl eq_refl (le_n 2))
      as (_ & _ & _ & Hnone & Hitems).
    split; [exact Hitems | exact Hnone].
Defined.

(** C6, as stated, fails: after a run was started while the run list came
    back empty, no run is selected but the items of the new run are shown;
    choosing a meeting without runs then leaves those items on screen. *)
Lemma meeting_switch_keeps_stale_items :
  let raw := <["id" := JNum 20]> sample_item in
  let started :=
    run scripted (startExtraction sample_state) sample_state
      (answers [Returned (sample_run 9 "processing")]
         [Returned []; Returned [raw]] []) in
  let res := run scripted (selectMeeting 2 (JNum 6)) (final started)
               (answers [] [Returned []] []) in
  result started = Returned tt
  ∧ selectedExtractionId (final started) = JNull
  ∧ object_is (selectedMeetingId (final started)) (JNum 6) = false
  ∧ selectedMeetingId (final res) = JNum 6
  ∧ extractions (final res) = []
  ∧ activeExtraction (final res) = None
  ∧ items (final res) = [normalizeItem raw]
  ∧ items (final res) ≠ [].
Proof.
  intros raw started res.
  assert (Hitems : items (final res) = [normalizeItem raw])
    by (vm_compute; reflexivity).
  repeat split; try (vm_compute; reflexivity).
  rewrite Hitems. discriminate.
Qed.

Lemma polling_schedule_witness :
  let p := poll_commit sample_polling unmounted in
  let w := answers [] [Returned [sample_run 4 "complete"]; Returned []] [] in
  (p = unmounted ∨ mounted p)
  ∧ can_tick p 1%positive
  ∧ (∀ h, ¬ can_tick (poll_commit sample_state p) h)
  ∧ (∃ h r0, timers (poll_commit sample_polling p)
             = {[ h := {| period := 1500; captured := r0 |} ]}
             ∧ (truthy (meetingId r0) = true →
                ∃ s1 listed rest,
                  trace (run scripted
                           (callback {| period := 1500; captured := r0 |})
                           sample_polling w)
                  = EvList s1 (listExtractions (meetingId r0)) listed :: rest)).
Proof.
  intros p w.
  assert (Hmounted : p = unmounted ∨ mounted p) by (right; apply mounted_first).
  split; [exact Hmounted |].
  split; [vm_compute; eauto |].
  split.
  - destruct (polling_schedule p sample_state Hmounted)
      as (_ & _ & Hterminal & _).
    apply (Hterminal (sample_run 3 "complete")); [reflexivity | by left].
  - destruct (polling_schedule p sample_polling Hmounted) as (Hproc & _).
    destruct Hproc as (h & r0 & _ & Htimers & _ & _ & Htick).
    + exists (sample_run 4 "processing"). split; reflexivity.
    + exists h, r0. split; [exact Htimers |]. intros Hmeeting.
      destruct (Htick Script scripted sample_polling w) as (Hfirst & _).
      destruct (Hfirst Hmeeting) as (s1 & listed & rest & Htrace & _).
      by exists s1, listed, rest.
Defined.

Example sample_poll_cancelled :
  let p := poll_commit sample_polling unmounted in
  timers p = {[ 1%positive := {| period := 1500; captured := sample_polling |} ]}
  ∧ timers (poll_commit sample_state p) = ∅
  ∧ pollRef (poll_commit sample_state p) = None.
Proof. intros p. repeat split; vm_compute; reflexivity. Qed.

(** * Further properties *)

Local Arguments String.eqb : simpl never.
Local Arguments to_string : simpl never.

(** ** The filter buttons *)

Lemma filter_length_ext {A} (f g : A → bool) (l : list A) :
  (∀ x, f x = g x) → length (List.filter f l) = length (List.filter g l).
Proof.
  intros Hfg. induction l as [| x l IH]; simpl; [done |].
  rewrite Hfg. destruct (g x); simpl; by rewrite IH.
Qed.

Lemma coalesce_pending_eq v s :
  s ≠ "pending" → ((v ?? JStr "pending") === JStr s) = (v === JStr s).
Proof.
  intros Hs. unfold coalesce. destruct v; simpl; try done;
    apply String.eqb_neq; congruence.
Qed.

(** X1: on every item list the number on a filter button is the number of
    cards its view shows, although the approved and rejected counts test
    [i.status] where the views test [i.status ?? "pending"]. *)
Theorem button_count_is_view_length (items : list obj) (f : ReviewFilter) :
  button_count f items = length (filteredItems items f).
Proof.
  destruct f; simpl; try reflexivity;
    apply filter_length_ext; intros it; symmetry;
    by apply coalesce_pending_eq.
Qed.

(** X2: the three status counts never add up to more than the count of
    [All], and they add up to it exactly when the status every card shows is
    one of the three review statuses. *)
Theorem button_counts_partition (items : list obj) :
  (button_count pending items + button_count approved items
     + button_count rejected items ≤ button_count all items)%nat
  ∧ ((button_count pending items + button_count approved items
        + button_count rejected items)%nat = button_count all items
     ↔ Forall (λ it, review_status (shown_status it)) items).
Proof.
  unfold button_count, shown_status, review_status.
  induction items as [| it items [IHle IHeq]]; simpl.
  - split; [lia |]. split; [constructor | done].
  - rewrite Forall_cons.
    assert (Hcases :
      (it.["status"] ?? JStr "pending") = JStr "pending"
        ∧ ((it.["status"] ?? JStr "pending") === JStr "pending") = true
        ∧ (it.["status"] === JStr "approved") = false
        ∧ (it.["status"] === JStr "rejected") = false
      ∨ it.["status"] = JStr "approved"
        ∧ ((it.["status"] ?? JStr "pending") === JStr "pending") = false
        ∧ (it.["status"] === JStr "approved") = true
        ∧ (it.["status"] === JStr "rejected") = false
      ∨ it.["status"] = JStr "rejected"
        ∧ ((it.["status"] ?? JStr "pending") === JStr "pending") = false
        ∧ (it.["status"] === JStr "approved") = false
        ∧ (it.["status"] === JStr "rejected") = true
      ∨ ¬ review_status (it.["status"] ?? JStr "pending")
        ∧ ((it.["status"] ?? JStr "pending") === JStr "pending") = false
        ∧ (it.["status"] === JStr "approved") = false
        ∧ (it.["status"] === JStr "rejected") = false).
    { unfold review_status, coalesce.
      destruct (it.["status"]) as [| | b | n | s | l | o] eqn:Hst; simpl;
        try (left; done);
        try (right; right; right; split; [by intros [? | [? | ?]] | done]).
      destruct (String.eqb s "pending") eqn:Hp.
      { apply String.eqb_eq in Hp as ->. by left. }
      destruct (String.eqb s "approved") eqn:Ha.
      { apply String.eqb_eq in Ha as ->. right. by left. }
      destruct (String.eqb s "rejected") eqn:Hr.
      { apply String.eqb_eq in Hr as ->. right. right. by left. }
      right. right. right. split; [| done].
      apply String.eqb_neq in Hp, Ha, Hr. intros [? | [? | ?]]; congruence. }
    destruct Hcases as [(Hs & -> & -> & ->) | [(Hs & -> & -> & ->)
                       | [(Hs & -> & -> & ->) | (Hs & -> & -> & ->)]]]; simpl.
    + split; [lia |]. rewrite <- IHeq. unfold review_status.
      split; [intros ?; split; [by left | lia] | intros [_ ?]; lia].
    + split; [lia |]. rewrite <- IHeq, Hs. unfold coalesce. simpl.
      split; [intros ?; split; [right; by left | lia] | intros [_ ?]; lia].
    + split; [lia |]. rewrite <- IHeq, Hs. unfold coalesce. simpl.
      split; [intros ?; split; [right; by right | lia] | intros [_ ?]; lia].
    + split; [lia |]. split; [lia | by intros [? _]].
Qed.

(** ** Loading runs and items *)

(** Case analysis on the next answer of the world [E]. *)
Ltac answer_of E :=
  match goal with
  | |- context [fetch_obj E ?w ?q] =>
      let w' := fresh "w" in let a := fresh "a" in let e := fresh "e" in
      let H := fresh "Hfetch" in
      destruct (fetch_obj E w q) as [w' [a | e]] eqn:H; simpl
  | |- context [fetch_list E ?w ?q] =>
      let w' := fresh "w" in let a := fresh "a" in let e := fresh "e" in
      let H := fresh "Hfetch" in
      destruct (fetch_list E w q) as [w' [a | e]] eqn:H; simpl
  | |- context [ask E ?w ?q] =>
      let w' := fresh "w" in let a := fresh "a" in
      let H := fresh "Hask" in
      destruct (ask E w q) as [w' a] eqn:H; simpl
  end.

Ltac unfold_handlers :=
  repeat (progress (unfold mbind, mret, async_mbind, async_ret, set, setBusy,
                      await_obj, await_list, window_prompt, console_warn,
                      onTasksChanged, refreshTasks, task_payload,
                      approve_patch, logged; simpl)).

Section Loading.
Context {W : Type} (E : World W).

(** X3: [refreshItems] without a run identifier empties the item list and
    asks the server nothing.  With one it sends a single request, during
    which [loadingItems] is set; afterwards [loadingItems] is cleared
    whether the request returned or threw; an answer replaces the whole
    list by its normalized records, a failure throws and leaves the list as
    it was. *)
Theorem refreshItems_spec (id : jsval) (s : State) (w : W) :
  let res := run E (refreshItems id) s w in
  (truthy id = false →
     trace res = [] ∧ result res = Returned tt ∧ world res = w
     ∧ final res = setItems (const []) s)
  ∧ (truthy id = true →
       ∃ s1 loaded,
         trace res = [EvList s1 (listExtractionItems id) loaded]
         ∧ loadingItems s1 = true ∧ items s1 = items s
         ∧ loadingItems (final res) = false
         ∧ match loaded with
           | Returned raws =>
               result res = Returned tt
               ∧ items (final res) = map normalizeItem raws
           | Thrown e => result res = Thrown e ∧ items (final res) = items s
           end).
Proof.
  intros res. subst res. unfold refreshItems.
  split; intros ->; unfold_handlers; [done |].
  answer_of E; eexists _, _; (split; [reflexivity |]); done.
Qed.

(** X4: when [refreshExtractions] selects nothing anew.  Without a meeting
    it forgets the runs and the selection and asks the server nothing; the
    items stay until the selection effect runs.  When the run list cannot
    be loaded it throws the error of the request and keeps the runs, the
    selection and the items it had.  When the selected run is still in the
    refreshed list it only replaces the list: the selection and the items
    stay.  In the last two cases the list request is the only one sent and
    [loadingExtractions] is cleared at the end. *)
Theorem refreshExtractions_no_reselection (r s : State) (w : W) :
  let res := run E (refreshExtractions r) s w in
  let kept :=
    length (trace res) = 1%nat
    ∧ selectedExtractionId (final res) = selectedExtractionId s
    ∧ items (final res) = items s
    ∧ loadingExtractions (final res) = false in
  (truthy (meetingId r) = false →
     trace res = [] ∧ result res = Returned tt
     ∧ extractions (final res) = []
     ∧ selectedExtractionId (final res) = JNull
     ∧ items (final res) = items s
     ∧ loadingExtractions (final res) = loadingExtractions s)
  ∧ (truthy (meetingId r) = true →
       match fetch_list E w (listExtractions (meetingId r)) with
       | (_, Thrown e) =>
           result res = Thrown e ∧ extractions (final res) = extractions s
           ∧ kept
       | (_, Returned exts) =>
           truthy (selectedExtractionId r) = true →
           existsb (λ e, e.["id"] === selectedExtractionId r) exts = true →
           result res = Returned tt ∧ extractions (final res) = exts ∧ kept
       end).
Proof.
  intros res kept. subst res kept. unfold refreshExtractions.
  split; intros Hm; rewrite Hm; unfold_handlers; [done |].
  destruct (fetch_list E w (listExtractions (meetingId r)))
    as [w1 [exts | e]] eqn:Hfetch; unfold_handlers; [| done].
  intros Hsel Hin. rewrite Hsel, Hin. simpl. by destruct exts.
Qed.

End Loading.

(** ** How runs compose *)

Section Composition.
Context {W : Type} (E : World W).

(** A handler without a prompt runs the same whatever was on screen. *)
Lemma run_shown_silent {A} (m : async A) (shown s : State) (w : W) :
  silent m → run_shown E m shown s w = run E m s w.
Proof.
  unfold run. revert shown s w.
  induction m as [x | g k IH | q k IH | q k IH | msg k IH
                 | msg e k IH | k IH]; intros shown s w Hm; simpl in *.
  - done.
  - by rewrite (IH shown (g s) w Hm), (IH s (g s) w Hm).
  - done.
  - done.
  - done.
  - by rewrite (IH shown s w Hm).
  - done.
Qed.

Lemma silent_bind {A B} (m : async A) (f : A → async B) :
  silent m → (∀ a, silent (f a)) → silent (m ≫= f).
Proof.
  unfold mbind, async_mbind. intros Hm Hf.
  induction m as [[a | e] | g k IH | q k IH | q k IH | msg k IH
                 | msg e k IH | k IH]; simpl in *; auto.
Qed.

Lemma silent_try_finally {A} (body : async A) (cleanup : async unit) :
  silent body → silent cleanup → silent (try_finally body cleanup).
Proof.
  intros Hb Hc.
  induction body as [x | g k IH | q k IH | q k IH | msg k IH
                    | msg e k IH | k IH]; simpl in *; auto.
  by apply silent_bind.
Qed.

Lemma silent_refreshItems (id : jsval) : silent (refreshItems id).
Proof.
  unfold refreshItems. destruct (negb (truthy id)); [done |].
  apply silent_bind; [done |]. intros _.
  apply silent_try_finally; [| done]. by apply silent_bind.
Qed.

Lemma silent_refreshExtractions (r : State) : silent (refreshExtractions r).
Proof.
  unfold refreshExtractions. destruct (negb (truthy (meetingId r))); [done |].
  apply silent_bind; [done |]. intros _.
  apply silent_try_finally; [| done].
  apply silent_bind; [done |]. intros exts.
  apply silent_bind; [done |]. intros _.
  destruct (negb (truthy (selectedExtractionId r))), exts as [| e0 exts'];
    try (apply silent_bind; [done |]; intros _; apply silent_refreshItems).
  all: destruct (_ && _); [| done].
  all: apply silent_bind; [done |]; intros _.
  all: try done.
  destruct (truthy e0.["id"]); [apply silent_refreshItems | done].
Qed.

(** The run of a sequence is the run of its first part followed, when that
    returns, by the run of the rest from the state and world it left. *)
Lemma run_shown_bind {A B} (m : async A) (f : A → async B)
    (shown s : State) (w : W) :
  (∀ a, silent (f a)) →
  run_shown E (m ≫= f) shown s w
  = let r1 := run_shown E m shown s w in
    match result r1 with
    | Returned a =>
        let r2 := run E (f a) (final r1) (world r1) in
        {| final := final r2; world := world r2;
           trace := trace r1 ++ trace r2; result := result r2 |}
    | Thrown e =>
        {| final := final r1; world := world r1; trace := trace r1;
           result := Thrown e |}
    end.
Proof.
  intros Hf. unfold mbind, async_mbind. revert shown s w.
  induction m as [[a | e] | g k IH | q k IH | q k IH | msg k IH
                 | msg e k IH | k IH]; intros shown s w; cbn [async_bind run_shown].
  - rewrite run_shown_silent by done. cbn [result final world trace].
    by destruct (run E (f a) s w).
  - done.
  - apply IH.
  - destruct (fetch_obj E w q) as [w' r]. rewrite IH. cbn.
    by destruct (result (run_shown E (k r) s s w')).
  - destruct (fetch_list E w q) as [w' r]. rewrite IH. cbn.
    by destruct (result (run_shown E (k r) s s w')).
  - destruct (ask E w msg) as [w' r]. rewrite IH. cbn.
    by destruct (result (run_shown E (k r) shown s w')).
  - rewrite IH. cbn. by destruct (result (run_shown E k shown s w)).
  - apply IH.
Qed.

Lemma run_bind {A B} (m : async A) (f : A → async B) (s : State) (w : W) :
  (∀ a, silent (f a)) →
  run E (m ≫= f) s w
  = let r1 := run E m s w in
    match result r1 with
    | Returned a =>
        let r2 := run E (f a) (final r1) (world r1) in
        {| final := final r2; world := world r2;
           trace := trace r1 ++ trace r2; result := result r2 |}
    | Thrown e =>
        {| final := final r1; world := world r1; trace := trace r1;
           result := Thrown e |}
    end.
Proof. apply run_shown_bind. Qed.

(** [try ... finally]: the cleanup runs after the body whatever its outcome,
    which is the outcome of the statement unless the cleanup throws. *)
Lemma run_shown_try_finally {A} (body : async A) (cleanup : async unit)
    (shown s : State) (w : W) :
  silent cleanup →
  run_shown E (try_finally body cleanup) shown s w
  = let rb := run_shown E body shown s w in
    let rc := run E cleanup (final rb) (world rb) in
    {| final := final rc; world := world rc;
       trace := trace rb ++ trace rc;
       result := match result rc with
                 | Returned _ => result rb
                 | Thrown e => Thrown e
                 end |}.
Proof.
  intros Hc. revert shown s w.
  induction body as [x | g k IH | q k IH | q k IH | msg k IH
                    | msg e k IH | k IH]; intros shown s w;
    cbn [try_finally run_shown].
  - change (async_bind (λ _ : (), Done x) cleanup)
      with (cleanup ≫= (λ _ : (), Done x)).
    rewrite run_shown_bind by done. rewrite run_shown_silent by done.
    cbn.
    destruct (run_shown E cleanup s s w) as [sf wf tr [[] | e]]; cbn;
      by rewrite ?app_nil_r.
  - apply IH.
  - destruct (fetch_obj E w q) as [w' r]. by rewrite IH.
  - destruct (fetch_list E w q) as [w' r]. by rewrite IH.
  - destruct (ask E w msg) as [w' r]. by rewrite IH.
  - by rewrite IH.
  - apply IH.
Qed.

Lemma run_try_finally {A} (body : async A) (cleanup : async unit)
    (s : State) (w : W) :
  silent cleanup →
  run E (try_finally body cleanup) s w
  = let rb := run E body s w in
    let rc := run E cleanup (final rb) (world rb) in
    {| final := final rc; world := world rc;
       trace := trace rb ++ trace rc;
       result := match result rc with
                 | Returned _ => result rb
                 | Thrown e => Thrown e
                 end |}.
Proof. apply run_shown_try_finally. Qed.

(** [try ... catch]: the handler runs only when the body throws, from the
    state the body left. *)
Lemma run_shown_try_catch {A} (body : async A) (handler : string → async A)
    (shown s : State) (w : W) :
  (∀ e, silent (handler e)) →
  run_shown E (try_catch body handler) shown s w
  = let rb := run_shown E body shown s w in
    match result rb with
    | Returned a => rb
    | Thrown e =>
        let rh := run E (handler e) (final rb) (world rb) in
        {| final := final rh; world := world rh;
           trace := trace rb ++ trace rh; result := result rh |}
    end.
Proof.
  intros Hh. revert shown s w.
  induction body as [[a | e] | g k IH | q k IH | q k IH | msg k IH
                    | msg e k IH | k IH]; intros shown s w;
    cbn [try_catch run_shown].
  - done.
  - rewrite run_shown_silent by done. cbn.
    by destruct (run_shown E (handler e) s s w).
  - apply IH.
  - destruct (fetch_obj E w q) as [w' r]. rewrite IH. cbn.
    by destruct (result (run_shown E (k r) s s w')),
                (run_shown E (k r) s s w').
  - destruct (fetch_list E w q) as [w' r]. rewrite IH. cbn.
    by destruct (result (run_shown E (k r) s s w')),
                (run_shown E (k r) s s w').
  - destruct (ask E w msg) as [w' r]. rewrite IH. cbn.
    by destruct (result (run_shown E (k r) shown s w')),
                (run_shown E (k r) shown s w').
  - rewrite IH. cbn.
    by destruct (result (run_shown E k shown s w)), (run_shown E k shown s w).
  - apply IH.
Qed.

Lemma run_try_catch {A} (body : async A) (handler : string → async A)
    (s : State) (w : W) :
  (∀ e, silent (handler e)) →
  run E (try_catch body handler) s w
  = let rb := run E body s w in
    match result rb with
    | Returned a => rb
    | Thrown e =>
        let rh := run E (handler e) (final rb) (world rb) in
        {| final := final rh; world := world rh;
           trace := trace rb ++ trace rh; result := result rh |}
    end.
Proof. apply run_shown_try_catch. Qed.

Lemma run_set_then {A} (f : State → State) (m : async A) (s : State) (w : W) :
  silent m → run E (set f ;; m) s w = run E m (f s) w.
Proof. intros Hm. cbn. by apply run_shown_silent. Qed.

End Composition.

(** ** Starting a run *)

(** State updates that leave a cell alone: a tactic for [keeps] goals about
    one cell of the state. *)
Ltac keeps_cell :=
  repeat first
    [ progress intros
    | apply keeps_bind
    | apply keeps_try_finally
    | apply keeps_try_catch
    | apply keeps_Done
    | apply keeps_SetState
    | apply keeps_AwaitObj
    | apply keeps_AwaitList
    | apply keeps_Prompt
    | apply keeps_ConsoleWarn
    | apply keeps_Render
    | match goal with
      | |- keeps _ (match ?x with _ => _ end) => destruct x
      | |- keeps _ (if ?c then _ else _) => destruct c
      end
    | done ].

Section Starting.
Context {W : Type} (E : World W).

Lemma refreshItems_keeps_cell (P : State → Prop) id :
  (∀ f s, P s → P (setItems f s)) →
  (∀ f s, P s → P (setLoadingItems f s)) →
  keeps P (refreshItems id).
Proof.
  intros Hitems Hloading. unfold refreshItems, set, await_list.
  keeps_cell; auto.
Qed.

Lemma refreshExtractions_keeps_cell (P : State → Prop) r :
  (∀ f s, P s → P (setItems f s)) →
  (∀ f s, P s → P (setLoadingItems f s)) →
  (∀ f s, P s → P (setExtractions f s)) →
  (∀ f s, P s → P (setSelectedExtractionId f s)) →
  (∀ f s, P s → P (setLoadingExtractions f s)) →
  keeps P (refreshExtractions r).
Proof.
  intros Hitems Hloading Hruns Hsel Hloading'.
  pose proof (refreshItems_keeps_cell P) as Hri.
  unfold refreshExtractions, set, await_list.
  keeps_cell; auto.
Qed.

(** X5: [startExtraction] without a meeting does nothing.  With one,
    [starting] is set in every state in which it waits for the server and
    is cleared when it ends, whether it returned or threw. *)
Theorem startExtraction_starting (r s : State) (w : W) :
  let res := run E (startExtraction r) s w in
  (truthy (meetingId r) = false →
     trace res = [] ∧ final res = s ∧ result res = Returned tt)
  ∧ (truthy (meetingId r) = true →
       suspended (trace res) ≠ []
       ∧ Forall (λ s', starting s' = true) (suspended (trace res))
       ∧ starting (final res) = false).
Proof.
  intros res. subst res. unfold startExtraction.
  split; intros ->; cbn [negb]; [done |].
  match goal with
  | |- context [try_finally ?b _] => assert (Hsilent : silent b)
  end.
  { apply silent_bind; [done |]. intros ext.
    apply silent_bind; [done |]. intros _.
    apply silent_bind; [apply silent_refreshExtractions |]. intros _.
    apply silent_refreshItems. }
  rewrite run_set_then by (by apply silent_try_finally).
  rewrite run_try_finally by done.
  set (body := (await_obj _ ≫= _)). simpl. rewrite app_nil_r.
  assert (Hbody : keeps (λ s', starting s' = true) body).
  { subst body. unfold await_obj, set.
    pose proof (refreshItems_keeps_cell (λ s', starting s' = true)) as Hri.
    pose proof (refreshExtractions_keeps_cell (λ s', starting s' = true)) as Hre.
    keeps_cell; auto. }
  destruct (run_keeps E _ body (setStarting (const true) s) w Hbody eq_refl)
    as [_ Hduring].
  split; [| split; [exact Hduring | reflexivity]].
  subst body. unfold await_obj, mbind, async_mbind. simpl.
  by destruct (fetch_obj E w _) as [w' ?].
Qed.

(** X6: when [startExtraction] returns, the items on screen are those of
    the new run, but the selection is the one made by [refreshExtractions]
    from the variables of the render that started the run: the new run when
    a run was selected before and is still listed, or when nothing was
    selected and the list is empty; otherwise the first listed run, or
    nothing when a run was selected and the list is empty. *)
Theorem startExtraction_outcome (r : State) (w w1 w2 : W) (ext : obj)
    (exts : list obj) :
  truthy (meetingId r) = true →
  fetch_obj E w (startExtractionReq (meetingId r) "hf_structured")
    = (w1, Returned ext) →
  truthy ext.["id"] = true →
  fetch_list E w1 (listExtractions (meetingId r)) = (w2, Returned exts) →
  let res := run E (startExtraction r) r w in
  result res = Returned tt →
  extractions (final res) = exts
  ∧ selectedExtractionId (final res)
    = match exts with
      | e0 :: _ =>
          if truthy (selectedExtractionId r)
             && existsb (λ e, e.["id"] === selectedExtractionId r) exts
          then ext.["id"] else e0.["id"]
      | [] => if truthy (selectedExtractionId r) then JNull else ext.["id"]
      end
  ∧ ∃ s' raws,
      last (trace res)
      = Some (EvList s' (listExtractionItems ext.["id"]) (Returned raws))
      ∧ items (final res) = map normalizeItem raws.
Proof.
  intros Hm Hstart Hid Hlist res. subst res.
  unfold startExtraction, refreshExtractions. rewrite Hm. unfold_handlers.
  rewrite Hstart. unfold_handlers. rewrite Hlist. unfold_handlers.
  destruct (truthy (selectedExtractionId r)) eqn:Hsel; simpl;
    destruct exts as [| e0 exts']; simpl; unfold_handlers.
  - unfold refreshItems. rewrite Hid. unfold_handlers.
    answer_of E; intros [=]. eauto 10.
  - destruct (_ || _) eqn:Hin; simpl; unfold_handlers.
    + unfold refreshItems. rewrite Hid. unfold_handlers.
      answer_of E; intros [=]. eauto 10.
    + unfold refreshItems.
      destruct (truthy e0.["id"]) eqn:Hid0; unfold_handlers;
        rewrite ?Hid; unfold_handlers;
        repeat (answer_of E; unfold_handlers); intros [=]; eauto 10.
  - unfold refreshItems. rewrite Hid. unfold_handlers.
    answer_of E; intros [=]. eauto 10.
  - unfold refreshItems.
    destruct (truthy e0.["id"]) eqn:Hid0; unfold_handlers;
      rewrite ?Hid; unfold_handlers;
      repeat (answer_of E; unfold_handlers); intros [=]; eauto 10.
Qed.

End Starting.

(** ** What a mutation leaves alone *)

Lemma only_replaces_refl id l : only_replaces id l l.
Proof. by split. Qed.

Lemma only_replaces_step id x l0 l :
  only_replaces id l0 l → only_replaces id l0 (replace_by_id id x l).
Proof.
  intros [Hlen Hkeep]. split; [by rewrite replace_by_id_length |].
  intros i p Hi Hp. rewrite (replace_by_id_lookup _ _ _ _ p); [| by apply Hkeep].
  by rewrite Hp.
Qed.

Section Frames.
Context {W : Type} (E : World W).

(** X7: an approve, reject or edit of item [id] never adds, removes or
    moves an item and never changes an item with another identifier, at any
    moment of its run and whatever the server answers; it never touches the
    undo record, the run list or the selection; reject and edit never touch
    the task list. *)
Theorem item_mutation_frame (r : State) (w : W) (op : mutation) (id : jsval) :
  target op = Some id →
  let res := run E (perform r op) r w in
  let untouched (s : State) :=
    only_replaces id (items r) (items s)
    ∧ lastDone s = lastDone r
    ∧ extractions s = extractions r
    ∧ selectedExtractionId s = selectedExtractionId r
    ∧ match op with Approve _ => True | _ => tasks s = tasks r end in
  untouched (final res) ∧ Forall untouched (suspended (trace res)).
Proof.
  intros Htarget res untouched. subst res. apply run_keeps.
  - destruct op as [item | item | itemId payload | |]; simpl in Htarget;
      try discriminate; injection Htarget as <-; subst untouched; simpl;
      unfold approveItem, rejectItem, editItem, onTasksChanged, refreshTasks,
        setBusy, set, await_obj, await_list, window_prompt, console_warn;
      keeps_cell;
      match goal with
      | H : _ ∧ _ |- _ =>
          destruct H as (Hitems & ? & ? & ? & ?); simpl;
          (split; [first [apply only_replaces_step | idtac]; exact Hitems
                  | repeat split; auto])
      end.
  - subst untouched. simpl. split; [apply only_replaces_refl |].
    repeat split. by destruct op.
Qed.

(** X8: [markDone] and [undo] never add, remove or move a task and never
    change a task with another identifier than the one they patch; they
    never touch the items, the runs or the selection. *)
Theorem task_mutation_frame (r : State) (w : W) (op : mutation) (id : jsval) :
  op = MarkDone id ∨ (op = Undo ∧ ∃ prev, lastDone r = Some {| taskId := id; prevStatus := prev |}) →
  let res := run E (perform r op) r w in
  only_replaces id (tasks r) (tasks (final res))
  ∧ items (final res) = items r
  ∧ extractions (final res) = extractions r
  ∧ selectedExtractionId (final res) = selectedExtractionId r
  ∧ busyIds (final res) = busyIds r.
Proof.
  intros Hop res. subst res.
  destruct Hop as [-> | [-> (prev & Hld)]]; simpl.
  - unfold handleMarkDone.
    destruct (List.find _ _) as [current |]; unfold_handlers;
      [| split; [apply only_replaces_refl | done]].
    answer_of E; (split; [| done]);
      [apply only_replaces_step |]; apply only_replaces_refl.
  - unfold handleUndo. rewrite Hld. unfold_handlers.
    answer_of E; (split; [| done]);
      [apply only_replaces_step |]; apply only_replaces_refl.
Qed.

(** X9: [editItem] sends one patch: the payload it was given, every field
    as it is, with [edit_reason] set to ['human_edit'] when the payload has
    none (absent, [null] or [undefined]) and kept otherwise.  An answer
    replaces the item in the list by its normalized record; a failure throws
    and leaves the list as it was. *)
Theorem editItem_spec (s : State) (w : W) (itemId : jsval) (payload : obj) :
  let res := run E (editItem itemId payload) s w in
  ∃ s1 sent patched,
    trace res = [EvObj s1 (patchExtractedItem itemId sent) patched]
    ∧ (∀ k, k ≠ "edit_reason" → sent !! k = payload !! k)
    ∧ sent.["edit_reason"]
      = (if nullish payload.["edit_reason"] then JStr "human_edit"
         else payload.["edit_reason"])
    ∧ match patched with
      | Returned raw =>
          result res = Returned tt
          ∧ items (final res) = replace_by_id itemId (normalizeItem raw) (items s)
      | Thrown e => result res = Thrown e ∧ items (final res) = items s
      end.
Proof.
  intros res. subst res. unfold editItem. unfold_handlers.
  answer_of E; eexists _, _, _; (split; [reflexivity |]);
    (split; [intros k Hk; by rewrite lookup_insert_ne |]);
    (split; [unfold prop at 1; by rewrite lookup_insert_eq |]); done.
Qed.

End Frames.

(** ** Polling, tick by tick *)

Lemma find_existsb {A} (f : A → bool) (l : list A) (x : A) :
  List.find f l = Some x → existsb f l = true.
Proof.
  intros [Hin Hf]%find_some. apply existsb_exists. eauto.
Qed.

(** A commit of a render whose run is not being processed leaves no timer. *)
Lemma poll_commit_idle (p : Poll) (r : State) :
  p = unmounted ∨ mounted p → ¬ processing r →
  timers (poll_commit r p) = ∅.
Proof.
  intros Hp Hnot.
  destruct (poll_commit_outcome r p Hp)
    as [(Hmounted & Heq & d & Hd & Hsame) | (_ & _ & [[Hproc _] | [_ Heq]])];
    [| done | by rewrite Heq].
  pose proof (mounted_inv p Hmounted) as Hinv.
  rewrite Heq. destruct (inv_deps p Hinv) as (d' & Hd' & Hiff).
  assert (d' = d) as -> by congruence.
  pose proof (inv_timers p Hinv) as Ht.
  destruct (pollRef p) as [h |] eqn:Href; [| done].
  destruct Hnot. apply processing_deps.
  apply (same_deps_processing _ _ Hsame), Hiff. eauto.
Qed.

Section Ticks.
Context {W : Type} (E : World W).

(** What a tick leaves when the run list is loaded and still holds the
    selected run: the new list, the same selection. *)
Lemma poll_tick_refreshes (rc s : State) (w w1 : W) (n : Z) (exts : list obj)
    (e : obj) :
  n ≠ 0%Z →
  selectedExtractionId s = JNum n →
  selectedExtractionId rc = JNum n →
  truthy (meetingId rc) = true →
  fetch_list E w (listExtractions (meetingId rc)) = (w1, Returned exts) →
  List.find (λ x, x.["id"] === JNum n) exts = Some e →
  let res := run E (poll_tick rc) s w in
  extractions (final res) = exts
  ∧ selectedExtractionId (final res) = JNum n
  ∧ activeExtraction (final res) = Some e.
Proof.
  intros Hn Hs Hrc Hm Hfetch Hfind res.
  assert (Htruthy : negb (n =? 0)%Z = true).
  { by destruct (Z.eqb_spec n 0). }
  pose proof (find_existsb _ _ _ Hfind) as Hin.
  subst res. unfold poll_tick, refreshExtractions. rewrite Hm, Hrc.
  unfold_handlers. rewrite Hfetch. unfold_handlers.
  rewrite Htruthy, Hin. simpl.
  destruct exts as [| e0 exts']; [discriminate |]. simpl.
  unfold refreshItems. simpl. rewrite Htruthy. unfold_handlers.
  answer_of E; (split; [done |]); (split; [done |]);
    unfold activeExtraction; simpl; rewrite Hs; simpl; rewrite Htruthy;
    exact Hfind.
Qed.

(** X10: a tick of the polling timer that finds the selected run
    ['complete'] or ['failed'] in the refreshed list is the last one: the
    commit that follows it leaves no timer, whatever becomes of the item
    request of that tick. *)
Theorem tick_observes_terminal (p : Poll) (s : State) (w w1 : W) (h : positive)
    (t : Timer) (n : Z) (exts : list obj) (e : obj) :
  mounted p →
  timers p !! h = Some t →
  n ≠ 0%Z →
  selectedExtractionId s = JNum n →
  selectedExtractionId (captured t) = JNum n →
  truthy (meetingId (captured t)) = true →
  fetch_list E w (listExtractions (meetingId (captured t))) = (w1, Returned exts) →
  List.find (λ x, x.["id"] === JNum n) exts = Some e →
  e.["status"] = JStr "complete" ∨ e.["status"] = JStr "failed" →
  let res := run E (callback t) s w in
  let p' := poll_commit (final res) p in
  activeExtraction (final res) = Some e
  ∧ pollRef p' = None
  ∧ timers p' = ∅
  ∧ ¬ can_tick p' h.
Proof.
  intros Hmounted Ht Hn Hs Hrc Hm Hfetch Hfind Hstatus res p'.
  destruct (poll_tick_refreshes (captured t) s w w1 n exts e
              Hn Hs Hrc Hm Hfetch Hfind) as (_ & _ & Hactive).
  fold (callback t) in Hactive. fold res in Hactive.
  assert (Hidle : ¬ processing (final res)).
  { intros (e' & He' & Hp). rewrite Hactive in He'. injection He' as <-.
    destruct Hstatus; congruence. }
  assert (Hnone : timers p' = ∅) by (apply poll_commit_idle; auto).
  split; [exact Hactive |]. split; [| split; [exact Hnone |]].
  - pose proof (poll_commit_inv (final res) p (mounted_inv p Hmounted)) as Hinv'.
    fold p' in Hinv'. pose proof (inv_timers p' Hinv') as Htimers.
    destruct (pollRef p') as [h' |]; [| done].
    destruct Htimers as (r0 & Heq & _). rewrite Hnone in Heq.
    symmetry in Heq. by apply map_non_empty_singleton in Heq.
  - intros [t' Ht']. by rewrite Hnone, lookup_empty in Ht'.
Qed.

(** X11: a tick that finds the selected run still ['processing'] changes
    nothing about the timer: the next commit does not run the effect again,
    so the same timer goes on, it is not cancelled and created anew. *)
Theorem tick_observes_processing (p : Poll) (s : State) (w w1 : W) (h : positive)
    (t : Timer) (n : Z) (exts : list obj) (e : obj) :
  mounted p →
  timers p !! h = Some t →
  n ≠ 0%Z →
  selectedExtractionId s = JNum n →
  selectedExtractionId (captured t) = JNum n →
  truthy (meetingId (captured t)) = true →
  fetch_list E w (listExtractions (meetingId (captured t))) = (w1, Returned exts) →
  List.find (λ x, x.["id"] === JNum n) exts = Some e →
  e.["status"] = JStr "processing" →
  let res := run E (callback t) s w in
  poll_commit (final res) p = p ∧ can_tick (poll_commit (final res) p) h.
Proof.
  intros Hmounted Ht Hn Hs Hrc Hm Hfetch Hfind Hstatus res.
  destruct (poll_tick_refreshes (captured t) s w w1 n exts e
              Hn Hs Hrc Hm Hfetch Hfind) as (_ & Hsel & Hactive).
  fold (callback t) in Hsel, Hactive. fold res in Hsel, Hactive.
  pose proof (mounted_inv p Hmounted) as Hinv.
  pose proof (inv_timers p Hinv) as Htimers.
  destruct (pollRef p) as [h' |] eqn:Href;
    [| by rewrite Htimers, lookup_empty in Ht].
  destruct Htimers as (r0 & Heq & Hproc & Hdeps).
  rewrite Heq in Ht. apply lookup_singleton_Some in Ht as [<- <-].
  simpl in Hrc.
  assert (Hsame : poll_commit (final res) p = p).
  { unfold poll_commit. rewrite Hdeps.
    assert (same_deps (poll_deps r0) (poll_deps (final res)) = true) as ->;
      [| done].
    destruct Hproc as (e0 & He0 & Hs0).
    unfold same_deps, poll_deps, object_is.
    rewrite He0, Hs0, Hactive, Hstatus, Hrc, Hsel. simpl.
    by rewrite ?String.eqb_refl, ?Z.eqb_refl. }
  split; [exact Hsame |]. rewrite Hsame.
  unfold can_tick. rewrite Heq, lookup_singleton_eq. eauto.
Qed.

(** X12: a mounted panel never has two polling timers: the window holds at
    most one, the one [pollRef] names, with a period of 1500 ms; and
    unmounting the panel leaves none. *)
Theorem polling_single_timer (p : Poll) :
  mounted p →
  (size (timers p) ≤ 1)%nat
  ∧ (∀ h t, timers p !! h = Some t → pollRef p = Some h ∧ period t = 1500%Z)
  ∧ timers (poll_unmount p) = ∅.
Proof.
  intros Hmounted. pose proof (mounted_inv p Hmounted) as Hinv.
  pose proof (inv_timers p Hinv) as Htimers.
  split; [| split; [| by apply poll_unmount_clears]].
  - destruct (pollRef p) as [h |].
    + destruct Htimers as (r0 & -> & _). by rewrite map_size_singleton.
    + rewrite Htimers, map_size_empty. lia.
  - intros h t Ht. destruct (pollRef p) as [h' |].
    + destruct Htimers as (r0 & Heq & _). rewrite Heq in Ht.
      by apply lookup_singleton_Some in Ht as [<- <-].
    + by rewrite Htimers, lookup_empty in Ht.
Qed.

End Ticks.

Section SameMeeting.
Context {W : Type} (E : World W).

(** X13: choosing the meeting that is already selected asks the server
    nothing and changes nothing, however many renders follow. *)
Theorem selectMeeting_same (r : State) (w : W) (m : jsval) (commits : nat) :
  is_id m → is_id (selectedExtractionId r) →
  object_is (selectedMeetingId r) m = true →
  let res := run E (selectMeeting commits m) r w in
  trace res = [] ∧ world res = w ∧ result res = Returned tt
  ∧ final res = setSelectedMeetingId (const m) r
  ∧ m = selectedMeetingId r.
Proof.
  intros Hm Hsel Hsame res. subst res. unfold selectMeeting.
  unfold set, mbind, async_mbind. simpl.
  rewrite settle_quiet_shown; try done.
  - repeat split. unfold object_is in Hsame.
    destruct Hm as [-> | [k ->]]; destruct (selectedMeetingId r);
      simpl in Hsame; try discriminate; try done.
    by apply Z.eqb_eq in Hsame as ->.
  - by apply object_is_id.
Qed.

End SameMeeting.

(** ** Text *)

Example parseEmails_sample :
  parseEmails ("A@x.org, b@x.org" +:+ String (Ascii.ascii_of_nat 10) "a@X.org ,,  c@x.org ")
  = ["a@x.org"; "b@x.org"; "c@x.org"].
Proof. vm_compute. reflexivity. Qed.

Example split_sample :
  split_separators ",a, b," = [""; "a"; "b"; ""] ∧ split_separators "" = [""].
Proof. split; reflexivity. Qed.

Example meeting_title_samples :
  meeting_title "standup.TXT" = "standup"
  ∧ meeting_title ".txt" = "New Meeting"
  ∧ meeting_title "notes.txt.txt" = "notes.txt"
  ∧ meeting_title "minutes.md" = "minutes.md".
Proof. repeat split; reflexivity. Qed.

Lemma lower_char_space c : is_space (lower_char c) = is_space c.
Proof. destruct c as [[] [] [] [] [] [] [] []]; reflexivity. Qed.

Lemma lower_char_separator c : is_separator (lower_char c) = is_separator c.
Proof. destruct c as [[] [] [] [] [] [] [] []]; reflexivity. Qed.

Lemma lower_char_idem c : lower_char (lower_char c) = lower_char c.
Proof. destruct c as [[] [] [] [] [] [] [] []]; reflexivity. Qed.

Lemma string_app_cons x (a b : string) : String x a +:+ b = String x (a +:+ b).
Proof. reflexivity. Qed.

Lemma string_app_nil_l (b : string) : "" +:+ b = b.
Proof. reflexivity. Qed.

Lemma string_app_assoc (a b c : string) : (a +:+ b) +:+ c = a +:+ (b +:+ c).
Proof.
  induction a as [| x a IH]; [done |]. by rewrite !string_app_cons, IH.
Qed.

Lemma string_app_nil_r (a : string) : a +:+ "" = a.
Proof.
  induction a as [| x a IH]; [done |]. by rewrite string_app_cons, IH.
Qed.

Lemma string_all_app P (a b : string) :
  string_all P (a +:+ b) = string_all P a && string_all P b.
Proof.
  induction a as [| x a IH]; [done |].
  rewrite string_app_cons. simpl. by rewrite IH, andb_assoc.
Qed.

Lemma toLowerCase_idem s : toLowerCase (toLowerCase s) = toLowerCase s.
Proof.
  induction s as [| c s IH]; simpl; [done |]. by rewrite lower_char_idem, IH.
Qed.

Lemma toLowerCase_empty s : toLowerCase s = "" ↔ s = "".
Proof. by destruct s. Qed.

Lemma toLowerCase_trim_start s :
  trim_start (toLowerCase s) = toLowerCase (trim_start s).
Proof.
  induction s as [| c s IH]; simpl; [done |]. rewrite lower_char_space.
  by destruct (is_space c).
Qed.

Lemma toLowerCase_trim_end s :
  trim_end (toLowerCase s) = toLowerCase (trim_end s).
Proof.
  induction s as [| c s IH]; simpl; [done |]. rewrite IH, lower_char_space.
  destruct (trim_end s); simpl; [by destruct (is_space c) | done].
Qed.

Lemma toLowerCase_trim s : trim (toLowerCase s) = toLowerCase (trim s).
Proof. unfold trim. by rewrite toLowerCase_trim_start, toLowerCase_trim_end. Qed.

Lemma toLowerCase_no_separator s :
  string_all (λ c, negb (is_separator c)) (toLowerCase s)
  = string_all (λ c, negb (is_separator c)) s.
Proof.
  induction s as [| c s IH]; simpl; [done |].
  by rewrite lower_char_separator, IH.
Qed.

Lemma trim_start_all P s : string_all P s = true → string_all P (trim_start s) = true.
Proof.
  induction s as [| c s IH]; simpl; [done |].
  intros [Hc Hs]%andb_true_iff. destruct (is_space c); [auto |].
  simpl. by rewrite Hc, Hs.
Qed.

Lemma trim_end_all P s : string_all P s = true → string_all P (trim_end s) = true.
Proof.
  induction s as [| c s IH]; simpl; [done |].
  intros [Hc Hs]%andb_true_iff. specialize (IH Hs).
  destruct (trim_end s) as [| c' t]; simpl.
  - destruct (is_space c); simpl; [done | by rewrite Hc].
  - simpl in IH. by rewrite Hc, IH.
Qed.

Lemma trim_start_idem s : trim_start (trim_start s) = trim_start s.
Proof.
  induction s as [| c s IH]; simpl; [done |].
  destruct (is_space c) eqn:Hc; [done |]. simpl. by rewrite Hc.
Qed.

Lemma trim_end_idem s : trim_end (trim_end s) = trim_end s.
Proof.
  induction s as [| c s IH]; simpl; [done |].
  destruct (trim_end s) as [| c' t] eqn:Ht.
  - destruct (is_space c) eqn:Hc; simpl; [done | by rewrite Hc].
  - change (trim_end (String c (String c' t)))
      with (match trim_end (String c' t) with
            | EmptyString => if is_space c then EmptyString else String c EmptyString
            | t' => String c t'
            end).
    by rewrite IH.
Qed.

(** Trimming the end leaves the first character where it is. *)
Lemma trim_start_trim_end s :
  trim_start s = s → trim_start (trim_end s) = trim_end s.
Proof.
  destruct s as [| c s]; simpl; [done |].
  destruct (is_space c) eqn:Hc.
  - intros Heq. exfalso.
    assert (Hlen : ∀ t, (String.length (trim_start t) ≤ String.length t)%nat).
    { clear. induction t as [| c t IH]; simpl; [done |].
      destruct (is_space c); simpl; lia. }
    specialize (Hlen s). rewrite Heq in Hlen. simpl in Hlen. lia.
  - intros _. destruct (trim_end s); simpl; by rewrite Hc.
Qed.

Lemma trim_idem s : trim (trim s) = trim s.
Proof.
  unfold trim. rewrite trim_start_trim_end by apply trim_start_idem.
  apply trim_end_idem.
Qed.

(** *** [parseEmails] *)

Lemma split_go_no_separator s piece b :
  string_all (λ c, negb (is_separator c)) piece = true →
  Forall (λ p, string_all (λ c, negb (is_separator c)) p = true)
    (split_go s piece b).
Proof.
  revert piece b. induction s as [| c s IH]; intros piece b Hpiece; simpl.
  - by constructor.
  - destruct (is_separator c) eqn:Hc.
    + destruct b; [by apply IH | constructor; [done | by apply IH]].
    + apply IH. rewrite string_all_app, Hpiece. simpl. by rewrite Hc.
Qed.

Lemma set_order_sound seen l x :
  x ∈ set_order seen l → x ∈ l ∧ x ∉ seen.
Proof.
  revert seen. induction l as [| y l IH]; intros seen; simpl;
    [by intros ?%elem_of_nil |].
  case_bool_decide as Hy.
  - intros [? ?]%IH. split; [by right | done].
  - intros [-> | [? Hx]%IH]%elem_of_cons; [split; [by left | done] |].
    split; [by right |]. intros ?. apply Hx. by right.
Qed.

Lemma set_order_NoDup seen l : NoDup (set_order seen l).
Proof.
  revert seen. induction l as [| y l IH]; intros seen; simpl; [constructor |].
  case_bool_decide as Hy; [apply IH |].
  constructor; [| apply IH].
  intros [_ Hnot]%set_order_sound. apply Hnot. by left.
Qed.

Lemma set_order_complete seen l x :
  x ∈ l → x ∉ seen → x ∈ set_order seen l.
Proof.
  revert seen. induction l as [| y l IH]; intros seen; simpl;
    [by intros ?%elem_of_nil |].
  intros [-> | Hin]%elem_of_cons Hseen.
  - rewrite bool_decide_eq_false_2 by done. by left.
  - case_bool_decide as Hy; [by apply IH |].
    destruct (decide (x = y)) as [-> | Hne]; [by left |].
    right. apply IH; [done |]. by intros [? | ?]%elem_of_cons.
Qed.

Lemma set_order_id seen l :
  NoDup l → (∀ x, x ∈ l → x ∉ seen) → set_order seen l = l.
Proof.
  revert seen. induction l as [| y l IH]; intros seen Hnd Hseen; simpl;
    [done |].
  apply NoDup_cons in Hnd as [Hy Hnd].
  rewrite bool_decide_eq_false_2 by (apply Hseen; by left).
  f_equal. apply IH; [done |].
  intros x Hx [-> | ?]%elem_of_cons; [done |].
  by apply (Hseen x); [right |].
Qed.

Lemma parseEmails_elem (raw e : string) :
  e ∈ parseEmails raw
  ↔ ∃ piece, piece ∈ split_separators raw ∧ trim piece ≠ ""
             ∧ e = toLowerCase (trim piece).
Proof.
  unfold parseEmails.
  assert (Hmem :
    e ∈ map toLowerCase
          (List.filter (λ s, negb (String.eqb s ""))
             (map trim (split_separators raw)))
    ↔ ∃ piece, piece ∈ split_separators raw ∧ trim piece ≠ ""
               ∧ e = toLowerCase (trim piece)).
  { rewrite list_elem_of_fmap. split.
    - intros (t & -> & Ht). apply list_elem_of_In, filter_In in Ht as [Ht Hne].
      apply list_elem_of_In, list_elem_of_fmap in Ht as (piece & -> & Hp).
      exists piece. split; [done |]. split; [| done].
      apply negb_true_iff, String.eqb_neq in Hne. done.
    - intros (piece & Hp & Hne & ->). exists (trim piece). split; [done |].
      apply list_elem_of_In, filter_In. split.
      + apply list_elem_of_In, list_elem_of_fmap. eauto.
      + by apply negb_true_iff, String.eqb_neq. }
  rewrite <- Hmem. split.
  - by intros [? _]%set_order_sound.
  - intros He. apply set_order_complete; [done | by intros ?%elem_of_nil].
Qed.

Lemma parseEmails_address_like (raw : string) :
  Forall address_like (parseEmails raw).
Proof.
  apply Forall_forall. intros e (piece & Hp & Hne & ->)%parseEmails_elem.
  split; [by rewrite toLowerCase_empty |]. split; [| split].
  - rewrite toLowerCase_no_separator. unfold trim.
    apply trim_end_all, trim_start_all.
    pose proof (split_go_no_separator raw "" false eq_refl) as Hall.
    rewrite Forall_forall in Hall. by apply Hall.
  - by rewrite toLowerCase_trim, trim_idem.
  - apply toLowerCase_idem.
Qed.

(** X14: the addresses that [parseEmails] returns are pairwise different,
    and each is not empty, holds no comma, space or line break, has no white
    space at either end and no capital letter; an address is returned exactly
    when it is the trimmed, lower-cased form of a non-blank piece of the
    text. *)
Theorem parseEmails_entries (raw : string) :
  ascii_text raw →
  NoDup (parseEmails raw)
  ∧ Forall address_like (parseEmails raw)
  ∧ ∀ e, e ∈ parseEmails raw
         ↔ ∃ piece, piece ∈ split_separators raw ∧ trim piece ≠ ""
                    ∧ e = toLowerCase (trim piece).
Proof.
  intros _. split; [apply set_order_NoDup |].
  split; [apply parseEmails_address_like |]. intros e. apply parseEmails_elem.
Qed.

Lemma split_go_word e rest piece b :
  e ≠ "" → string_all (λ c, negb (is_separator c)) e = true →
  split_go (e +:+ rest) piece b = split_go rest (piece +:+ e) false.
Proof.
  revert piece b. induction e as [| c e IH]; intros piece b Hne Hall; [done |].
  simpl in Hall. apply andb_true_iff in Hall as [Hc Hall].
  apply negb_true_iff in Hc. rewrite string_app_cons. simpl. rewrite Hc.
  destruct e as [| c' e'].
  - by rewrite string_app_nil_l.
  - rewrite IH by done. by rewrite string_app_assoc.
Qed.

Lemma split_go_comma_space s piece :
  split_go (", " +:+ s) piece false = piece :: split_go s "" true.
Proof. reflexivity. Qed.

Lemma split_go_join (l : list string) (b : bool) :
  l ≠ [] →
  Forall (λ e, e ≠ "" ∧ string_all (λ c, negb (is_separator c)) e = true) l →
  split_go (String.concat ", " l) "" b = l.
Proof.
  intros Hne Hl. revert b.
  induction Hl as [| e l [He Hall] Hl IH]; intros b; [done |].
  destruct l as [| e2 l'].
  - simpl. rewrite <- (string_app_nil_r e) at 1.
    rewrite split_go_word by done. by rewrite string_app_nil_l.
  - change (String.concat ", " (e :: e2 :: l'))
      with (e +:+ ", " +:+ String.concat ", " (e2 :: l')).
    rewrite split_go_word by done.
    rewrite string_app_nil_l, split_go_comma_space.
    f_equal. by apply IH.
Qed.

Lemma map_id_Forall {A} (f : A → A) (l : list A) :
  Forall (λ x, f x = x) l → map f l = l.
Proof. induction 1 as [| x l Hx _ IH]; simpl; [done | by rewrite Hx, IH]. Qed.

(** X15: parsing is stable: a list of addresses of that form without
    repetition, written out with [", "] between them, parses to itself; so
    the parsed list of any text, written out and parsed again, is the same
    list. *)
Theorem parseEmails_join :
  (∀ l : list string,
     Forall address_like l → NoDup l →
     parseEmails (String.concat ", " l) = l)
  ∧ (∀ raw : string,
       ascii_text raw →
       parseEmails (String.concat ", " (parseEmails raw)) = parseEmails raw).
Proof.
  assert (Hjoin : ∀ l, Forall address_like l → NoDup l →
                       parseEmails (String.concat ", " l) = l).
  { intros l Hl Hnd. destruct (decide (l = [])) as [-> | Hne]; [done |].
    unfold parseEmails, split_separators. rewrite split_go_join; [| done |].
    - rewrite (map_id_Forall trim)
        by (eapply Forall_impl; [exact Hl |]; by intros e (_ & _ & ? & _)).
      rewrite forallb_filter_id.
      + rewrite (map_id_Forall toLowerCase)
          by (eapply Forall_impl; [exact Hl |]; by intros e (_ & _ & _ & ?)).
        apply set_order_id; [done |]. by intros x _ ?%elem_of_nil.
      + apply forallb_forall. intros e He%list_elem_of_In.
        rewrite Forall_forall in Hl. destruct (Hl e He) as (Hne' & _).
        by apply negb_true_iff, String.eqb_neq.
    - eapply Forall_impl; [exact Hl |]. by intros e (? & ? & _). }
  split; [exact Hjoin |].
  intros raw _. apply Hjoin;
    [apply parseEmails_address_like | apply set_order_NoDup].
Qed.

(** *** The title of an uploaded meeting *)

Lemma toLowerCase_length s : String.length (toLowerCase s) = String.length s.
Proof. induction s as [| c s IH]; simpl; [done | by rewrite IH]. Qed.

Lemma is_dot_txt_length s : is_dot_txt s = true → String.length s = 4%nat.
Proof.
  unfold is_dot_txt. intros H%String.eqb_eq.
  by rewrite <- toLowerCase_length, H.
Qed.

Lemma string_app_length (a b : string) :
  String.length (a +:+ b) = (String.length a + String.length b)%nat.
Proof.
  induction a as [| x a IH]; [done |]. rewrite string_app_cons. simpl.
  by rewrite IH.
Qed.

Lemma strip_txt_suffix (name : string) :
  ∃ ext, name = strip_txt name +:+ ext ∧ (ext = "" ∨ is_dot_txt ext = true).
Proof.
  induction name as [| c rest (ext & Heq & Hext)];
    [exists ""; split; [reflexivity | by left] |].
  simpl. destruct (is_dot_txt (String c rest)) eqn:Hdot.
  - exists (String c rest). split; [done | by right].
  - exists ext. split; [| done]. by rewrite string_app_cons, <- Heq.
Qed.

Lemma strip_txt_extension (base ext : string) :
  is_dot_txt ext = true → strip_txt (base +:+ ext) = base.
Proof.
  intros Hext. induction base as [| c base IH].
  - rewrite string_app_nil_l. destruct ext as [| c r]; [done |].
    simpl. by rewrite Hext.
  - rewrite string_app_cons. simpl.
    destruct (is_dot_txt (String c (base +:+ ext))) eqn:Hdot; [| by rewrite IH].
    apply is_dot_txt_length in Hdot, Hext. simpl in Hdot.
    rewrite string_app_length in Hdot. lia.
Qed.

(** X16: the title given to an uploaded file is never empty.  The name of
    the file is the stripped name followed by nothing or by [.txt] in some
    case; a name that ends in [.txt], in any case, always loses exactly that
    ending (once), and when nothing is left the title is ['New Meeting']. *)
Theorem meeting_title_spec (name : string) :
  meeting_title name ≠ ""
  ∧ (∃ ext, name = strip_txt name +:+ ext
            ∧ (ext = "" ∨ toLowerCase ext = ".txt"))
  ∧ (∀ base ext, name = base +:+ ext → toLowerCase ext = ".txt" →
       strip_txt name = base
       ∧ meeting_title name = if String.eqb base "" then "New Meeting" else base).
Proof.
  split; [| split].
  - unfold meeting_title. by destruct (strip_txt name).
  - destruct (strip_txt_suffix name) as (ext & Heq & [-> | Hext]).
    + exists "". by split; [| left].
    + exists ext. split; [done |]. right. by apply String.eqb_eq.
  - intros base ext -> Hext.
    assert (is_dot_txt ext = true) by by apply String.eqb_eq.
    unfold meeting_title. rewrite strip_txt_extension by done.
    split; [done |]. by destruct base.
Qed.

(** ** [request] *)

Lemma to_string_objects (l : list jsval) :
  Forall (λ v, ∃ o, v = JObj o) l →
  to_string (JArr l) = String.concat "," (map (λ _, "[object Object]") l).
Proof.
  unfold to_string. induction 1 as [| v l [o ->] Hl IH]; [done |].
  destruct Hl as [| v' l' [o' ->] Hl']; [done |].
  simpl in *. by rewrite IH.
Qed.

(** X17: a response that is not [ok] never makes [request] return: it
    throws, with the [detail] of the body as message when the body is a JSON
    object with a truthy [detail], and with ['Request failed: '] and the
    status in every other case (a body that is not JSON, JSON that is not an
    object, a missing or falsy [detail]); a [detail] that is a list of
    records, as for a validation error, gives the message [[object Object]]
    once per record. *)
Theorem request_failure (parse : string → outcome jsval) (res : Response) :
  ok res = false →
  (∀ v, request parse (Returned res) ≠ Returned v)
  ∧ (∀ o, parse (body res) = Returned (JObj o) → truthy o.["detail"] = true →
       request parse (Returned res) = Thrown (to_string o.["detail"]))
  ∧ ((∀ o, parse (body res) = Returned (JObj o) → truthy o.["detail"] = false) →
       request parse (Returned res)
       = Thrown ("Request failed: " +:+ pretty (status res)))
  ∧ (∀ o l, parse (body res) = Returned (JObj o) → o.["detail"] = JArr l →
       Forall (λ v, ∃ o', v = JObj o') l →
       request parse (Returned res)
       = Thrown (String.concat "," (map (λ _, "[object Object]") l))).
Proof.
  intros Hok. unfold request, failure_message. rewrite Hok. simpl.
  split; [done |]. split; [| split].
  - intros o -> Hd. simpl. by rewrite Hd.
  - intros Hnone. destruct (parse (body res)) as [[| | | | | | o] | e] eqn:Hp;
      simpl; try done.
    by rewrite (Hnone o eq_refl).
  - intros o l -> Hd Hl. simpl. rewrite Hd. simpl.
    by rewrite to_string_objects.
Qed.

(** X18: for an [ok] response with an empty body [request] returns the
    empty object without parsing anything, where [uploadTranscript] throws
    what [JSON.parse] throws on the empty text; on every other [ok] response
    both return or throw what [JSON.parse] does; and on a response that is
    not [ok] whose body carries a truthy [detail] both throw the same
    message. *)
Theorem request_and_upload (parse : string → outcome jsval) (res : Response) :
  (ok res = true → body res = "" →
     request parse (Returned res) = Returned (JObj ∅)
     ∧ upload_response parse (Returned res) = parse "")
  ∧ (ok res = true → body res ≠ "" →
       request parse (Returned res) = parse (body res)
       ∧ upload_response parse (Returned res) = parse (body res))
  ∧ (ok res = false →
       ∀ o, parse (body res) = Returned (JObj o) → truthy o.["detail"] = true →
       request parse (Returned res) = upload_response parse (Returned res)).
Proof.
  unfold request, upload_response, failure_message.
  split; [| split]; intros ->; simpl.
  - by intros ->.
  - intros Hne%String.eqb_neq. by rewrite Hne.
  - intros o -> Hd. simpl. by rewrite Hd.
Qed.

(** ** The header *)

Lemma scrolled_hidden_below (ys : list Qcanon.Qc) :
  Header.hidden (Header.scrolled ys) = true → Qcanon.Qclt (Qc_of_Z 96) (Header.lastY (Header.scrolled ys)).
Proof.
  unfold Header.scrolled. induction ys as [| y ys IH] using rev_ind; [done |].
  rewrite foldl_app. simpl.
  set (h := foldl _ Header.initial ys) in *.
  unfold Header.onScroll. simpl.
  case_bool_decide as Hdown; simpl.
  - case_bool_decide as Hfar; [done |]. intros Hh. specialize (IH Hh).
    destruct Hfar. by etrans.
  - done.
Qed.

(** X19: the header is hidden after a scroll event exactly when that event
    went down, to an offset beyond 96 pixels; so it is never hidden within
    96 pixels of the top, and any event that does not go down shows it. *)
Theorem header_hidden_iff (ys : list Qcanon.Qc) (y : Qcanon.Qc) :
  let h := Header.scrolled ys in
  (Header.hidden (Header.scrolled (ys ++ [y])) = true ↔ Qcanon.Qclt (Header.lastY h) y ∧ Qcanon.Qclt (Qc_of_Z 96) y)
  ∧ (Header.hidden h = true → Qcanon.Qclt (Qc_of_Z 96) (Header.lastY h)).
Proof.
  intros h. split; [| apply scrolled_hidden_below].
  unfold Header.scrolled. rewrite foldl_app. simpl. fold (Header.scrolled ys). fold h.
  unfold Header.onScroll. simpl.
  case_bool_decide as Hdown; simpl.
  - case_bool_decide as Hfar; [done |]. split; [| by intros [_ ?]].
    intros Hh%scrolled_hidden_below. destruct Hfar. by etrans.
  - split; [done | by intros [? _]].
Qed.

Example header_sample :
  Header.hidden (Header.scrolled (Qc_of_Z <$> [40; 120; 150]%Z)) = true
  ∧ Header.hidden (Header.scrolled (Qc_of_Z <$> [40; 120; 150; 149]%Z)) = false
  ∧ Header.hidden (Header.scrolled (Qc_of_Z <$> [40; 90]%Z)) = false.
Proof. repeat split; vm_compute; reflexivity. Qed.

(** ** The pages and the shell *)

Ltac unfold_tasks :=
  repeat (progress (unfold mbind, mret, task_mbind, task_ret, update,
                      await_call_obj, await_call_list, await_call_void,
                      prompt_with, warn, floating, also_seen; simpl)).

(** Case analysis on the next answer of the backend [B]. *)
Ltac answered B :=
  match goal with
  | |- context [answer_obj B ?w ?q] =>
      let w' := fresh "w" in let a := fresh "a" in let e := fresh "e" in
      destruct (answer_obj B w q) as [w' [a | e]]; simpl
  | |- context [answer_list B ?w ?q] =>
      let w' := fresh "w" in let a := fresh "a" in let e := fresh "e" in
      destruct (answer_list B w q) as [w' [a | e]]; simpl
  | |- context [answer_void B ?w ?q] =>
      let w' := fresh "w" in let a := fresh "a" in let e := fresh "e" in
      destruct (answer_void B w q) as [w' [a | e]]; simpl
  | |- context [answer_prompt B ?w ?m ?d] =>
      let w' := fresh "w" in let a := fresh "a" in
      destruct (answer_prompt B w m d) as [w' [a |]]; simpl
  end.

Section Tasks.
Context {W : Type} (B : Backend W).

(** The run of a sequence is the run of its first part followed, when that
    resolves, by the run of the rest. *)
Lemma perform_bind {S A C} (m : task S A) (f : A → task S C) (s : S) (w : W) :
  perform_task B (m ≫= f) s w
  = let r1 := perform_task B m s w in
    match settlement r1 with
    | Resolved a =>
        let r2 := perform_task B (f a) (state_after r1) (world_after r1) in
        {| state_after := state_after r2; world_after := world_after r2;
           seen := seen r1 ++ seen r2; settlement := settlement r2 |}
    | Rejected e =>
        {| state_after := state_after r1; world_after := world_after r1;
           seen := seen r1; settlement := Rejected e |}
    end.
Proof.
  unfold mbind, task_mbind. revert s w.
  induction m as [[a | e] | g k IH | q k IH | q k IH | q k IH | msg d k IH
                 | args k IH]; intros s w; simpl.
  - by destruct (perform_task B (f a) s w).
  - done.
  - apply IH.
  - destruct (answer_obj B w q) as [w' r]. rewrite IH. simpl.
    by destruct (settlement (perform_task B (k r) s w')).
  - destruct (answer_list B w q) as [w' r]. rewrite IH. simpl.
    by destruct (settlement (perform_task B (k r) s w')).
  - destruct (answer_void B w q) as [w' r]. rewrite IH. simpl.
    by destruct (settlement (perform_task B (k r) s w')).
  - destruct (answer_prompt B w msg d) as [w' r]. rewrite IH. simpl.
    by destruct (settlement (perform_task B (k r) s w')).
  - rewrite IH. simpl. by destruct (settlement (perform_task B k s w)).
Qed.

(** [try ... catch]: the handler runs only when the body rejects, from the
    state the body left. *)
Lemma perform_catch {S A} (body : task S A) (handler : JsError → task S A)
    (s : S) (w : W) :
  perform_task B (task_catch body handler) s w
  = let rb := perform_task B body s w in
    match settlement rb with
    | Resolved a => rb
    | Rejected e =>
        let rh := perform_task B (handler e) (state_after rb) (world_after rb) in
        {| state_after := state_after rh; world_after := world_after rh;
           seen := seen rb ++ seen rh; settlement := settlement rh |}
    end.
Proof.
  revert s w.
  induction body as [[a | e] | g k IH | q k IH | q k IH | q k IH | msg d k IH
                    | args k IH]; intros s w; simpl.
  - done.
  - by destruct (perform_task B (handler e) s w).
  - apply IH.
  - destruct (answer_obj B w q) as [w' r]. rewrite IH. simpl.
    by destruct (settlement (perform_task B (k r) s w')),
                (perform_task B (k r) s w').
  - destruct (answer_list B w q) as [w' r]. rewrite IH. simpl.
    by destruct (settlement (perform_task B (k r) s w')),
                (perform_task B (k r) s w').
  - destruct (answer_void B w q) as [w' r]. rewrite IH. simpl.
    by destruct (settlement (perform_task B (k r) s w')),
                (perform_task B (k r) s w').
  - destruct (answer_prompt B w msg d) as [w' r]. rewrite IH. simpl.
    by destruct (settlement (perform_task B (k r) s w')),
                (perform_task B (k r) s w').
  - rewrite IH. simpl.
    by destruct (settlement (perform_task B k s w)), (perform_task B k s w).
Qed.

(** [try ... finally] with a cleanup that only updates the state. *)
Lemma perform_finally_update {S A} (body : task S A) (f : S → S)
    (s : S) (w : W) :
  perform_task B (task_finally body (update f)) s w
  = let rb := perform_task B body s w in
    {| state_after := f (state_after rb); world_after := world_after rb;
       seen := seen rb; settlement := settlement rb |}.
Proof.
  revert s w.
  induction body as [x | g k IH | q k IH | q k IH | q k IH | msg d k IH
                    | args k IH]; intros s w; simpl.
  - done.
  - apply IH.
  - destruct (answer_obj B w q) as [w' r]. by rewrite IH.
  - destruct (answer_list B w q) as [w' r]. by rewrite IH.
  - destruct (answer_void B w q) as [w' r]. by rewrite IH.
  - destruct (answer_prompt B w msg d) as [w' r]. by rewrite IH.
  - by rewrite IH.
Qed.

(** X20: a form that is not filled in properly is never sent.  With an
    e-mail address that is blank once trimmed, an empty password, or, when
    signing up, a confirmation that differs from the password, [submit]
    makes no request, does not navigate, leaves [loading] alone and shows
    the message of the first of these rules that fails. *)
Theorem submit_invalid (r s : LoginPage.State) (w : W) :
  ascii_text (LoginPage.email r) →
  trim (LoginPage.email r) = ""
  ∨ LoginPage.password r = ""
  ∨ (LoginPage.mode r = LoginPage.signup
     ∧ LoginPage.password r ≠ LoginPage.confirm r) →
  let res := perform_task B (LoginPage.submit r) s w in
  seen res = [] ∧ world_after res = w ∧ settlement res = Resolved tt
  ∧ state_after res
    = LoginPage.setError
        (Some (if String.eqb (trim (LoginPage.email r)) ""
               then "Email is required."
               else if String.eqb (LoginPage.password r) ""
               then "Password is required."
               else "Passwords do not match.")) s.
Proof.
  intros _ Hbad res. subst res. unfold LoginPage.submit.
  destruct (String.eqb (trim (LoginPage.email r)) "") eqn:He.
  - apply String.eqb_eq in He. rewrite He. by unfold_tasks.
  - assert (String.eqb (toLowerCase (trim (LoginPage.email r))) "" = false)
      as ->.
    { apply String.eqb_neq. intros Hl. apply String.eqb_neq in He.
      apply He. by destruct (trim (LoginPage.email r)). }
    destruct (String.eqb (LoginPage.password r) "") eqn:Hp;
      [by unfold_tasks |].
    apply String.eqb_neq in He, Hp.
    destruct Hbad as [? | [? | [Hm Hne]]]; [done.. |].
    rewrite Hm. apply String.eqb_neq in Hne. rewrite Hne. by unfold_tasks.
Qed.

(** X21: a form that is filled in is sent once: [login] or [signup],
    according to the mode, with the e-mail address trimmed and in lower
    case and the password as typed.  While the request is pending
    [loading] is set and no error is shown; afterwards [loading] is
    cleared.  The page navigates to [/app] exactly when the request
    succeeded; a failure is shown as the text of the error. *)
Theorem submit_valid (r s : LoginPage.State) (w : W) :
  ascii_text (LoginPage.email r) →
  trim (LoginPage.email r) ≠ "" →
  LoginPage.password r ≠ "" →
  (LoginPage.mode r = LoginPage.signup →
     LoginPage.password r = LoginPage.confirm r) →
  let res := perform_task B (LoginPage.submit r) s w in
  let address := toLowerCase (trim (LoginPage.email r)) in
  ∃ s1 answer,
    seen res
    = [SeenObj s1
         (match LoginPage.mode r with
          | LoginPage.login => call_login address (LoginPage.password r)
          | LoginPage.signup => call_signup address (LoginPage.password r)
          end) answer]
    ∧ LoginPage.loading s1 = true ∧ LoginPage.error s1 = None
    ∧ settlement res = Resolved tt
    ∧ LoginPage.loading (state_after res) = false
    ∧ match answer with
      | Resolved _ =>
          LoginPage.location (state_after res) = "/app"
          ∧ LoginPage.error (state_after res) = None
      | Rejected err =>
          LoginPage.location (state_after res) = LoginPage.location s
          ∧ LoginPage.error (state_after res) = Some (error_string err)
      end.
Proof.
  intros _ He Hp Hm res address. subst res address. unfold LoginPage.submit.
  assert (String.eqb (toLowerCase (trim (LoginPage.email r))) "" = false)
    as ->.
  { apply String.eqb_neq. intros Hl. apply He.
    by destruct (trim (LoginPage.email r)). }
  apply String.eqb_neq in Hp. rewrite Hp.
  destruct (LoginPage.mode r) eqn:Hmode.
  - unfold_tasks. answered B; by eexists _, _.
  - rewrite (proj2 (String.eqb_eq _ _) (Hm eq_refl)). unfold_tasks.
    answered B; by eexists _, _.
Qed.

(** The loop over the addresses: one invitation is requested for each, in
    order; a failure is logged and the loop goes on; the state is not
    touched. *)
Lemma invite_each_spec (wid : jsval) (emails : list string) (s : Shell) (w : W) :
  let res := perform_task B (invite_each wid emails) s w in
  state_after res = s ∧ settlement res = Resolved tt
  ∧ calls_obj (seen res) = map (call_createInvite wid) emails
  ∧ calls_list (seen res) = [] ∧ calls_void (seen res) = []
  ∧ warnings (seen res)
    = map (λ '(email, e), [WText "Invite failed for"; WText email; WError e])
        (failed_invites (seen res)).
Proof.
  revert s w. induction emails as [| email rest IH]; intros s w; [done |].
  cbn [invite_each]. rewrite perform_bind.
  unfold_tasks. answered B.
  - destruct (IH s w0) as (-> & -> & Hc & Hl & Hv & Hw). simpl.
    by rewrite Hc, Hl, Hv, Hw.
  - destruct (IH s w0) as (-> & -> & Hc & Hl & Hv & Hw). simpl.
    by rewrite Hc, Hl, Hv, Hw.
Qed.

Lemma calls_obj_app {S} (a b : list (step_seen S)) :
  calls_obj (a ++ b) = (calls_obj a ++ calls_obj b)%list.
Proof. apply omap_app. Qed.

Lemma calls_list_app {S} (a b : list (step_seen S)) :
  calls_list (a ++ b) = (calls_list a ++ calls_list b)%list.
Proof. apply omap_app. Qed.

Lemma warnings_app {S} (a b : list (step_seen S)) :
  warnings (a ++ b) = (warnings a ++ warnings b)%list.
Proof. apply omap_app. Qed.

Lemma failed_invites_app {S} (a b : list (step_seen S)) :
  failed_invites (a ++ b) = (failed_invites a ++ failed_invites b)%list.
Proof. apply omap_app. Qed.

(** The run of [handleCreateGroup], request by request. *)
Lemma handleCreateGroup_run (groupName : string) (emails : list string)
    (s : Shell) (w : W) :
  let res := perform_task B (handleCreateGroup groupName emails) s w in
  ∃ s0 created rest,
    seen res = SeenObj s0 (call_createWorkspace groupName) created :: rest
    ∧ match created with
      | Rejected e =>
          rest = [] ∧ settlement res = Rejected e ∧ state_after res = s
      | Resolved ws =>
          calls_obj rest = map (call_createInvite ws.["id"]) emails
          ∧ warnings rest
            = map (λ '(email, e),
                     [WText "Invite failed for"; WText email; WError e])
                (failed_invites rest)
          ∧ ∃ s1 listed,
              SeenList s1 call_listWorkspaces listed ∈ rest
              ∧ match listed with
                | Rejected e =>
                    calls_list rest = [call_listWorkspaces]
                    ∧ settlement res = Rejected e ∧ state_after res = s
                | Resolved all_workspaces =>
                    calls_list rest
                    = [call_listWorkspaces; call_listPendingInvites]
                    ∧ settlement res = Resolved tt
                    ∧ ∃ shown,
                        state_after res
                        = setInvites shown
                            (in_core (setActiveWorkspaceId (const ws.["id"]))
                               (setWorkspaces all_workspaces s))
                end
      end.
Proof.
  intros res. subst res. unfold handleCreateGroup.
  unfold mbind at 1, task_mbind at 1, await_call_obj. simpl.
  destruct (answer_obj B w (call_createWorkspace groupName)) as [w0 [ws | e]];
    simpl; [| by eexists _, _, _].
  eexists _, _, _. split; [reflexivity |]. cbv beta iota.
  change (task_bind ?f ?m) with (m ≫= f).
  rewrite perform_bind.
  destruct (invite_each_spec ws.["id"] emails s w0)
    as (Hs & Hr & Hc & Hl & Hv & Hw).
  cbv zeta. rewrite Hr, Hs. cbn [seen settlement state_after world_after].
  set (loop := perform_task B (invite_each ws.["id"] emails) s w0) in *.
  rewrite calls_obj_app, calls_list_app, warnings_app, failed_invites_app.
  rewrite Hc, Hl, Hw. unfold_tasks.
  destruct (answer_list B (world_after loop) call_listWorkspaces)
    as [w1 [all_workspaces | e]]; simpl.
  - destruct (answer_list B w1 call_listPendingInvites) as [w2 [inv | e]];
      simpl; rewrite !app_nil_r; (split; [done |]); (split; [done |]);
      eexists _, _; (split; [apply elem_of_app; right; apply elem_of_cons; by left |]);
      (split; [done |]); (split; [done |]); by eexists.
  - rewrite !app_nil_r. split; [done |]. split; [done |].
    eexists _, _. split; [apply elem_of_app; right; apply elem_of_cons; by left |].
    done.
Qed.

(** X22: creating a group.  When the workspace cannot be created nothing
    else is requested and nothing changes.  Otherwise one invitation is
    requested for every address, in order, whatever the fate of the others;
    each failure is logged with its address and stops nothing.  The
    workspaces are then listed once: on an answer the list is shown and the
    new workspace becomes the active one, while the record of the last task
    marked done is kept; on a failure the handler rejects with the state as
    it was, although the workspace exists and the invitations are sent. *)
Theorem handleCreateGroup_spec (groupName : string) (emails : list string)
    (s : Shell) (w : W) :
  let res := perform_task B (handleCreateGroup groupName emails) s w in
  ∃ s0 created rest,
    seen res = SeenObj s0 (call_createWorkspace groupName) created :: rest
    ∧ match created with
      | Rejected e =>
          rest = [] ∧ settlement res = Rejected e ∧ state_after res = s
      | Resolved ws =>
          calls_obj rest = map (call_createInvite ws.["id"]) emails
          ∧ warnings rest
            = map (λ '(email, e),
                     [WText "Invite failed for"; WText email; WError e])
                (failed_invites rest)
          ∧ ∃ s1 listed,
              SeenList s1 call_listWorkspaces listed ∈ rest
              ∧ match listed with
                | Rejected e =>
                    calls_list rest = [call_listWorkspaces]
                    ∧ settlement res = Rejected e ∧ state_after res = s
                | Resolved all_workspaces =>
                    calls_list rest
                    = [call_listWorkspaces; call_listPendingInvites]
                    ∧ settlement res = Resolved tt
                    ∧ workspaces (state_after res) = all_workspaces
                    ∧ activeWorkspaceId (core (state_after res)) = ws.["id"]
                    ∧ lastDone (core (state_after res)) = lastDone (core s)
                end
      end.
Proof.
  intros res.
  destruct (handleCreateGroup_run groupName emails s w)
    as (s0 & created & rest & Hseen & Hcreated).
  exists s0, created, rest. split; [done |].
  destruct created as [ws | e]; [| done].
  destruct Hcreated as (Hcalls & Hwarn & s1 & listed & Hin & Hl).
  split; [done |]. split; [done |]. exists s1, listed. split; [done |].
  destruct listed as [all_workspaces | e]; [| done].
  destruct Hl as (Hlist & Hset & shown & Hstate).
  split; [done |]. split; [done |]. subst res. by rewrite Hstate.
Qed.

(** X23: the effect of the active workspace.  Without one, the meetings,
    the tasks, the members and the selected meeting are cleared and nothing
    is requested or stored.  With one, its identifier is stored and the
    meetings and the tasks are both requested.  When both arrive they are
    shown, the members are requested and shown (none when that request
    fails) and the first meeting, if any, is selected.  When either fails,
    nothing is requested further and the meetings, tasks, members and
    selection of the workspace shown before stay on screen. *)
Theorem workspace_effect_spec (r s : Shell) (w : W) :
  let res := perform_task B (workspace_effect r) s w in
  let id := activeWorkspaceId (core r) in
  settlement res = Resolved tt
  ∧ (truthy id = false →
       seen res = [] ∧ stored_workspace (state_after res) = stored_workspace s
       ∧ meetings (state_after res) = [] ∧ tasks (core (state_after res)) = []
       ∧ members (state_after res) = []
       ∧ selectedMeetingId (core (state_after res)) = JNull)
  ∧ (truthy id = true →
       stored_workspace (state_after res) = Some (to_string id)
       ∧ ∃ s1 listed_meetings s2 listed_tasks rest,
           seen res = SeenList s1 (call_listMeetings id) listed_meetings
                      :: SeenList s2 (call_listTasks id) listed_tasks :: rest
           ∧ match listed_meetings, listed_tasks with
             | Resolved ms, Resolved ts =>
                 meetings (state_after res) = ms
                 ∧ tasks (core (state_after res)) = ts
                 ∧ selectedMeetingId (core (state_after res))
                   = match ms with m0 :: _ => m0.["id"] | [] => JNull end
                 ∧ ∃ s3 listed_members,
                     rest = [SeenList s3 (call_listWorkspaceMembers id)
                               listed_members]
                     ∧ meetings s3 = ms
                     ∧ members (state_after res)
                       = match listed_members with
                         | Resolved ms' => ms'
                         | Rejected _ => []
                         end
             | _, _ =>
                 rest = []
                 ∧ meetings (state_after res) = meetings s
                 ∧ tasks (core (state_after res)) = tasks (core s)
                 ∧ members (state_after res) = members s
                 ∧ selectedMeetingId (core (state_after res))
                   = selectedMeetingId (core s)
             end).
Proof.
  intros res id. subst res id. unfold workspace_effect.
  destruct (truthy (activeWorkspaceId (core r))) eqn:Hid; simpl.
  - unfold await_both, refreshWorkspaceMembers. unfold_tasks.
    do 2 answered B.
    + answered B.
      * split; [by destruct a |]. split; [done |]. intros _.
        split; [by destruct a |].
        eexists _, _, _, _, _. split; [by destruct a |].
        destruct a; simpl; repeat (split; [done |]); by eexists _, _.
      * split; [by destruct a |]. split; [done |]. intros _.
        split; [by destruct a |].
        eexists _, _, _, _, _. split; [by destruct a |].
        destruct a; simpl; repeat (split; [done |]); by eexists _, _.
    + split; [done |]. split; [done |]. intros _. split; [done |].
      by eexists _, _, _, _, _.
    + split; [done |]. split; [done |]. intros _. split; [done |].
      by eexists _, _, _, _, _.
    + split; [done |]. split; [done |]. intros _. split; [done |].
      by eexists _, _, _, _, _.
  - unfold_tasks. done.
Qed.

Lemma strict_eq_eq (a b : jsval) : (a === b) = true → a = b.
Proof.
  destruct a, b; simpl; try discriminate; intros H; f_equal.
  - by apply Bool.eqb_prop.
  - by apply Z.eqb_eq.
  - by apply String.eqb_eq.
Qed.

(** The workspace chosen on load is one of those listed, and the saved one
    when it is still listed. *)
Lemma initial_workspace_listed (savedId : jsval) (ws : list obj) :
  let chosen := initial_workspace savedId ws in
  (ws = [] → chosen = JNull)
  ∧ (ws ≠ [] → ∃ w0, w0 ∈ ws ∧ w0.["id"] = chosen)
  ∧ (truthy savedId = true → (∃ w0, w0 ∈ ws ∧ w0.["id"] = savedId) →
       (savedId === savedId) = true → chosen = savedId).
Proof.
  intros chosen. subst chosen. unfold initial_workspace.
  split; [| split].
  - intros ->. simpl. by rewrite andb_false_r.
  - intros Hne.
    destruct (truthy savedId && existsb _ ws) eqn:Hc.
    + apply andb_true_iff in Hc as [_ (w0 & Hin & Heq)%existsb_exists].
      exists w0. split; [by apply list_elem_of_In |]. by apply strict_eq_eq.
    + destruct ws as [| w0 ws']; [done |]. exists w0. split; [left | done].
  - intros Ht (w0 & Hin & Hid) Hrefl. rewrite Ht. simpl.
    assert (existsb (λ w1, w1.["id"] === savedId) ws = true) as ->; [| done].
    apply existsb_exists. exists w0. split; [by apply list_elem_of_In |].
    by rewrite Hid.
Qed.

(** X24: the first load.  When the session cannot be read, nothing else is
    requested and nothing changes.  Otherwise the user is shown, the
    pending invitations are loaded (none on failure) and the workspaces are
    listed; on their arrival the active workspace becomes one of those
    listed, or none when the list is empty: a saved workspace that is no
    longer listed is never activated, and one that is listed is kept. *)
Theorem mount_effect_spec (Number : string → jsval) (s : Shell) (w : W) :
  let res := perform_task B (mount_effect Number) s w in
  ∃ s0 session rest,
    seen res = SeenObj s0 call_me session :: rest
    ∧ match session with
      | Rejected e =>
          rest = [] ∧ settlement res = Rejected e ∧ state_after res = s
      | Resolved me =>
          user (state_after res) = JObj me
          ∧ ∃ s1 pending_invites s2 listed,
              rest = [SeenList s1 call_listPendingInvites pending_invites;
                      SeenList s2 call_listWorkspaces listed]
              ∧ invites (state_after res)
                = match pending_invites with
                  | Resolved l => l
                  | Rejected _ => []
                  end
              ∧ match listed with
                | Rejected e =>
                    settlement res = Rejected e
                    ∧ workspaces (state_after res) = workspaces s
                    ∧ activeWorkspaceId (core (state_after res))
                      = activeWorkspaceId (core s)
                | Resolved ws =>
                    let chosen := activeWorkspaceId (core (state_after res)) in
                    settlement res = Resolved tt
                    ∧ workspaces (state_after res) = ws
                    ∧ (ws = [] → chosen = JNull)
                    ∧ (ws ≠ [] → ∃ w0, w0 ∈ ws ∧ w0.["id"] = chosen)
                    ∧ (∀ saved n,
                         stored_workspace s = Some saved → saved ≠ "" →
                         Number saved = JNum n → n ≠ 0%Z →
                         (∃ w0, w0 ∈ ws ∧ w0.["id"] = JNum n) →
                         chosen = JNum n)
                end
      end.
Proof.
  intros res. subst res. unfold mount_effect, refreshInvites. unfold_tasks.
  answered B; [| by eexists _, _, _].
  eexists _, _, _. split; [reflexivity |].
  do 2 answered B;
    (split; [done |]); eexists _, _, _, _; (split; [reflexivity |]);
    (split; [done |]); try done.
  all: split; [done |]; split; [done |].
  all: match goal with
       | |- context [initial_workspace ?sv ?l] =>
           destruct (initial_workspace_listed sv l) as (H1 & H2 & H3)
       end.
  all: split; [done |]; split; [done |].
  all: intros saved n Hsaved Hne HN Hn Hin.
  all: rewrite Hsaved in H3 |- *.
  all: apply String.eqb_neq in Hne; rewrite Hne in H3 |- *.
  all: rewrite HN in H3 |- *.
  all: apply H3; [simpl; by apply negb_true_iff, Z.eqb_neq | done
                 | simpl; apply Z.eqb_refl].
Qed.

(** X25: a click on [Log out].  The header asks the server to log out and
    only then calls the shell, which asks again: when the first request
    fails nothing else happens and the user stays on the page, signed in;
    when it succeeds a second request is sent, and whatever its outcome the
    user is forgotten and the login page is shown. *)
Theorem logout_click (s : Shell) (w : W) :
  let res := perform_task B (Header.handleLogout handleLogout) s w in
  ∃ s1 first rest,
    seen res = SeenVoid s1 call_logout first :: rest
    ∧ match first with
      | Rejected e =>
          rest = [] ∧ settlement res = Rejected e ∧ state_after res = s
      | Resolved _ =>
          (∃ s2 second, rest = [SeenVoid s2 call_logout second])
          ∧ settlement res = Resolved tt
          ∧ user (state_after res) = JNull
          ∧ location (state_after res) = "/login"
      end.
Proof.
  intros res. subst res. unfold Header.handleLogout, handleLogout.
  unfold_tasks. answered B; [| by eexists _, _, _].
  answered B; eexists _, _, _; (split; [reflexivity |]);
    (split; [by eexists _, _ |]); done.
Qed.

(** X26: a file picked in the sidebar.  [uploading] is set during every
    request and cleared at the end, whatever happened.  Without an active
    workspace nothing is requested.  With one, a meeting is created under
    the title derived from the name of the file, which is never empty; then
    the file is uploaded to it and the meetings are listed again.  Only when
    all three succeed is the list shown and the new meeting selected; after
    a failure of the upload or of the listing the handler rejects and the
    meeting created is neither listed nor selected. *)
Theorem upload_spec (r s : Shell) (file_name : string) (w : W) :
  let res :=
    perform_task B
      (Sidebar.handleFile (handleNewMeetingUpload r) (Some file_name)) s w in
  let id := activeWorkspaceId (core r) in
  uploading (state_after res) = false
  ∧ Forall (λ ev, ∃ sx, seen_state ev = Some sx ∧ uploading sx = true)
      (seen res)
  ∧ (truthy id = false → seen res = [] ∧ settlement res = Resolved tt)
  ∧ (truthy id = true →
       ∃ title s1 created rest,
         title = meeting_title file_name ∧ title ≠ ""
         ∧ seen res
           = SeenObj s1
               (call_createMeeting
                  {[ "workspace_id" := id; "title" := JStr title;
                     "meeting_date" := JNull ]}) created :: rest
         ∧ match created with
           | Rejected e => rest = [] ∧ settlement res = Rejected e
           | Resolved m =>
               ∃ s2 uploaded rest',
                 rest = SeenObj s2 (call_uploadTranscript m.["id"] file_name)
                          uploaded :: rest'
                 ∧ match uploaded with
                   | Rejected e =>
                       rest' = [] ∧ settlement res = Rejected e
                       ∧ meetings (state_after res) = meetings s
                       ∧ selectedMeetingId (core (state_after res))
                         = selectedMeetingId (core s)
                   | Resolved _ =>
                       ∃ s3 listed,
                         rest' = [SeenList s3 (call_listMeetings id) listed]
                         ∧ match listed with
                           | Rejected e =>
                               settlement res = Rejected e
                               ∧ meetings (state_after res) = meetings s
                               ∧ selectedMeetingId (core (state_after res))
                                 = selectedMeetingId (core s)
                           | Resolved ms =>
                               settlement res = Resolved tt
                               ∧ meetings (state_after res) = ms
                               ∧ selectedMeetingId (core (state_after res))
                                 = m.["id"]
                           end
                   end
           end).
Proof.
  intros res id. subst res id.
  unfold Sidebar.handleFile, handleNewMeetingUpload.
  assert (meeting_title file_name ≠ "") as Htitle.
  { unfold meeting_title. by destruct (strip_txt file_name). }
  destruct (truthy (activeWorkspaceId (core r))) eqn:Hid; simpl.
  - unfold_tasks.
    answered B.
    + answered B.
      * answered B.
        -- split; [done |]. split; [repeat constructor; by eexists |].
           split; [done |]. intros _. eexists _, _, _, _.
           do 2 (split; [done |]). split; [reflexivity |].
           eexists _, _, _. split; [reflexivity |]. by eexists _, _.
        -- split; [done |]. split; [repeat constructor; by eexists |].
           split; [done |]. intros _. eexists _, _, _, _.
           do 2 (split; [done |]). split; [reflexivity |].
           eexists _, _, _. split; [reflexivity |]. by eexists _, _.
      * split; [done |]. split; [repeat constructor; by eexists |].
        split; [done |]. intros _. eexists _, _, _, _.
        do 2 (split; [done |]). split; [reflexivity |].
        by eexists _, _, _.
    + split; [done |]. split; [repeat constructor; by eexists |].
      split; [done |]. intros _. eexists _, _, _, _.
      do 2 (split; [done |]). by split; [reflexivity |].
  - unfold_tasks. split; [done |]. split; [constructor |]. done.
Qed.

(** X27: accepting an invitation.  When the server refuses, nothing else is
    requested and nothing changes.  Otherwise the pending invitations are
    reloaded (none on failure) and the workspaces listed; on their arrival
    they are shown, and the first becomes the active workspace only when
    none was active: an active workspace is never switched. *)
Theorem handleAcceptInvite_spec (r s : Shell) (id : jsval) (w : W) :
  let res := perform_task B (handleAcceptInvite r id) s w in
  ∃ s0 accepted rest,
    seen res = SeenVoid s0 (call_acceptInvite id) accepted :: rest
    ∧ match accepted with
      | Rejected e =>
          rest = [] ∧ settlement res = Rejected e ∧ state_after res = s
      | Resolved _ =>
          ∃ s1 pending_invites s2 listed,
            rest = [SeenList s1 call_listPendingInvites pending_invites;
                    SeenList s2 call_listWorkspaces listed]
            ∧ invites (state_after res)
              = match pending_invites with
                | Resolved l => l
                | Rejected _ => []
                end
            ∧ match listed with
              | Rejected e =>
                  settlement res = Rejected e
                  ∧ workspaces (state_after res) = workspaces s
                  ∧ activeWorkspaceId (core (state_after res))
                    = activeWorkspaceId (core s)
              | Resolved ws =>
                  settlement res = Resolved tt
                  ∧ workspaces (state_after res) = ws
                  ∧ activeWorkspaceId (core (state_after res))
                    = match ws with
                      | w0 :: _ =>
                          if truthy (activeWorkspaceId (core r))
                          then activeWorkspaceId (core s)
                          else w0.["id"]
                      | [] => activeWorkspaceId (core s)
                      end
              end
      end.
Proof.
  intros res. subst res. unfold handleAcceptInvite, refreshInvites.
  unfold_tasks. answered B; [| by eexists _, _, _].
  eexists _, _, _. split; [reflexivity |].
  do 2 answered B;
    try match goal with
        | |- context [perform_task B (match ?l with [] => _ | _ :: _ => _ end)] =>
            destruct l; simpl
        end;
    try destruct (truthy (activeWorkspaceId (core r))); simpl;
    by eexists _, _, _, _.
Qed.

(** X28: the Rename button of a member.  A cancelled prompt requests
    nothing, and so does any answer when no workspace is active.
    Otherwise one update is sent for that member with the answer trimmed,
    or with [null] when the answer is blank; when it succeeds the members
    are requested again and shown (none when that request fails); when it
    fails the handler rejects and the members shown stay. *)
Theorem rename_click_spec (r s : Shell) (m : obj) (w : W) :
  let res :=
    perform_task B (Sidebar.rename_click (handleRenameMember r) m) s w in
  let id := activeWorkspaceId (core r) in
  ∃ s0 message default answer rest,
    seen res = SeenPrompt s0 message default answer :: rest
    ∧ default = to_string (m.["display_name"] ?? JStr "")
    ∧ match answer with
      | None => rest = [] ∧ settlement res = Resolved tt ∧ state_after res = s
      | Some text =>
          ascii_text text →
          if truthy id then
            ∃ s1 updated rest',
              rest = SeenObj s1
                       (call_updateWorkspaceMember id m.["id"]
                          (if String.eqb (trim text) "" then JNull
                           else JStr (trim text))) updated :: rest'
              ∧ match updated with
                | Rejected e =>
                    rest' = [] ∧ settlement res = Rejected e
                    ∧ state_after res = s
                | Resolved _ =>
                    ∃ s2 listed,
                      rest' = [SeenList s2 (call_listWorkspaceMembers id)
                                 listed]
                      ∧ settlement res = Resolved tt
                      ∧ members (state_after res)
                        = match listed with
                          | Resolved ms => ms
                          | Rejected _ => []
                          end
                end
          else rest = [] ∧ settlement res = Resolved tt ∧ state_after res = s
      end.
Proof.
  intros res id. subst res id.
  unfold Sidebar.rename_click, handleRenameMember, refreshWorkspaceMembers.
  unfold_tasks. answered B; [| by eexists _, _, _, _, _].
  eexists _, _, _, _, _. split; [reflexivity |]. split; [done |].
  intros _. destruct (truthy (activeWorkspaceId (core r))); simpl; [| done].
  answered B; [| by eexists _, _, _].
  eexists _, _, _. split; [reflexivity |].
  answered B; by eexists _, _.
Qed.

(** X29: creating a group from the dialog.  A blank group name requests
    nothing and shows a message.  Otherwise the workspace is created under
    the trimmed name and one invitation is requested for each address
    parsed from the text, so nobody is invited twice; [creating] is cleared
    at the end.  The form is emptied and closed exactly when the workspace
    was created and the workspaces could be listed again; on a failure of
    either the error is shown and the form is kept as it was, even though
    in the second case the group exists and the invitations are sent. *)
Theorem handleCreate_spec (r s : Shell) (w : W) :
  ascii_text (name r) → ascii_text (emailsRaw r) →
  let res :=
    perform_task B (InvitesModal.handleCreate handleCreateGroup r) s w in
  let groupName := trim (name r) in
  let kept (e : JsError) :=
    err (state_after res) = Some (error_string e)
    ∧ name (state_after res) = name s
    ∧ emailsRaw (state_after res) = emailsRaw s
    ∧ showCreate (state_after res) = showCreate s
    ∧ activeWorkspaceId (core (state_after res)) = activeWorkspaceId (core s) in
  settlement res = Resolved tt
  ∧ (groupName = "" →
       seen res = []
       ∧ state_after res = setErr (Some "Group name is required.") s)
  ∧ (groupName ≠ "" →
       creating (state_after res) = false
       ∧ ∃ s0 created rest,
           seen res = SeenObj s0 (call_createWorkspace groupName) created :: rest
           ∧ creating s0 = true
           ∧ match created with
             | Rejected e => rest = [] ∧ kept e
             | Resolved ws =>
                 calls_obj rest
                 = map (call_createInvite ws.["id"]) (parseEmails (emailsRaw r))
                 ∧ NoDup (calls_obj rest)
                 ∧ ∃ s1 listed,
                     SeenList s1 call_listWorkspaces listed ∈ rest
                     ∧ match listed with
                       | Rejected e => kept e
                       | Resolved _ =>
                           err (state_after res) = None
                           ∧ name (state_after res) = ""
                           ∧ emailsRaw (state_after res) = ""
                           ∧ showCreate (state_after res) = false
                           ∧ activeWorkspaceId (core (state_after res))
                             = ws.["id"]
                       end
             end).
Proof.
  intros _ _ res groupName. subst res groupName.
  unfold InvitesModal.handleCreate.
  destruct (String.eqb (trim (name r)) "") eqn:Hname.
  { apply String.eqb_eq in Hname. unfold_tasks. by rewrite Hname. }
  apply String.eqb_neq in Hname.
  change (update (setErr None) ;; ?m) with (TSet (setErr None) m).
  change (update (setCreating true) ;; ?m) with (TSet (setCreating true) m).
  cbn [perform_task].
  rewrite perform_finally_update, perform_catch, perform_bind.
  set (s' := setCreating true (setErr None s)).
  destruct (handleCreateGroup_run (trim (name r))
              (parseEmails (emailsRaw r)) s' w)
    as (s0 & created & rest & Hseen & Hcreated).
  assert (s0 = s') as ->.
  { revert Hseen. unfold handleCreateGroup. unfold_tasks.
    destruct (answer_obj B w _) as [? [? | ?]]; simpl; congruence. }
  set (run := perform_task B _ s' w) in *.
  cbv zeta. split.
  { destruct created as [ws | e].
    - destruct Hcreated as (_ & _ & s1 & [all_ws | e] & _ & Hl).
      + destruct Hl as (_ & -> & _). by unfold_tasks.
      + destruct Hl as (_ & -> & _). by unfold_tasks.
    - destruct Hcreated as (_ & -> & _). by unfold_tasks. }
  split; [done |]. intros _.
  split.
  { destruct (settlement run); by unfold_tasks. }
  exists s', created, rest.
  destruct created as [ws | e].
  - destruct Hcreated as (Hcalls & _ & s1 & listed & Hin & Hl).
    destruct listed as [all_ws | e].
    + destruct Hl as (_ & Hset & shown & Hstate). rewrite Hset, Hstate.
      unfold_tasks. rewrite app_nil_r.
      split; [done |]. split; [done |]. split; [done |].
      split.
      { rewrite Hcalls. apply NoDup_fmap_2; [| apply set_order_NoDup].
        by intros ? ? [=]. }
      exists s1, (Resolved all_ws). by split.
    + destruct Hl as (_ & Hset & Hstate). rewrite Hset, Hstate.
      unfold_tasks. rewrite app_nil_r.
      split; [done |]. split; [done |]. split; [done |].
      split.
      { rewrite Hcalls. apply NoDup_fmap_2; [| apply set_order_NoDup].
        by intros ? ? [=]. }
      exists s1, (Rejected e). by split.
  - destruct Hcreated as (-> & Hset & Hstate). rewrite Hset, Hstate.
    unfold_tasks. rewrite Hseen. by split.
Qed.

End Tasks.

(** ** The sample session, further *)

Lemma startExtraction_outcome_witness :
  let started := sample_run 9 "processing" in
  let exts := [started; sample_run 3 "complete"] in
  let w := answers [Returned started]
             [Returned exts; Returned [<["id" := JNum 20]> sample_item]] [] in
  let res := run scripted (startExtraction sample_state) sample_state w in
  result res = Returned tt
  ∧ extractions (final res) = exts
  ∧ selectedExtractionId (final res) = JNum 9
  ∧ ∃ s' raws,
      last (trace res)
      = Some (EvList s' (listExtractionItems (JNum 9)) (Returned raws))
      ∧ items (final res) = map normalizeItem raws.
Proof.
  intros started exts w res.
  assert (Hres : result res = Returned tt) by (vm_compute; reflexivity).
  split; [exact Hres |].
  exact (startExtraction_outcome scripted sample_state w
           (answers [] [Returned exts;
                        Returned [<["id" := JNum 20]> sample_item]] [])
           (answers [] [Returned [<["id" := JNum 20]> sample_item]] [])
           started exts eq_refl eq_refl eq_refl eq_refl Hres).
Defined.

Lemma item_mutation_frame_witness :
  let w := answers [Returned (<["status" := JStr "rejected"]> sample_item)] []
             [Some "duplicate"] in
  let res := run scripted (perform sample_state (Reject sample_item))
               sample_state w in
  target (Reject sample_item) = Some (JNum 11)
  ∧ only_replaces (JNum 11) (items sample_state) (items (final res))
  ∧ items (final res) !! 1%nat = Some sample_note
  ∧ lastDone (final res) = lastDone sample_state
  ∧ tasks (final res) = tasks sample_state.
Proof.
  intros w res.
  assert (Htarget : target (Reject sample_item) = Some (JNum 11))
    by (vm_compute; reflexivity).
  split; [exact Htarget |].
  destruct (item_mutation_frame scripted sample_state w (Reject sample_item)
              (JNum 11) Htarget) as ((Hitems & Hdone & _ & _ & Htasks) & _).
  split; [exact Hitems |].
  split; [| split; [exact Hdone | exact Htasks]].
  apply (proj2 Hitems 1%nat sample_note); vm_compute; reflexivity.
Defined.

Lemma task_mutation_frame_witness :
  let w := answers [Returned (<["status" := JStr "done"]> sample_task)] [] [] in
  let res := run scripted (perform sample_state (MarkDone (JNum 7)))
               sample_state w in
  only_replaces (JNum 7) (tasks sample_state) (tasks (final res))
  ∧ items (final res) = items sample_state
  ∧ busyIds (final res) = busyIds sample_state.
Proof.
  intros w res.
  destruct (task_mutation_frame scripted sample_state w (MarkDone (JNum 7))
              (JNum 7) (or_introl eq_refl)) as (Htasks & Hitems & _ & _ & Hbusy).
  split; [exact Htasks |]. split; [exact Hitems | exact Hbusy].
Defined.

Lemma tick_observes_terminal_witness :
  let p := poll_commit sample_polling unmounted in
  let t := {| period := 1500; captured := sample_polling |} in
  let exts := [sample_run 4 "complete"; sample_run 3 "complete"] in
  let w := answers [] [Returned exts; Returned []] [] in
  let res := run scripted (callback t) sample_polling w in
  mounted p
  ∧ timers p !! 1%positive = Some t
  ∧ activeExtraction (final res) = Some (sample_run 4 "complete")
  ∧ timers (poll_commit (final res) p) = ∅
  ∧ ¬ can_tick (poll_commit (final res) p) 1%positive.
Proof.
  intros p t exts w res.
  assert (Hmounted : mounted p) by apply mounted_first.
  assert (Htimer : timers p !! 1%positive = Some t) by (vm_compute; reflexivity).
  split; [exact Hmounted |]. split; [exact Htimer |].
  assert (Hn : 4%Z ≠ 0%Z) by discriminate.
  destruct (tick_observes_terminal scripted p sample_polling w
              (answers [] [Returned []] []) 1%positive t 4%Z exts
              (sample_run 4 "complete") Hmounted Htimer Hn
              eq_refl eq_refl eq_refl eq_refl eq_refl (or_introl eq_refl))
    as (Hactive & _ & Htimers & Htick).
  split; [exact Hactive |]. split; [exact Htimers | exact Htick].
Defined.

Lemma tick_observes_processing_witness :
  let p := poll_commit sample_polling unmounted in
  let t := {| period := 1500; captured := sample_polling |} in
  let exts := [sample_run 4 "processing"; sample_run 3 "complete"] in
  let w := answers [] [Returned exts; Returned []] [] in
  let res := run scripted (callback t) sample_polling w in
  mounted p
  ∧ timers p !! 1%positive = Some t
  ∧ poll_commit (final res) p = p
  ∧ can_tick (poll_commit (final res) p) 1%positive.
Proof.
  intros p t exts w res.
  assert (Hmounted : mounted p) by apply mounted_first.
  assert (Htimer : timers p !! 1%positive = Some t) by (vm_compute; reflexivity).
  split; [exact Hmounted |]. split; [exact Htimer |].
  assert (Hn : 4%Z ≠ 0%Z) by discriminate.
  exact (tick_observes_processing scripted p sample_polling w
           (answers [] [Returned []] []) 1%positive t 4%Z exts
           (sample_run 4 "processing") Hmounted Htimer Hn
           eq_refl eq_refl eq_refl eq_refl eq_refl eq_refl).
Defined.

Lemma polling_single_timer_witness :
  let p := poll_commit sample_state (poll_commit sample_polling unmounted) in
  mounted p
  ∧ (size (timers p) ≤ 1)%nat
  ∧ timers (poll_unmount (poll_commit sample_polling unmounted)) = ∅.
Proof.
  intros p.
  assert (Hfirst : mounted (poll_commit sample_polling unmounted))
    by apply mounted_first.
  assert (Hmounted : mounted p) by (apply mounted_next; exact Hfirst).
  split; [exact Hmounted |].
  split; [exact (proj1 (polling_single_timer p Hmounted)) |].
  exact (proj2 (proj2 (polling_single_timer _ Hfirst))).
Defined.

Lemma selectMeeting_same_witness :
  let w := answers [] [] [] in
  let res := run scripted (selectMeeting 2 (JNum 5)) sample_state w in
  is_id (JNum 5)
  ∧ object_is (selectedMeetingId sample_state) (JNum 5) = true
  ∧ trace res = [] ∧ items (final res) = items sample_state.
Proof.
  intros w res.
  assert (Hm : is_id (JNum 5)) by (right; by exists 5%Z).
  assert (Hsel : is_id (selectedExtractionId sample_state))
    by (right; by exists 3%Z).
  assert (Hsame : object_is (selectedMeetingId sample_state) (JNum 5) = true)
    by reflexivity.
  split; [exact Hm |]. split; [exact Hsame |].
  destruct (selectMeeting_same scripted sample_state w (JNum 5) 2 Hm Hsel Hsame)
    as (Htrace & _ & _ & Hfinal & _).
  split; [exact Htrace |]. fold res in Hfinal. by rewrite Hfinal.
Defined.

Lemma parseEmails_entries_witness :
  let raw := "Bob@example.org, bob@example.org cy@example.org" in
  ascii_text raw
  ∧ parseEmails raw = ["bob@example.org"; "cy@example.org"]
  ∧ NoDup (parseEmails raw)
  ∧ Forall address_like (parseEmails raw).
Proof.
  intros raw.
  assert (Hascii : ascii_text raw) by (vm_compute; tauto).
  split; [exact Hascii |]. split; [reflexivity |].
  destruct (parseEmails_entries raw Hascii) as (Hnodup & Hlike & _).
  split; [exact Hnodup | exact Hlike].
Defined.

Lemma request_failure_witness :
  let parse := λ text : string,
    if String.eqb text "" then Thrown "SyntaxError: Unexpected end of JSON input"
    else Returned (JObj {[ "detail" := JStr "Not authenticated" ]}) in
  let res := {| ok := false; status := 401; body := "detail: Not authenticated" |} in
  ok res = false
  ∧ request parse (Returned res) = Thrown "Not authenticated"
  ∧ ∀ v, request parse (Returned res) ≠ Returned v.
Proof.
  intros parse res.
  assert (Hok : ok res = false) by reflexivity.
  split; [exact Hok |].
  destruct (request_failure parse res Hok) as (Hnever & Hdetail & _).
  split; [| exact Hnever].
  exact (Hdetail {[ "detail" := JStr "Not authenticated" ]} eq_refl eq_refl).
Defined.

Lemma submit_invalid_witness :
  let r := sample_form LoginPage.signup "  " "secret" "secret" in
  let res := perform_task replying (LoginPage.submit r) r (replies [] [] [] []) in
  ascii_text (LoginPage.email r)
  ∧ trim (LoginPage.email r) = ""
  ∧ seen res = []
  ∧ LoginPage.error (state_after res) = Some "Email is required."
  ∧ LoginPage.location (state_after res) = "/login".
Proof.
  intros r res.
  assert (Hascii : ascii_text (LoginPage.email r)) by (vm_compute; tauto).
  assert (Hblank : trim (LoginPage.email r) = "") by reflexivity.
  split; [exact Hascii |]. split; [exact Hblank |].
  destruct (submit_invalid replying r r (replies [] [] [] []) Hascii
              (or_introl Hblank)) as (Hseen & _ & _ & Hstate).
  split; [exact Hseen |]. fold res in Hstate. by rewrite Hstate.
Defined.

Lemma submit_valid_witness :
  let r := sample_form LoginPage.login " Ann@Example.org " "Secret" "" in
  let w := replies [Resolved {[ "id" := JNum 2 ]}] [] [] [] in
  let res := perform_task replying (LoginPage.submit r) r w in
  ascii_text (LoginPage.email r)
  ∧ calls_obj (seen res) = [call_login "ann@example.org" "Secret"]
  ∧ LoginPage.loading (state_after res) = false
  ∧ LoginPage.location (state_after res) = "/app"
  ∧ LoginPage.error (state_after res) = None.
Proof.
  intros r w res.
  assert (Hascii : ascii_text (LoginPage.email r)) by (vm_compute; tauto).
  split; [exact Hascii |].
  assert (Hemail : trim (LoginPage.email r) ≠ "") by discriminate.
  assert (Hpassword : LoginPage.password r ≠ "") by discriminate.
  assert (Hconfirm : LoginPage.mode r = LoginPage.signup →
                     LoginPage.password r = LoginPage.confirm r)
    by discriminate.
  destruct (submit_valid replying r r w Hascii Hemail Hpassword Hconfirm)
    as (s1 & answer & Hseen & _ & _ & _ & Hloading & Hanswer).
  fold res in Hseen, Hloading, Hanswer.
  assert (Hresolved : answer = Resolved {[ "id" := JNum 2 ]}).
  { assert (Hfirst : head (seen res)
                     = Some (SeenObj (LoginPage.setLoading true
                                        (LoginPage.setError None r))
                               (call_login "ann@example.org" "Secret")
                               (Resolved {[ "id" := JNum 2 ]})))
      by (vm_compute; reflexivity).
    rewrite Hseen in Hfirst. simpl in Hfirst. congruence. }
  rewrite Hresolved in Hanswer.
  split; [by rewrite Hseen |]. split; [exact Hloading | exact Hanswer].
Defined.

Lemma handleCreate_spec_witness :
  let w := replies [Resolved (sample_workspace 8 "Planning");
                    Rejected server_error; Resolved ∅]
             [Resolved [sample_workspace 1 "Team"; sample_workspace 8 "Planning"];
              Resolved []] [] [] in
  let res := perform_task replying
               (InvitesModal.handleCreate handleCreateGroup sample_shell)
               sample_shell w in
  ascii_text (name sample_shell) ∧ ascii_text (emailsRaw sample_shell)
  ∧ trim (name sample_shell) ≠ ""
  ∧ settlement res = Resolved tt
  ∧ creating (state_after res) = false
  ∧ calls_obj (seen res)
    = [call_createWorkspace "Planning";
       call_createInvite (JNum 8) "bob@example.org";
       call_createInvite (JNum 8) "cy@example.org"].
Proof.
  intros w res.
  assert (Hname : ascii_text (name sample_shell)) by (vm_compute; tauto).
  assert (Hemails : ascii_text (emailsRaw sample_shell))
    by (vm_compute; tauto).
  assert (Hgroup : trim (name sample_shell) ≠ "") by discriminate.
  split; [exact Hname |]. split; [exact Hemails |]. split; [exact Hgroup |].
  destruct (handleCreate_spec replying sample_shell sample_shell w
              Hname Hemails) as (Hsettled & _ & Hrun).
  split; [exact Hsettled |].
  destruct (Hrun Hgroup) as (Hcreating & _).
  split; [exact Hcreating |]. vm_compute. reflexivity.
Defined.

(** ** The undo record and the active workspace *)


